(** * supervision.utils.image: tiling and letterboxing

    A shallow embedding of [src/supervision/utils/image.py] and the
    properties of its grid planner, aspect-preserving resize, letterbox,
    tile composer, [place_image], [crop_image] and [ImageSink].

    Conventions of the embedding.
    - A Python [int] is a [Z].  A Python [float] is an IEEE binary64
      value, [PrimFloat.float]: the ratio arithmetic of
      [resize_image_keeping_aspect_ratio] is rounded at every step and
      the rounding is visible in its results, so it is modelled bit for
      bit.
    - Three float computations are replaced by exact integer arithmetic
      because they agree with it on every input below 2^52:
      [math.ceil(np.sqrt(n))], [math.ceil(n / g)] and
      [round(np.average(l))].  (A correctly rounded quotient or root of
      integers below 2^52 never crosses an integer or a half-integer.)
    - An exception is a value of [exn]; a function that can raise returns
      a [result].
    - What [ImageSink] does to the file system is the list of the
      operations it performs, in their order; what it reads from the
      file system is an argument. *)

From Stdlib Require Import ZArith List Lia Bool Floats.
From Stdlib Require String.
Import ListNotations String.StringSyntax.
Open Scope string_scope.
Open Scope Z_scope.

Abbreviation string := String.string.

Set Implicit Arguments.

(** ** Exceptions and results *)

(** The three [ValueError]s of [create_tiles] are told apart by their
    message; the spec names them.  [FuelExhausted] is not a Python
    exception: it marks a loop of the model that ran out of fuel. *)
Inductive exn : Type :=
| EmptyInputError
| InvalidScalingModeError (mode : string)
| GridCapacityError (n_images : Z) (grid : Z * Z)
| ZeroDivisionError
| OverflowError
| IndexError
| NumpyValueError
| Cv2Error
| FuelExhausted.

(** What a call gives: a value, or the exception it raised. *)
Inductive result (A : Type) : Type :=
| Ok (a : A)
| Raise (e : exn).

Arguments Ok {A} a.
Arguments Raise {A} e.

(** Sequencing: the first exception raised ends the computation. *)
Definition bind {A B : Type} (r : result A) (k : A -> result B) : result B :=
  match r with
  | Ok a => k a
  | Raise e => Raise e
  end.

Notation "x <- c ;; k" := (bind c (fun x => k))
  (at level 61, c at next level, right associativity).
Notation "' pat <- c ;; k" := (bind c (fun x => match x with pat => k end))
  (at level 61, pat pattern, c at next level, right associativity).

(** A list comprehension over a function that can raise. *)
Fixpoint mapM {A B : Type} (f : A -> result B) (l : list A) : result (list B) :=
  match l with
  | [] => Ok []
  | a :: l' => b <- f a ;; bs <- mapM f l' ;; Ok (b :: bs)
  end.

(** ** Python numbers *)

(** [len(l)]. *)
Definition len {A : Type} (l : list A) : Z := Z.of_nat (length l).

(** [float(z)], correctly rounded. *)
Definition float_of_Z (z : Z) : float :=
  SF2Prim (binary_normalize prec emax z 0 false).

(** [int(x)]: truncation toward zero; [int(inf)] and [int(nan)] raise. *)
Definition py_int (x : float) : result Z :=
  match Prim2SF x with
  | S754_zero _ => Ok 0
  | S754_finite s m e =>
      let v := if 0 <=? e then Z.pos m * 2 ^ e else Z.pos m / 2 ^ (- e) in
      Ok (if s then - v else v)
  | _ => Raise OverflowError
  end.

(** [a / b] on two ints. *)
Definition py_truediv (a b : Z) : result float :=
  if b =? 0 then Raise ZeroDivisionError
  else Ok (PrimFloat.div (float_of_Z a) (float_of_Z b)).

(** [a / x] on an int and a float. *)
Definition py_div_float (a : Z) (x : float) : result float :=
  if PrimFloat.eqb x 0%float then Raise ZeroDivisionError
  else Ok (PrimFloat.div (float_of_Z a) x).

(** [a * x] on an int and a float. *)
Definition py_mul_float (a : Z) (x : float) : float :=
  PrimFloat.mul (float_of_Z a) x.

(** [math.ceil(a / b)], exact. *)
Definition py_ceil_div (a b : Z) : result Z :=
  if b =? 0 then Raise ZeroDivisionError else Ok (- ((- a) / b)).

(** [math.ceil(np.sqrt(n))], exact. *)
Definition ceil_sqrt (n : Z) : Z :=
  let s := Z.sqrt n in
  if s * s =? n then s else s + 1.

(** The same through binary64, as the source computes it. *)
Definition ceil_float (x : float) : Z :=
  match py_int x with
  | Ok t => if PrimFloat.ltb (float_of_Z t) x then t + 1 else t
  | Raise _ => 0
  end.

(** [math.ceil(np.sqrt(n))] through binary64. *)
Definition ceil_sqrt_float (n : Z) : Z :=
  ceil_float (PrimFloat.sqrt (float_of_Z n)).

(** [round(s / n)] for [n > 0], exact: halves go to the even neighbour. *)
Definition py_round_div (s n : Z) : Z :=
  let q := s / n in
  let r := s mod n in
  if 2 * r <? n then q
  else if n <? 2 * r then q + 1
  else if Z.even q then q else q + 1.

(** ** Rasters: numpy arrays of shape (height, width, 3) *)

(** One pixel: its three channel values, in the buffer's order. *)
Definition pixel : Type := Z * Z * Z.

(** The first two axes of an array of shape (height, width, 3): the
    width and the rows of pixels.  The width is kept apart from the rows
    so that an array without rows still has one. *)
Record ndarray : Type := mk_ndarray {
  ncols : nat;
  nd_rows : list (list pixel)
}.

(** [a.shape[0]]. *)
Definition nrows (a : ndarray) : nat := length (nd_rows a).

(** [a.shape[:2]], which is (height, width). *)
Definition shape (a : ndarray) : Z * Z :=
  (Z.of_nat (nrows a), Z.of_nat (ncols a)).

(** The buffer invariant: every row holds [ncols] pixels. *)
Definition well_shaped (a : ndarray) : Prop :=
  Forall (fun r => length r = ncols a) (nd_rows a).

(** The array holds no pixel. *)
Definition is_empty (a : ndarray) : bool :=
  (nrows a =? 0)%nat || (ncols a =? 0)%nat.

(** [a[y, x]] for an index inside the array. *)
Definition pixel_at (a : ndarray) (y x : Z) : option pixel :=
  if (y <? 0) || (x <? 0) then None
  else match nth_error (nd_rows a) (Z.to_nat y) with
       | Some r => nth_error r (Z.to_nat x)
       | None => None
       end.

(** [np.ones((h, w, 3)) * color]. *)
Definition np_full (h w : Z) (c : pixel) : result ndarray :=
  if (h <? 0) || (w <? 0) then Raise NumpyValueError
  else Ok {| ncols := Z.to_nat w;
             nd_rows := repeat (repeat c (Z.to_nat w)) (Z.to_nat h) |}.

(** [b] to the right of [a]. *)
Definition hstack (a b : ndarray) : ndarray :=
  {| ncols := ncols a + ncols b;
     nd_rows := map (fun p => fst p ++ snd p) (combine (nd_rows a) (nd_rows b)) |}.

(** [b] below [a]. *)
Definition vstack (a b : ndarray) : ndarray :=
  {| ncols := ncols a; nd_rows := nd_rows a ++ nd_rows b |}.

(** [np.concatenate(l, axis=1)]: the heights must agree. *)
Definition np_concatenate_axis1 (l : list ndarray) : result ndarray :=
  match l with
  | [] => Raise NumpyValueError
  | a :: rest =>
      if forallb (fun b => (nrows b =? nrows a)%nat) rest
      then Ok (fold_left hstack rest a)
      else Raise NumpyValueError
  end.

(** [np.concatenate(l, axis=0)]: the widths must agree. *)
Definition np_concatenate_axis0 (l : list ndarray) : result ndarray :=
  match l with
  | [] => Raise NumpyValueError
  | a :: rest =>
      if forallb (fun b => (ncols b =? ncols a)%nat) rest
      then Ok (fold_left vstack rest a)
      else Raise NumpyValueError
  end.

(** The cast of one pixel to [np.uint8], on integral channel values. *)
Definition uint8_pixel (p : pixel) : pixel :=
  match p with
  | (b, g, r) => (b mod 256, g mod 256, r mod 256)
  end.

(** [a.astype(np.uint8)]. *)
Definition astype_uint8 (a : ndarray) : ndarray :=
  {| ncols := ncols a; nd_rows := map (map uint8_pixel) (nd_rows a) |}.

(** A slice bound, as Python clamps it against a length. *)
Definition slice_index (length_ i : Z) : Z :=
  if i <? 0 then Z.max (i + length_) 0 else Z.min i length_.

(** [l[s:e]]. *)
Definition py_slice {A : Type} (l : list A) (s e : Z) : list A :=
  let n := len l in
  let s' := slice_index n s in
  let e' := slice_index n e in
  firstn (Z.to_nat (e' - s')) (skipn (Z.to_nat s') l).

(** [a[y1:y2, x1:x2]]. *)
Definition np_getslice (a : ndarray) (y1 y2 x1 x2 : Z) : ndarray :=
  let w := Z.of_nat (ncols a) in
  {| ncols := Z.to_nat (slice_index w x2 - slice_index w x1);
     nd_rows := map (fun r => py_slice r x1 x2) (py_slice (nd_rows a) y1 y2) |}.

(** [a[y1:y2, x1:x2] = b], giving the array after the assignment.  The
    shapes must agree (numpy would also stretch a block of height or
    width one; [place_image] never needs it). *)
Definition np_setslice (a : ndarray) (y1 y2 x1 x2 : Z) (b : ndarray)
  : result ndarray :=
  let h := Z.of_nat (nrows a) in
  let w := Z.of_nat (ncols a) in
  let ys := slice_index h y1 in
  let ye := Z.max ys (slice_index h y2) in
  let xs := slice_index w x1 in
  let xe := Z.max xs (slice_index w x2) in
  if (ye - ys =? Z.of_nat (nrows b)) && (xe - xs =? Z.of_nat (ncols b))
  then
    Ok {| ncols := ncols a;
          nd_rows :=
            firstn (Z.to_nat ys) (nd_rows a)
            ++ map (fun p => firstn (Z.to_nat xs) (fst p) ++ snd p
                             ++ skipn (Z.to_nat xe) (fst p))
                   (combine (firstn (Z.to_nat (ye - ys))
                                    (skipn (Z.to_nat ys) (nd_rows a)))
                            (nd_rows b))
            ++ skipn (Z.to_nat ye) (nd_rows a) |}
  else Raise NumpyValueError.

(** ** Geometry, colours and the external collaborators *)

(** [supervision.geometry.core.Point]. *)
Record Point : Type := mk_Point { x : float; y : float }.

(** Modelled from the spec: [supervision.draw.color.Color], "an ordered
    triple of channel intensities", held as red, green, blue; the other
    form of a colour argument is a tuple already in the buffer's order. *)
Inductive color_arg : Type :=
| ColorObj (r g b : Z)
| BgrTuple (bgr : pixel).

(** [Color.as_bgr()]. *)
Definition as_bgr (r g b : Z) : pixel := (b, g, r).

(** The drawing parameters [_draw_texts] hands to [draw_text]. *)
Record text_style : Type := mk_text_style {
  text_color : pixel;
  text_scale : float;
  text_thickness : Z;
  text_padding : Z;
  text_font : Z;
  background_color : pixel
}.

(** What the tiling code consumes without looking inside: the pixel
    values [cv2.resize] interpolates, the pixel values [draw_text]
    leaves on a copy of the scene, and the text scale helper. *)
Class Primitives : Type := {
  resample : ndarray -> nat -> nat -> nat -> nat -> pixel;
  text_pixel : text_style -> ndarray -> string -> Point -> nat -> nat -> pixel;
  calculate_optimal_text_scale : Z * Z -> float
}.

(** The raster of [h] rows and [w] columns whose pixel [(i, j)] is
    [f i j]. *)
Definition tabulate (h w : nat) (f : nat -> nat -> pixel) : ndarray :=
  {| ncols := w;
     nd_rows := map (fun i => map (fun j => f i j) (seq 0 w)) (seq 0 h) |}.

(** Modelled from the spec: [supervision.draw.utils.draw_text], which
    draws the text "onto a copy of the input raster": the result has the
    scene's shape, and its pixels are those of [text_pixel]. *)
Definition draw_text `{Primitives} (st : text_style) (scene : ndarray)
  (text : string) (anchor : Point) : ndarray :=
  tabulate (nrows scene) (ncols scene) (text_pixel st scene text anchor).

(** [cv2.resize(image, (new_width, new_height))]: an empty source or an
    empty target size is rejected. *)
Definition cv2_resize `{Primitives} (image : ndarray) (dsize : Z * Z)
  : result ndarray :=
  let '(new_width, new_height) := dsize in
  if is_empty image || (new_width <=? 0) || (new_height <=? 0)
  then Raise Cv2Error
  else Ok (tabulate (Z.to_nat new_height) (Z.to_nat new_width)
             (resample image (Z.to_nat new_height) (Z.to_nat new_width))).

(** [cv2.copyMakeBorder(src, top, bottom, left, right, BORDER_CONSTANT,
    value)]: a negative border or an empty source is rejected. *)
Definition cv2_copyMakeBorder (src : ndarray) (top bottom left right : Z)
  (value : pixel) : result ndarray :=
  if is_empty src || (top <? 0) || (bottom <? 0) || (left <? 0) || (right <? 0)
  then Raise Cv2Error
  else
    let w := (Z.to_nat left + ncols src + Z.to_nat right)%nat in
    Ok {| ncols := w;
          nd_rows :=
            repeat (repeat value w) (Z.to_nat top)
            ++ map (fun r => repeat value (Z.to_nat left) ++ r
                             ++ repeat value (Z.to_nat right)) (nd_rows src)
            ++ repeat (repeat value w) (Z.to_nat bottom) |}.

(** An input image: a numpy array (BGR) or a PIL image (RGB). *)
Inductive ImageType : Type :=
| NdArray (a : ndarray)
| PilImage (a : ndarray).

(** RGB to BGR and back. *)
Definition swap_channels (a : ndarray) : ndarray :=
  {| ncols := ncols a;
     nd_rows := map (map (fun p : pixel =>
                  match p with (c0, c1, c2) => (c2, c1, c0) end)) (nd_rows a) |}.

(** Modelled from the spec: [supervision.utils.conversion.images_to_cv2],
    the "raster-normalization primitive converting an arbitrary supported
    external image representation into the internal Raster". *)
Definition images_to_cv2 (images : list ImageType) : list ndarray :=
  map (fun i => match i with
                | NdArray a => a
                | PilImage a => swap_channels a
                end) images.

(** Modelled from the spec: [supervision.utils.conversion.cv2_to_pillow],
    the way back. *)
Definition cv2_to_pillow (image : ndarray) : ImageType :=
  PilImage (swap_channels image).

(** Modelled from the spec: [supervision.utils.iterables.fill], the
    "fill primitive that pads a shorter list with a default value to a
    target length". *)
Definition fill {A : Type} (sequence : list A) (desired_size : Z) (content : A)
  : list A :=
  sequence ++ repeat content (Z.to_nat (desired_size - len sequence)).

(** [l] cut into runs of [size] elements, the last one possibly
    shorter; [fuel] bounds the number of runs. *)
Fixpoint chunks {A : Type} (fuel size : nat) (l : list A) : list (list A) :=
  match fuel, l with
  | _, [] => []
  | O, _ => [l]
  | S fuel', _ => firstn size l :: chunks fuel' size (skipn size l)
  end.

(** Modelled from the spec: [supervision.utils.iterables.create_batches],
    the "batching primitive that partitions a flat ordered sequence into
    equal-size chunks (last chunk may be short)"; a size below one counts
    as one. *)
Definition create_batches {A : Type} (sequence : list A) (batch_size : Z)
  : list (list A) :=
  chunks (length sequence) (Z.to_nat (Z.max batch_size 1)) sequence.

(** ** The source: [supervision/utils/image.py] *)

(** Line 24. *)
Definition MAX_COLUMNS_FOR_SINGLE_ROW_GRID : Z := 3.

(** *** [place_image] *)

(** The scene is updated in place and returned: the result is the state
    of the caller's scene after the call. *)
Definition place_image (scene image : ndarray) (anchor : Z * Z)
  : result ndarray :=
  let '(scene_height, scene_width) := shape scene in
  let '(image_height, image_width) := shape image in
  let '(anchor_x, anchor_y) := anchor in
  let is_out_horizontally :=
    (anchor_x + image_width <=? 0) || (scene_width <=? anchor_x) in
  let is_out_vertically :=
    (anchor_y + image_height <=? 0) || (scene_height <=? anchor_y) in
  if is_out_horizontally || is_out_vertically then Ok scene
  else
    let start_y := Z.max anchor_y 0 in
    let start_x := Z.max anchor_x 0 in
    let end_y := Z.min scene_height (anchor_y + image_height) in
    let end_x := Z.min scene_width (anchor_x + image_width) in
    let crop_start_y := Z.max (- anchor_y) 0 in
    let crop_start_x := Z.max (- anchor_x) 0 in
    let crop_end_y :=
      image_height - Z.max ((anchor_y + image_height) - scene_height) 0 in
    let crop_end_x :=
      image_width - Z.max ((anchor_x + image_width) - scene_width) 0 in
    np_setslice scene start_y end_y start_x end_x
      (np_getslice image crop_start_y crop_end_y crop_start_x crop_end_x).

(** *** [crop_image] *)

(** [np.round(v).astype(int)] for one coordinate: the nearest integer,
    halves to the even neighbour.  The cast of a value that is not
    finite or does not fit in 64 bits is left to the platform by numpy;
    the model gives the result of x86-64, the least 64-bit integer. *)
Definition np_round_astype_int (v : float) : Z :=
  match Prim2SF v with
  | S754_zero _ => 0
  | S754_finite s m e =>
      let r :=
        if 0 <=? e then Z.pos m * 2 ^ e
        else py_round_div (Z.pos m) (2 ^ (- e)) in
      let r := if s then - r else r in
      if (- 2 ^ 63 <=? r) && (r <? 2 ^ 63) then r else - 2 ^ 63
  | _ => - 2 ^ 63
  end.

(** Lines 27 to 54, on a numpy image (the decorator converts a PIL image
    to one and the result back). *)
Definition crop_image (image : ndarray) (xyxy : float * float * float * float)
  : ndarray :=
  let '(x1, y1, x2, y2) := xyxy in
  let x1 := np_round_astype_int x1 in
  let y1 := np_round_astype_int y1 in
  let x2 := np_round_astype_int x2 in
  let y2 := np_round_astype_int y2 in
  np_getslice image y1 y2 x1 x2.

(** *** [ImageSink] *)

(** What the sink does to the file system, in the order it does it. *)
Inductive fs_event : Type :=
| Rmtree (path : string)
| Makedirs (path : string)
| Imwrite (path : string) (image : ndarray).

(** [os.path.join(a, b)] on a POSIX system: an absolute [b] replaces
    [a]. *)
Definition os_path_join (a b : string) : string :=
  if String.prefix "/" b then b
  else if String.eqb a ""
          || String.eqb (String.substring (String.length a - 1) 1 a) "/"
       then String.append a b
       else String.append a (String.append "/" b).

(** [pattern.format(count)], which the sink consumes without looking
    inside. *)
Class Formatter : Type := {
  str_format : string -> Z -> string
}.

Module ImageSink.

(** The attributes of a sink. *)
Record t : Type := mk {
  target_dir_path : string;
  overwrite : bool;
  image_name_pattern : string;
  image_count : Z
}.

(** Lines 128 to 159. *)
Definition __init__ (target_dir_path : string) (overwrite : bool)
  (image_name_pattern : string) : t :=
  {| target_dir_path := target_dir_path;
     overwrite := overwrite;
     image_name_pattern := image_name_pattern;
     image_count := 0 |}.

(** Lines 161 to 169; [path_exists] is what [os.path.exists] answers for
    the target directory. *)
Definition __enter__ (self : t) (path_exists : bool) : t * list fs_event :=
  if path_exists then
    if overwrite self
    then (self, [Rmtree (target_dir_path self);
                 Makedirs (target_dir_path self)])
    else (self, [])
  else (self, [Makedirs (target_dir_path self)]).

(** Lines 171 to 187. *)
Definition save_image `{Formatter} (self : t) (image : ndarray)
  (image_name : option string) : t * list fs_event :=
  let image_name :=
    match image_name with
    | None => str_format (image_name_pattern self) (image_count self)
    | Some name => name
    end in
  let image_path := os_path_join (target_dir_path self) image_name in
  ({| target_dir_path := target_dir_path self;
      overwrite := overwrite self;
      image_name_pattern := image_name_pattern self;
      image_count := image_count self + 1 |},
   [Imwrite image_path image]).

(** Lines 189 to 190. *)
Definition __exit__ (self : t) : t * list fs_event := (self, []).

End ImageSink.

(** *** Colours *)

(** Lines 630 to 633. *)
Definition _color_to_bgr (color : color_arg) : pixel :=
  match color with
  | ColorObj r g b => as_bgr r g b
  | BgrTuple t => t
  end.

(** Lines 541 to 544: [shape] is (width, height). *)
Definition _generate_color_image (shape_wh : Z * Z) (color : pixel)
  : result ndarray :=
  np_full (snd shape_wh) (fst shape_wh) color.

(** *** Output format *)

(** [issubclass(type(i), np.ndarray)]. *)
Definition is_ndarray (i : ImageType) : bool :=
  match i with
  | NdArray _ => true
  | PilImage _ => false
  end.

(** Lines 338 to 342. *)
Definition _negotiate_tiles_format (images : list ImageType) : string :=
  let number_of_np_arrays := len (filter is_ndarray images) in
  if len images / 2 <=? number_of_np_arrays then "cv2" else "pillow".

(** *** Tile size *)

(** [np.min(l)]. *)
Definition np_min (l : list Z) : result Z :=
  match l with
  | [] => Raise NumpyValueError
  | a :: rest => Ok (fold_left Z.min rest a)
  end.

(** [np.max(l)]. *)
Definition np_max (l : list Z) : result Z :=
  match l with
  | [] => Raise NumpyValueError
  | a :: rest => Ok (fold_left Z.max rest a)
  end.

(** [round(np.average(l))]. *)
Definition round_np_average (l : list Z) : result Z :=
  match l with
  | [] => Raise NumpyValueError
  | _ => Ok (py_round_div (fold_left Z.add l 0) (len l))
  end.

(** [aggregator] stands for [round] after the numpy aggregator ([round]
    leaves the integers of [np.min] and [np.max] as they are). *)
Definition _calculate_aggregated_images_shape (images : list ndarray)
  (aggregator : list Z -> result Z) : result (Z * Z) :=
  height <- aggregator (map (fun i => fst (shape i)) images) ;;
  width <- aggregator (map (fun i => snd (shape i)) images) ;;
  Ok (width, height).

(** Lines 353 to 357. *)
Definition SHAPE_AGGREGATION_FUN
  : list (string * (list ndarray -> result (Z * Z))) :=
  [ ("min", fun images => _calculate_aggregated_images_shape images np_min);
    ("max", fun images => _calculate_aggregated_images_shape images np_max);
    ("avg", fun images =>
              _calculate_aggregated_images_shape images round_np_average) ].

(** Lookup in a dictionary with string keys. *)
Fixpoint dict_get {V : Type} (d : list (string * V)) (k : string) : option V :=
  match d with
  | [] => None
  | (k', v) :: d' => if String.eqb k k' then Some v else dict_get d' k
  end.

(** Lines 360 to 368. *)
Definition _aggregate_images_shape (images : list ndarray) (mode : string)
  : result (Z * Z) :=
  match dict_get SHAPE_AGGREGATION_FUN mode with
  | None => Raise (InvalidScalingModeError mode)
  | Some f => f images
  end.

(** *** Grid size *)

(** The [while] loop of [_negotiate_grid_size]; [None] when the fuel
    runs out. *)
Fixpoint trim_rows (fuel : nat) (proposed_columns proposed_rows n : Z)
  : option Z :=
  if n <=? proposed_columns * (proposed_rows - 1) then
    match fuel with
    | O => None
    | S fuel' => trim_rows fuel' proposed_columns (proposed_rows - 1) n
    end
  else Some proposed_rows.

(** Lines 383 to 391. *)
Definition _negotiate_grid_size (images : list ndarray) : option (Z * Z) :=
  if len images <=? MAX_COLUMNS_FOR_SINGLE_ROW_GRID then Some (1, len images)
  else
    let nearest_sqrt := ceil_sqrt (len images) in
    let proposed_columns := nearest_sqrt in
    let proposed_rows := nearest_sqrt in
    match trim_rows (Z.to_nat nearest_sqrt) proposed_columns proposed_rows
            (len images) with
    | Some rows => Some (rows, proposed_columns)
    | None => None
    end.

(** Lines 371 to 380. *)
Definition _establish_grid_size (images : list ndarray)
  (grid_size : option (option Z * option Z)) : result (Z * Z) :=
  match grid_size with
  | None | Some (None, None) =>
      match _negotiate_grid_size images with
      | Some g => Ok g
      | None => Raise FuelExhausted
      end
  | Some (None, Some columns) =>
      rows <- py_ceil_div (len images) columns ;; Ok (rows, columns)
  | Some (Some rows, None) =>
      columns <- py_ceil_div (len images) rows ;; Ok (rows, columns)
  | Some (Some rows, Some columns) => Ok (rows, columns)
  end.

(** *** Aspect-preserving resize and letterbox *)

(** Lines 619 to 626: the size handed to [cv2.resize], from the image's
    (height, width) and the desired (width, height). *)
Definition aspect_ratio_size (image_shape desired_size : Z * Z)
  : result (Z * Z) :=
  img_ratio <- py_truediv (snd image_shape) (fst image_shape) ;;
  desired_ratio <- py_truediv (fst desired_size) (snd desired_size) ;;
  if PrimFloat.leb desired_ratio img_ratio then
    let new_width := fst desired_size in
    q <- py_div_float (fst desired_size) img_ratio ;;
    new_height <- py_int q ;;
    Ok (new_width, new_height)
  else
    let new_height := snd desired_size in
    new_width <- py_int (py_mul_float (snd desired_size) img_ratio) ;;
    Ok (new_width, new_height).

(** Lines 590 to 627. *)
Definition resize_image_keeping_aspect_ratio `{Primitives} (image : ndarray)
  (desired_size : Z * Z) : result ndarray :=
  if (fst (shape image) =? snd desired_size)
     && (snd (shape image) =? fst desired_size)
  then Ok image
  else
    dsize <- aspect_ratio_size (shape image) desired_size ;;
    cv2_resize image dsize.

(** Lines 547 to 587. *)
Definition letterbox_image `{Primitives} (image : ndarray)
  (desired_size : Z * Z) (color : color_arg) : result ndarray :=
  let color := _color_to_bgr color in
  resized_img <- resize_image_keeping_aspect_ratio image desired_size ;;
  let '(new_height, new_width) := shape resized_img in
  let top_padding := (snd desired_size - new_height) / 2 in
  let bottom_padding := snd desired_size - new_height - top_padding in
  let left_padding := (fst desired_size - new_width) / 2 in
  let right_padding := fst desired_size - new_width - left_padding in
  cv2_copyMakeBorder resized_img top_padding bottom_padding left_padding
    right_padding color.

(** *** Titles *)

(** The literals [0.1] and [0.9] as binary64 values. *)
Definition float_0_1 : float := 0x1.999999999999ap-4%float.
Definition float_0_9 : float := 0x1.ccccccccccccdp-1%float.

(** Lines 497 to 501. *)
Definition default_anchor (image : ndarray) (default_title_placement : string)
  : Point :=
  let '(image_height, image_width) := shape image in
  if String.eqb default_title_placement "top"
  then {| x := PrimFloat.div (float_of_Z image_width) 2%float;
          y := py_mul_float image_height float_0_1 |}
  else {| x := PrimFloat.div (float_of_Z image_width) 2%float;
          y := py_mul_float image_height float_0_9 |}.

(** Lines 487 to 503. *)
Definition _prepare_default_titles_anchors (images : list ndarray)
  (titles_anchors : list (option Point)) (default_title_placement : string)
  : list Point :=
  map (fun p : ndarray * option Point =>
         match snd p with
         | Some anchor => anchor
         | None => default_anchor (fst p) default_title_placement
         end)
      (combine images titles_anchors).

(** Lines 443 to 484. *)
Definition _draw_texts `{Primitives} (images : list ndarray)
  (titles : option (list (option string)))
  (titles_anchors : list (option Point)) (titles_color : pixel)
  (titles_scale : option float) (titles_thickness titles_padding : Z)
  (titles_text_font : Z) (titles_background_color : pixel)
  (default_title_placement : string) : result (list ndarray) :=
  match titles with
  | None => Ok images
  | Some titles =>
      let titles_anchors :=
        _prepare_default_titles_anchors images titles_anchors
          default_title_placement in
      titles_scale <-
        match titles_scale with
        | Some s => Ok s
        | None =>
            match images with
            | [] => Raise IndexError
            | image0 :: _ =>
                let '(image_height, image_width) := shape image0 in
                Ok (calculate_optimal_text_scale (image_width, image_height))
            end
        end ;;
      Ok (map (fun p : ndarray * option string * Point =>
                 let '(image, text, anchor) := p in
                 match text with
                 | None => image
                 | Some text =>
                     draw_text {| text_color := titles_color;
                                  text_scale := titles_scale;
                                  text_thickness := titles_thickness;
                                  text_padding := titles_padding;
                                  text_font := titles_text_font;
                                  background_color := titles_background_color |}
                       image text anchor
                 end)
              (combine (combine images titles) titles_anchors))
  end.

(** *** Composition *)

(** [list(chain.from_iterable(zip(l, [sep] * k)))[:-1]]. *)
Definition interleave {A : Type} (l : list A) (sep : A) (k : Z) : list A :=
  removelast (flat_map (fun p => [fst p; snd p])
                       (combine l (repeat sep (Z.to_nat k)))).

(** Lines 506 to 538. *)
Definition _merge_tiles_elements (tiles_elements : list (list ndarray))
  (grid_size single_tile_size : Z * Z) (tile_margin : Z)
  (tile_margin_color : pixel) : result ndarray :=
  vertical_padding <-
    np_full (snd single_tile_size) tile_margin tile_margin_color ;;
  merged_rows <-
    mapM (fun row =>
            np_concatenate_axis1 (interleave row vertical_padding (snd grid_size)))
         tiles_elements ;;
  row_width <-
    match merged_rows with
    | [] => Raise IndexError
    | row0 :: _ => Ok (snd (shape row0))
    end ;;
  horizontal_padding <- np_full tile_margin row_width tile_margin_color ;;
  let rows_with_paddings :=
    flat_map (fun row => [row; horizontal_padding]) merged_rows in
  merged <- np_concatenate_axis0 (removelast rows_with_paddings) ;;
  Ok (astype_uint8 merged).

(** [while len(row) < columns: row.append(filler())], entered with
    [k = columns - len(row)] appends to go. *)
Fixpoint append_fillers (k : nat) (filler : result ndarray)
  (row : list ndarray) : result (list ndarray) :=
  match k with
  | O => Ok row
  | S k' => f <- filler ;; append_fillers k' filler (row ++ [f])
  end.

(** [while len(tiles_elements) < rows: tiles_elements.append([filler()] *
    columns)], entered with [k = rows - len(tiles_elements)]. *)
Fixpoint append_filler_rows (k : nat) (filler : result ndarray) (columns : Z)
  (tiles_elements : list (list ndarray)) : result (list (list ndarray)) :=
  match k with
  | O => Ok tiles_elements
  | S k' =>
      f <- filler ;;
      append_filler_rows k' filler columns
        (tiles_elements ++ [repeat f (Z.to_nat columns)])
  end.

(** Lines 394 to 440. *)
Definition _generate_tiles `{Primitives} (images : list ndarray)
  (grid_size single_tile_size : Z * Z) (tile_padding_color : pixel)
  (tile_margin : Z) (tile_margin_color : pixel)
  (titles : option (list (option string)))
  (titles_anchors : list (option Point)) (titles_color : pixel)
  (titles_scale : option float) (titles_thickness titles_padding : Z)
  (titles_text_font : Z) (titles_background_color : pixel)
  (default_title_placement : string) : result ndarray :=
  images <- _draw_texts images titles titles_anchors titles_color titles_scale
              titles_thickness titles_padding titles_text_font
              titles_background_color default_title_placement ;;
  let '(rows, columns) := grid_size in
  let tiles_elements := create_batches images columns in
  let filler := _generate_color_image single_tile_size tile_padding_color in
  tiles_elements <-
    match rev tiles_elements with
    | [] => Raise IndexError
    | last_row :: front =>
        last_row <-
          append_fillers (Z.to_nat (columns - len last_row)) filler last_row ;;
        Ok (rev front ++ [last_row])
    end ;;
  tiles_elements <-
    append_filler_rows (Z.to_nat (rows - len tiles_elements)) filler columns
      tiles_elements ;;
  _merge_tiles_elements tiles_elements grid_size single_tile_size tile_margin
    tile_margin_color.

(** *** [create_tiles] *)

(** The [titles_anchors] argument: absent, one point, or a list. *)
Inductive anchors_arg : Type :=
| AnchorsNone
| AnchorsPoint (p : Point)
| AnchorsList (l : list (option Point)).

(** The keyword arguments of [create_tiles]. *)
Record tiles_args : Type := mk_tiles_args {
  grid_size : option (option Z * option Z);
  single_tile_size : option (Z * Z);
  tile_scaling : string;
  tile_padding_color : color_arg;
  tile_margin : Z;
  tile_margin_color : color_arg;
  return_type : string;
  titles : option (list (option string));
  titles_anchors : anchors_arg;
  titles_color : color_arg;
  titles_scale : option float;
  titles_thickness : Z;
  titles_padding : Z;
  titles_text_font : Z;
  titles_background_color : color_arg;
  default_title_placement : string
}.

(** The defaults of the signature; [cv2.FONT_HERSHEY_SIMPLEX] is 0. *)
Definition default_args : tiles_args :=
  {| grid_size := None;
     single_tile_size := None;
     tile_scaling := "avg";
     tile_padding_color := ColorObj 217 217 217;
     tile_margin := 10;
     tile_margin_color := ColorObj 191 190 189;
     return_type := "auto";
     titles := None;
     titles_anchors := AnchorsNone;
     titles_color := ColorObj 38 37 35;
     titles_scale := None;
     titles_thickness := 1;
     titles_padding := 10;
     titles_text_font := 0;
     titles_background_color := ColorObj 217 217 217;
     default_title_placement := "top" |}.

(** Lines 306 to 313: a value that is not a list is wrapped in a
    one-element list, then the list is filled with [None]. *)
Definition titles_anchors_list (titles_anchors : anchors_arg) (n_images : Z)
  : list (option Point) :=
  let titles_anchors :=
    match titles_anchors with
    | AnchorsNone => [None]
    | AnchorsPoint p => [Some p]
    | AnchorsList l => l
    end in
  fill titles_anchors n_images None.

(** Lines 193 to 335. *)
Definition create_tiles `{Primitives} (images : list ImageType)
  (args : tiles_args) : result ImageType :=
  if len images =? 0 then Raise EmptyInputError
  else
    let return_type :=
      if String.eqb (return_type args) "auto"
      then _negotiate_tiles_format images
      else return_type args in
    let tile_padding_color := _color_to_bgr (tile_padding_color args) in
    let tile_margin_color := _color_to_bgr (tile_margin_color args) in
    let images := images_to_cv2 images in
    single_tile_size <-
      match single_tile_size args with
      | None => _aggregate_images_shape images (tile_scaling args)
      | Some s => Ok s
      end ;;
    resized_images <-
      mapM (fun i => letterbox_image i single_tile_size
                       (BgrTuple tile_padding_color)) images ;;
    grid_size <- _establish_grid_size images (grid_size args) ;;
    if fst grid_size * snd grid_size <? len images
    then Raise (GridCapacityError (len images) grid_size)
    else
      let titles :=
        option_map (fun t => fill t (len images) None) (titles args) in
      let titles_anchors :=
        titles_anchors_list (titles_anchors args) (len images) in
      let titles_color := _color_to_bgr (titles_color args) in
      let titles_background_color :=
        _color_to_bgr (titles_background_color args) in
      tiles <-
        _generate_tiles resized_images grid_size single_tile_size
          tile_padding_color (tile_margin args) tile_margin_color titles
          titles_anchors titles_color (titles_scale args)
          (titles_thickness args) (titles_padding args)
          (titles_text_font args) titles_background_color
          (default_title_placement args) ;;
      if String.eqb return_type "pillow"
      then Ok (cv2_to_pillow tiles)
      else Ok (NdArray tiles).

(** ** A concrete instance of the primitives

    Nearest-neighbour sampling for [cv2.resize], a renderer that leaves
    the scene as it is, and a constant text scale: enough to run the
    pipeline on concrete inputs. *)

Definition black : pixel := (0, 0, 0).

(** Nearest-neighbour sampling. *)
Definition nearest_pixel (image : ndarray) (new_height new_width i j : nat)
  : pixel :=
  nth (j * ncols image / new_width)
      (nth (i * nrows image / new_height) (nd_rows image) []) black.

(** A renderer that draws nothing. *)
Definition scene_pixel (st : text_style) (scene : ndarray) (text : string)
  (anchor : Point) (i j : nat) : pixel :=
  nth j (nth i (nd_rows scene) []) black.

#[export] Instance sample_primitives : Primitives :=
  {| resample := nearest_pixel;
     text_pixel := scene_pixel;
     calculate_optimal_text_scale := fun _ => 1%float |}.

(** A raster of one colour, [h] rows by [w] columns. *)
Definition solid (h w : nat) (c : pixel) : ndarray :=
  {| ncols := w; nd_rows := repeat (repeat c w) h |}.

(** ** Vocabulary of the statements *)

(** [rows[i][j]]. *)
Definition rows_at (rows : list (list pixel)) (i j : nat) : option pixel :=
  match nth_error rows i with
  | Some r => nth_error r j
  | None => None
  end.

(** The rows of [R] with the window [sy:ey, sx:ex] overwritten by the
    window of [IR] that starts at [(csy, csx)]. *)
Definition overwrite (R IR : list (list pixel)) (sy ey sx ex csy csx : nat)
  : list (list pixel) :=
  firstn sy R
  ++ map (fun p => firstn sx (fst p) ++ snd p ++ skipn ex (fst p))
       (combine (firstn (ey - sy) (skipn sy R))
          (map (fun r => firstn (ex - sx) (skipn csx r))
             (firstn (ey - sy) (skipn csy IR))))
  ++ skipn ey R.

(** The image, anchored at [(ax, ay)], lies entirely outside the scene. *)
Definition outside (scene image : ndarray) (ax ay : Z) : Prop :=
  ax + snd (shape image) <= 0 \/ snd (shape scene) <= ax
  \/ ay + fst (shape image) <= 0 \/ fst (shape scene) <= ay.

(** The image, anchored at [(ax, ay)], covers the scene pixel [(y, x)]. *)
Definition covers (image : ndarray) (ax ay y x : Z) : bool :=
  (ay <=? y) && (y <? ay + fst (shape image))
  && (ax <=? x) && (x <? ax + snd (shape image)).

(** A raster with [h] rows and [w] columns that satisfies the buffer
    invariant. *)
Definition sized (h w : nat) (a : ndarray) : Prop :=
  nrows a = h /\ ncols a = w /\ well_shaped a.

(** [sep; a] for every [a] of [l]: what follows the first element once
    [sep] is put between the elements. *)
Definition sep_before {A : Type} (sep : A) (l : list A) : list A :=
  flat_map (fun a => [sep; a]) l.

(** The exceptions the composer can raise. *)
Definition composer_error (e : exn) : bool :=
  match e with
  | IndexError | NumpyValueError => true
  | _ => false
  end.

(** [r] raises nothing but exceptions that satisfy [P]. *)
Definition raises_only (P : exn -> bool) {A : Type} (r : result A) : Prop :=
  forall e, r = Raise e -> P e = true.

(** The default arguments with a grid, a tile size and a scaling mode. *)
Definition example_args (grid : option (option Z * option Z))
  (size : option (Z * Z)) (mode : string) : tiles_args :=
  {| grid_size := grid;
     single_tile_size := size;
     tile_scaling := mode;
     tile_padding_color := ColorObj 217 217 217;
     tile_margin := 10;
     tile_margin_color := ColorObj 191 190 189;
     return_type := "auto";
     titles := None;
     titles_anchors := AnchorsNone;
     titles_color := ColorObj 38 37 35;
     titles_scale := None;
     titles_thickness := 1;
     titles_padding := 10;
     titles_text_font := 0;
     titles_background_color := ColorObj 217 217 217;
     default_title_placement := "top" |}.

(** The tile size [create_tiles] works with: the explicit one, or the
    aggregate of the input shapes. *)
Definition resolved_tile_size (images : list ImageType) (args : tiles_args)
  : result (Z * Z) :=
  match single_tile_size args with
  | None => _aggregate_images_shape (images_to_cv2 images) (tile_scaling args)
  | Some s => Ok s
  end.

(** The letterboxed tiles of [create_tiles] for a tile size. *)
Definition letterboxed_tiles `{Primitives} (images : list ImageType)
  (args : tiles_args) (size : Z * Z) : result (list ndarray) :=
  mapM (fun i => letterbox_image i size
                   (BgrTuple (_color_to_bgr (tile_padding_color args))))
       (images_to_cv2 images).

(** The sum of a list. *)
Definition Zsum (l : list Z) : Z := fold_right Z.add 0 l.

(** [m] is the least element of [l]. *)
Definition is_minimum (m : Z) (l : list Z) : Prop :=
  In m l /\ forall v, In v l -> m <= v.

(** [m] is the greatest element of [l]. *)
Definition is_maximum (m : Z) (l : list Z) : Prop :=
  In m l /\ forall v, In v l -> v <= m.

(** [m] is an integer nearest to the mean of [l]. *)
Definition is_nearest_to_mean (m : Z) (l : list Z) : Prop :=
  2 * Z.abs (m * len l - Zsum l) <= len l.

(** [args] with [single_tile_size] set to [size]. *)
Definition set_single_tile_size (size : Z * Z) (args : tiles_args) : tiles_args :=
  {| grid_size := grid_size args;
     single_tile_size := Some size;
     tile_scaling := tile_scaling args;
     tile_padding_color := tile_padding_color args;
     tile_margin := tile_margin args;
     tile_margin_color := tile_margin_color args;
     return_type := return_type args;
     titles := titles args;
     titles_anchors := titles_anchors args;
     titles_color := titles_color args;
     titles_scale := titles_scale args;
     titles_thickness := titles_thickness args;
     titles_padding := titles_padding args;
     titles_text_font := titles_text_font args;
     titles_background_color := titles_background_color args;
     default_title_placement := default_title_placement args |}.

(** Row [i] of a raster (empty when out of range). *)
Definition row_of (i : nat) (a : ndarray) : list pixel := nth i (nd_rows a) [].

(** A raster of one colour. *)
Definition uniform (color : pixel) (a : ndarray) : Prop :=
  nd_rows a = repeat (repeat color (ncols a)) (nrows a).

(** [b] is the tiles of [row] side by side with a strip of [m] columns
    of [color] between neighbours. *)
Definition joined_row (h w m : nat) (color : pixel) (row : list ndarray)
  (b : ndarray) : Prop :=
  sized h (w + (length row - 1) * (m + w)) b
  /\ forall i j dflt,
       (i < h)%nat -> (j < w + (length row - 1) * (m + w))%nat ->
       rows_at (nd_rows b) i j
       = if (j mod (w + m) <? w)%nat
         then rows_at (nd_rows (nth (j / (w + m)) row dflt)) i (j mod (w + m))
         else Some color.

(** The anchor the code gives tile [i]. *)
Definition anchor_of_tile (titles_anchors : anchors_arg) (i : nat)
  (image : ndarray) (default_title_placement : string) : Point :=
  match titles_anchors with
  | AnchorsNone => default_anchor image default_title_placement
  | AnchorsPoint p =>
      match i with
      | O => p
      | S _ => default_anchor image default_title_placement
      end
  | AnchorsList l =>
      match nth_error l i with
      | Some (Some p) => p
      | _ => default_anchor image default_title_placement
      end
  end.

(** The exceptions the letterbox can raise. *)
Definition letterbox_error (e : exn) : bool :=
  match e with
  | ZeroDivisionError | OverflowError | Cv2Error => true
  | _ => false
  end.

(** The raster an image holds. *)
Definition raster_of (i : ImageType) : ndarray :=
  match i with
  | NdArray a => a
  | PilImage a => a
  end.

(** [args] with [titles] set to [ts]. *)
Definition set_titles (ts : option (list (option string))) (args : tiles_args)
  : tiles_args :=
  {| grid_size := grid_size args;
     single_tile_size := single_tile_size args;
     tile_scaling := tile_scaling args;
     tile_padding_color := tile_padding_color args;
     tile_margin := tile_margin args;
     tile_margin_color := tile_margin_color args;
     return_type := return_type args;
     titles := ts;
     titles_anchors := titles_anchors args;
     titles_color := titles_color args;
     titles_scale := titles_scale args;
     titles_thickness := titles_thickness args;
     titles_padding := titles_padding args;
     titles_text_font := titles_text_font args;
     titles_background_color := titles_background_color args;
     default_title_placement := default_title_placement args |}.

(** The number of PIL images of a list. *)
Definition number_of_pil_images (images : list ImageType) : Z :=
  len (filter (fun i => negb (is_ndarray i)) images).

(** A run of [save_image] calls on a sink, each with its image and its
    [image_name] argument: the sink after the last call and what was
    done to the file system. *)
Fixpoint save_images `{Formatter} (self : ImageSink.t)
  (calls : list (ndarray * option string)) : ImageSink.t * list fs_event :=
  match calls with
  | [] => (self, [])
  | (image, image_name) :: rest =>
      let '(self, first) := ImageSink.save_image self image image_name in
      let '(self, others) := save_images self rest in
      (self, first ++ others)
  end.

(** The path call number [i] of a run writes to, for a sink that starts
    the run with the counter [count]. *)
Definition written_path `{Formatter} (self : ImageSink.t) (count : Z)
  (i : nat) (image_name : option string) : string :=
  os_path_join (ImageSink.target_dir_path self)
    match image_name with
    | None => str_format (ImageSink.image_name_pattern self)
                (count + Z.of_nat i)
    | Some name => name
    end.

(** A whole [with ImageSink(...) as sink:] block whose body is a run of
    [save_image] calls: what is done to the file system. *)
Definition with_image_sink `{Formatter} (target_dir_path : string)
  (overwrite : bool) (image_name_pattern : string) (path_exists : bool)
  (calls : list (ndarray * option string)) : list fs_event :=
  let sink :=
    ImageSink.__init__ target_dir_path overwrite image_name_pattern in
  let '(sink, entered) := ImageSink.__enter__ sink path_exists in
  let '(sink, saved) := save_images sink calls in
  let '(_, exited) := ImageSink.__exit__ sink in
  entered ++ saved ++ exited.

(** The event writes an image. *)
Definition is_imwrite (e : fs_event) : bool :=
  match e with
  | Imwrite _ _ => true
  | _ => false
  end.

(** * Properties *)

(** ** Output format *)

Lemma negotiate_tiles_format_cv2 (images : list ImageType) :
  _negotiate_tiles_format images = "cv2"
  <-> len images / 2 <= len (filter is_ndarray images).
Proof.
  unfold _negotiate_tiles_format.
  destruct (Z.leb_spec (len images / 2) (len (filter is_ndarray images)));
    split; intros Hc; try lia; try reflexivity; discriminate.
Qed.

(** C1, at the input where the code leaves the majority rule: a list of
    one PIL image holds no numpy array, so no majority and no tie
    ([2 * 0 < 1]), and yet the negotiated format is "cv2", because the
    count is compared with [len(images) // 2 = 0]. *)
Theorem negotiate_tiles_format_single_pil (a : ndarray) :
  _negotiate_tiles_format [PilImage a] = "cv2"
  /\ 2 * len (filter is_ndarray [PilImage a]) < len [PilImage a].
Proof.
  split; [reflexivity | cbn; lia].
Qed.

(** ** Grid size *)

Lemma ceil_sqrt_spec (n : Z) :
  1 <= n ->
  1 <= ceil_sqrt n /\ (ceil_sqrt n - 1) * (ceil_sqrt n - 1) < n
  /\ n <= ceil_sqrt n * ceil_sqrt n.
Proof.
  intros Hn. unfold ceil_sqrt.
  pose proof (Z.sqrt_spec n ltac:(lia)) as [Hlo Hhi].
  pose proof (Z.sqrt_nonneg n) as Hs.
  assert (0 < Z.sqrt n) by (apply Z.sqrt_pos; lia).
  destruct (Z.eqb_spec (Z.sqrt n * Z.sqrt n) n) as [Heq | Hne]; nia.
Qed.

(** The binary64 computation of [math.ceil(np.sqrt(n))] agrees with the
    exact ceiling of the square root on every list length up to 4096. *)
Example ceil_sqrt_float_agrees :
  forallb (fun n => ceil_sqrt_float (Z.of_nat n) =? ceil_sqrt (Z.of_nat n))
          (seq 1 4096) = true.
Proof.
  vm_compute; reflexivity.
Qed.

Lemma trim_rows_spec (fuel : nat) (c n : Z) :
  0 < c -> 0 < n ->
  forall r, 1 <= r -> r <= Z.of_nat fuel + 1 -> n <= r * c ->
  exists r', trim_rows fuel c r n = Some r'
             /\ 1 <= r' /\ n <= r' * c /\ c * (r' - 1) < n.
Proof.
  intros Hc Hn. induction fuel as [| fuel IH]; intros r Hr Hfuel Hfit; simpl.
  - destruct (Z.leb_spec n (c * (r - 1))) as [Hle | Hgt].
    + exfalso; nia.
    + exists r; repeat split; lia.
  - destruct (Z.leb_spec n (c * (r - 1))) as [Hle | Hgt].
    + apply IH; nia.
    + exists r; repeat split; lia.
Qed.

(** C2. Automatic grid planning: one row of [n] columns up to three
    images; beyond, [columns] is the ceiling of the square root of [n]
    and [rows] is the one row count [>= 1] with [rows * columns >= n] and
    [columns * (rows - 1) < n]. *)
Theorem negotiate_grid_size_spec (images : list ndarray) :
  exists rows columns,
    _negotiate_grid_size images = Some (rows, columns)
    /\ (1 <= len images <= 3 -> rows = 1 /\ columns = len images)
    /\ (3 < len images ->
        columns = ceil_sqrt (len images)
        /\ (columns - 1) * (columns - 1) < len images <= columns * columns
        /\ 1 <= rows
        /\ len images <= rows * columns
        /\ columns * (rows - 1) < len images
        /\ forall r, 1 <= r -> len images <= r * columns ->
                     columns * (r - 1) < len images -> r = rows).
Proof.
  unfold _negotiate_grid_size, MAX_COLUMNS_FOR_SINGLE_ROW_GRID.
  destruct (Z.leb_spec (len images) 3) as [Hle | Hgt].
  - exists 1, (len images); repeat split; lia.
  - destruct (ceil_sqrt_spec (n := len images) ltac:(lia)) as (Hs1 & Hs2 & Hs3).
    destruct (@trim_rows_spec (Z.to_nat (ceil_sqrt (len images)))
                (ceil_sqrt (len images)) (len images) ltac:(lia) ltac:(lia)
                (ceil_sqrt (len images)) ltac:(lia) ltac:(lia) ltac:(lia))
      as (r' & Htrim & Hr1 & Hr2 & Hr3).
    rewrite Htrim. exists r', (ceil_sqrt (len images)).
    split; [reflexivity |]. split; [lia |].
    intros _. repeat split; try lia.
    intros r Hr Hfit Hmin. nia.
Qed.

(** ** Slices and [place_image] *)

Lemma pixel_at_rows_at (a : ndarray) (i j : nat) :
  pixel_at a (Z.of_nat i) (Z.of_nat j) = rows_at (nd_rows a) i j.
Proof.
  unfold pixel_at, rows_at.
  destruct (Z.ltb_spec (Z.of_nat i) 0); [lia |].
  destruct (Z.ltb_spec (Z.of_nat j) 0); [lia |].
  rewrite !Nat2Z.id. reflexivity.
Qed.

Lemma slice_index_id (n i : Z) : 0 <= i <= n -> slice_index n i = i.
Proof.
  intros Hi. unfold slice_index.
  destruct (Z.ltb_spec i 0); lia.
Qed.

Lemma Forall_firstn (A : Type) (P : A -> Prop) (n : nat) (l : list A) :
  Forall P l -> Forall P (firstn n l).
Proof.
  intros Hl; revert n; induction Hl; intros [| n]; simpl; constructor; auto.
Qed.

Lemma Forall_skipn (A : Type) (P : A -> Prop) (n : nat) (l : list A) :
  Forall P l -> Forall P (skipn n l).
Proof.
  intros Hl; revert n; induction Hl; intros [| n]; simpl; auto.
Qed.

Lemma Forall_nth_error (A : Type) (P : A -> Prop) (l : list A) (i : nat) (a : A) :
  Forall P l -> nth_error l i = Some a -> P a.
Proof.
  intros Hl Hi. rewrite Forall_forall in Hl. eapply Hl, nth_error_In, Hi.
Qed.

Lemma nth_error_splice (A : Type) (l b : list A) (s e i : nat) :
  (s <= e)%nat -> (e <= length l)%nat -> length b = (e - s)%nat ->
  nth_error (firstn s l ++ b ++ skipn e l) i
  = if (i <? s)%nat then nth_error l i
    else if (i <? e)%nat then nth_error b (i - s) else nth_error l i.
Proof.
  intros Hse Hel Hb.
  rewrite nth_error_app, length_firstn, Nat.min_l by lia.
  destruct (Nat.ltb_spec i s) as [His | His].
  - rewrite nth_error_firstn.
    destruct (Nat.ltb_spec i s); [reflexivity | lia].
  - rewrite nth_error_app, Hb.
    destruct (Nat.ltb_spec (i - s) (e - s)), (Nat.ltb_spec i e); try lia.
    + reflexivity.
    + rewrite nth_error_skipn. f_equal. lia.
Qed.

Lemma nth_error_map_combine (A B C : Type) (f : A * B -> C) (l : list A)
  (l' : list B) (k : nat) :
  nth_error (map f (combine l l')) k
  = match nth_error l k, nth_error l' k with
    | Some a, Some b => Some (f (a, b))
    | _, _ => None
    end.
Proof.
  revert l' k; induction l as [| a l IH]; intros [| b l'] [| k]; simpl;
    try reflexivity.
  - destruct (nth_error l k); reflexivity.
  - apply IH.
Qed.

Section Overwrite.
Variables (R IR : list (list pixel)) (W w sy ey sx ex csy csx : nat).
Hypothesis HR : Forall (fun r => length r = W) R.
Hypothesis HIR : Forall (fun r => length r = w) IR.
Hypothesis Hy : (sy <= ey <= length R)%nat.
Hypothesis Hx : (sx <= ex <= W)%nat.
Hypothesis Hcy : (csy + (ey - sy) <= length IR)%nat.
Hypothesis Hcx : (csx + (ex - sx) <= w)%nat.

Lemma overwrite_middle (k : nat) :
  (k < ey - sy)%nat ->
  exists r ir,
    nth_error R (sy + k) = Some r /\ length r = W
    /\ nth_error IR (csy + k) = Some ir /\ length ir = w
    /\ nth_error
         (map (fun p => firstn sx (fst p) ++ snd p ++ skipn ex (fst p))
            (combine (firstn (ey - sy) (skipn sy R))
               (map (fun r => firstn (ex - sx) (skipn csx r))
                  (firstn (ey - sy) (skipn csy IR))))) k
       = Some (firstn sx r ++ firstn (ex - sx) (skipn csx ir) ++ skipn ex r).
Proof.
  intros Hk.
  destruct (nth_error R (sy + k)) as [r |] eqn:Hr.
  2:{ apply nth_error_None in Hr. lia. }
  destruct (nth_error IR (csy + k)) as [ir |] eqn:Hir.
  2:{ apply nth_error_None in Hir. lia. }
  exists r, ir. repeat split.
  - eapply Forall_nth_error in HR; eauto.
  - eapply Forall_nth_error in HIR; eauto.
  - rewrite nth_error_map_combine, nth_error_map, !nth_error_firstn,
      !nth_error_skipn, Hr, Hir.
    destruct (Nat.ltb_spec k (ey - sy)); [reflexivity | lia].
Qed.

Lemma overwrite_length :
  length (overwrite R IR sy ey sx ex csy csx) = length R.
Proof.
  unfold overwrite.
  rewrite !length_app, length_map, length_combine, length_map,
    !length_firstn, !length_skipn. lia.
Qed.

Lemma overwrite_well_shaped :
  Forall (fun r => length r = W) (overwrite R IR sy ey sx ex csy csx).
Proof.
  unfold overwrite.
  apply Forall_app; split; [apply Forall_firstn, HR |].
  apply Forall_app; split; [| apply Forall_skipn, HR].
  apply Forall_forall. intros row Hrow.
  apply In_nth_error in Hrow as [k Hk].
  assert (Hklt : (k < ey - sy)%nat).
  { assert (Hlt : (k < length
             (map (fun p : list pixel * list pixel =>
                     firstn sx (fst p) ++ snd p ++ skipn ex (fst p))
                (combine (firstn (ey - sy) (skipn sy R))
                   (map (fun r => firstn (ex - sx) (skipn csx r))
                      (firstn (ey - sy) (skipn csy IR))))))%nat)
      by (apply nth_error_Some; congruence).
    rewrite length_map, length_combine, length_map, !length_firstn,
      !length_skipn in Hlt. lia. }
  destruct (overwrite_middle Hklt) as (r & ir & _ & Hlr & _ & Hlir & HMk).
  rewrite HMk in Hk. injection Hk as <-.
  rewrite !length_app, !length_firstn, !length_skipn, Hlr, Hlir. lia.
Qed.

Lemma overwrite_rows_at (i j : nat) :
  (i < length R)%nat -> (j < W)%nat ->
  rows_at (overwrite R IR sy ey sx ex csy csx) i j
  = if (sy <=? i)%nat && (i <? ey)%nat && (sx <=? j)%nat && (j <? ex)%nat
    then rows_at IR (csy + (i - sy)) (csx + (j - sx))
    else rows_at R i j.
Proof.
  intros Hi Hj. unfold rows_at, overwrite.
  rewrite nth_error_splice
    by (rewrite ?length_map, ?length_combine, ?length_map, ?length_firstn,
          ?length_skipn; lia).
  destruct (Nat.ltb_spec i sy) as [Hi1 | Hi1].
  { destruct (Nat.leb_spec sy i); [lia | reflexivity]. }
  destruct (Nat.leb_spec sy i); [| lia].
  destruct (Nat.ltb_spec i ey) as [Hi2 | Hi2]; [| reflexivity].
  destruct (@overwrite_middle (i - sy)%nat ltac:(lia))
    as (r & ir & Hr & Hlr & Hir & Hlir & HMk).
  rewrite HMk, Hir.
  replace (sy + (i - sy))%nat with i in Hr by lia. rewrite Hr.
  rewrite nth_error_splice
    by (rewrite ?length_firstn, ?length_skipn; lia).
  destruct (Nat.ltb_spec j sx) as [Hj1 | Hj1].
  { destruct (Nat.leb_spec sx j); [lia | reflexivity]. }
  destruct (Nat.leb_spec sx j); [| lia].
  destruct (Nat.ltb_spec j ex) as [Hj2 | Hj2]; [| reflexivity].
  cbn [andb]. rewrite nth_error_firstn, nth_error_skipn.
  destruct (Nat.ltb_spec (j - sx) (ex - sx)); [reflexivity | lia].
Qed.
End Overwrite.

Lemma py_slice_inside (A : Type) (l : list A) (s e : Z) :
  0 <= s <= e -> e <= len l ->
  py_slice l s e = firstn (Z.to_nat (e - s)) (skipn (Z.to_nat s) l).
Proof.
  intros Hs He. unfold py_slice.
  rewrite !slice_index_id by lia. reflexivity.
Qed.

Lemma getslice_rows (image : ndarray) (y1 y2 x1 x2 : Z) :
  well_shaped image ->
  0 <= y1 <= y2 -> y2 <= Z.of_nat (nrows image) ->
  0 <= x1 <= x2 -> x2 <= Z.of_nat (ncols image) ->
  nd_rows (np_getslice image y1 y2 x1 x2)
  = map (fun r => firstn (Z.to_nat (x2 - x1)) (skipn (Z.to_nat x1) r))
      (firstn (Z.to_nat (y2 - y1)) (skipn (Z.to_nat y1) (nd_rows image))).
Proof.
  intros Hws Hy1 Hy2 Hx1 Hx2. unfold np_getslice; cbn [nd_rows].
  rewrite py_slice_inside by (unfold len; fold (nrows image); lia).
  apply map_ext_in. intros r Hr.
  apply py_slice_inside; [lia |].
  assert (Hlen : length r = ncols image).
  { assert (Hall : Forall (fun r => length r = ncols image)
                      (firstn (Z.to_nat (y2 - y1))
                         (skipn (Z.to_nat y1) (nd_rows image))))
      by apply Forall_firstn, Forall_skipn, Hws.
    rewrite Forall_forall in Hall. apply Hall, Hr. }
  unfold len. rewrite Hlen. lia.
Qed.

Lemma getslice_shape (image : ndarray) (y1 y2 x1 x2 : Z) :
  0 <= y1 <= y2 -> y2 <= Z.of_nat (nrows image) ->
  0 <= x1 <= x2 -> x2 <= Z.of_nat (ncols image) ->
  shape (np_getslice image y1 y2 x1 x2) = (y2 - y1, x2 - x1).
Proof.
  intros Hy1 Hy2 Hx1 Hx2. unfold shape, nrows, np_getslice; cbn [nd_rows ncols].
  rewrite length_map, py_slice_inside by (unfold len; fold (nrows image); lia).
  rewrite length_firstn, length_skipn, !slice_index_id by lia.
  fold (nrows image). f_equal; lia.
Qed.

Lemma place_image_out (scene image : ndarray) (ax ay : Z) :
  outside scene image ax ay -> place_image scene image (ax, ay) = Ok scene.
Proof.
  unfold outside, place_image, shape; simpl. intros Hout.
  destruct (Z.leb_spec (ax + Z.of_nat (ncols image)) 0);
  destruct (Z.leb_spec (Z.of_nat (ncols scene)) ax);
  destruct (Z.leb_spec (ay + Z.of_nat (nrows image)) 0);
  destruct (Z.leb_spec (Z.of_nat (nrows scene)) ay); simpl; try reflexivity; lia.
Qed.

Lemma setslice_overwrite (scene b : ndarray) (sy ey sx ex : nat) :
  (sy <= ey <= nrows scene)%nat -> (sx <= ex <= ncols scene)%nat ->
  shape b = (Z.of_nat ey - Z.of_nat sy, Z.of_nat ex - Z.of_nat sx) ->
  np_setslice scene (Z.of_nat sy) (Z.of_nat ey) (Z.of_nat sx) (Z.of_nat ex) b
  = Ok {| ncols := ncols scene;
          nd_rows :=
            firstn sy (nd_rows scene)
            ++ map (fun p => firstn sx (fst p) ++ snd p ++ skipn ex (fst p))
                 (combine (firstn (ey - sy) (skipn sy (nd_rows scene)))
                    (nd_rows b))
            ++ skipn ey (nd_rows scene) |}.
Proof.
  intros Hy Hx Hb. unfold np_setslice.
  rewrite !slice_index_id by lia.
  rewrite !Z.max_r by lia.
  unfold shape in Hb. injection Hb as Hbr Hbc.
  rewrite Hbr, Hbc, !Z.eqb_refl. cbn [andb].
  rewrite <- !Nat2Z.inj_sub, !Nat2Z.id by lia. reflexivity.
Qed.

Lemma place_image_in (scene image : ndarray) (ax ay : Z) :
  well_shaped image ->
  ~ outside scene image ax ay ->
  exists sy ey sx ex csy csx : nat,
    Z.of_nat sy = Z.max ay 0
    /\ Z.of_nat ey = Z.min (Z.of_nat (nrows scene)) (ay + Z.of_nat (nrows image))
    /\ Z.of_nat sx = Z.max ax 0
    /\ Z.of_nat ex = Z.min (Z.of_nat (ncols scene)) (ax + Z.of_nat (ncols image))
    /\ Z.of_nat csy = Z.max (- ay) 0
    /\ Z.of_nat csx = Z.max (- ax) 0
    /\ place_image scene image (ax, ay)
       = Ok {| ncols := ncols scene;
               nd_rows := overwrite (nd_rows scene) (nd_rows image)
                            sy ey sx ex csy csx |}.
Proof.
  intros Himage Hin. unfold outside, shape in Hin; cbn [fst snd] in Hin.
  exists (Z.to_nat (Z.max ay 0)),
    (Z.to_nat (Z.min (Z.of_nat (nrows scene)) (ay + Z.of_nat (nrows image)))),
    (Z.to_nat (Z.max ax 0)),
    (Z.to_nat (Z.min (Z.of_nat (ncols scene)) (ax + Z.of_nat (ncols image)))),
    (Z.to_nat (Z.max (- ay) 0)), (Z.to_nat (Z.max (- ax) 0)).
  repeat (split; [lia |]).
  unfold place_image, shape.
  destruct (Z.leb_spec (ax + Z.of_nat (ncols image)) 0) as [? | _]; [lia |].
  destruct (Z.leb_spec (Z.of_nat (ncols scene)) ax) as [? | _]; [lia |].
  destruct (Z.leb_spec (ay + Z.of_nat (nrows image)) 0) as [? | _]; [lia |].
  destruct (Z.leb_spec (Z.of_nat (nrows scene)) ay) as [? | _]; [lia |].
  cbn [orb].
  set (hS := nrows scene) in *. set (wS := ncols scene) in *.
  set (hI := nrows image) in *. set (wI := ncols image) in *.
  set (sy := Z.max ay 0). set (sx := Z.max ax 0).
  set (ey := Z.min (Z.of_nat hS) (ay + Z.of_nat hI)).
  set (ex := Z.min (Z.of_nat wS) (ax + Z.of_nat wI)).
  set (csy := Z.max (- ay) 0). set (csx := Z.max (- ax) 0).
  set (cey := Z.of_nat hI - Z.max (ay + Z.of_nat hI - Z.of_nat hS) 0).
  set (cex := Z.of_nat wI - Z.max (ax + Z.of_nat wI - Z.of_nat wS) 0).
  assert (Hby : 0 <= sy <= ey /\ ey <= Z.of_nat hS) by lia.
  assert (Hbx : 0 <= sx <= ex /\ ex <= Z.of_nat wS) by lia.
  assert (Hcy : 0 <= csy <= cey /\ cey <= Z.of_nat hI) by lia.
  assert (Hcx : 0 <= csx <= cex /\ cex <= Z.of_nat wI) by lia.
  assert (Hey : cey - csy = ey - sy) by lia.
  assert (Hex : cex - csx = ex - sx) by lia.
  clearbody sy sx ey ex csy csx cey cex.
  rewrite <- (Z2Nat.id sy), <- (Z2Nat.id ey), <- (Z2Nat.id sx), <- (Z2Nat.id ex)
    at 1 by lia.
  rewrite setslice_overwrite.
  - rewrite getslice_rows by (try exact Himage; fold hI wI; lia).
    unfold overwrite. rewrite Hey, Hex.
    rewrite !Z2Nat.inj_sub by lia. reflexivity.
  - fold hS. lia.
  - fold wS. lia.
  - rewrite getslice_shape by (fold hI wI; lia).
    rewrite !Z2Nat.id by lia. f_equal; lia.
Qed.

Lemma leb_clamp_low (a v : Z) (s : nat) :
  Z.of_nat s = Z.max a 0 -> 0 <= v -> (a <=? v) = (s <=? Z.to_nat v)%nat.
Proof.
  intros Hs Hv. apply eq_true_iff_eq. rewrite Z.leb_le, Nat.leb_le. lia.
Qed.

Lemma ltb_clamp_high (a bound v : Z) (e : nat) :
  Z.of_nat e = Z.min bound a -> 0 <= v < bound ->
  (v <? a) = (Z.to_nat v <? e)%nat.
Proof.
  intros He Hv. apply eq_true_iff_eq. rewrite Z.ltb_lt, Nat.ltb_lt. lia.
Qed.

Lemma crop_offset (a v : Z) (s cs : nat) :
  Z.of_nat s = Z.max a 0 -> Z.of_nat cs = Z.max (- a) 0 ->
  0 <= v -> (s <= Z.to_nat v)%nat ->
  v - a = Z.of_nat (cs + (Z.to_nat v - s)).
Proof.
  lia.
Qed.

(** C10. [place_image] leaves the scene as it is when the image lies
    entirely outside it; otherwise the scene keeps its shape, every scene
    pixel the image covers takes the image pixel that lands on it, and
    every other scene pixel is unchanged. *)
Theorem place_image_spec (scene image : ndarray) (ax ay : Z) :
  well_shaped scene -> well_shaped image ->
  exists scene',
    place_image scene image (ax, ay) = Ok scene'
    /\ shape scene' = shape scene
    /\ well_shaped scene'
    /\ (outside scene image ax ay -> scene' = scene)
    /\ forall y x, 0 <= y < fst (shape scene) -> 0 <= x < snd (shape scene) ->
         pixel_at scene' y x
         = if covers image ax ay y x
           then pixel_at image (y - ay) (x - ax)
           else pixel_at scene y x.
Proof.
  intros Hscene Himage.
  assert (Hdec : outside scene image ax ay \/ ~ outside scene image ax ay)
    by (unfold outside; lia).
  destruct Hdec as [Hout | Hin].
  - exists scene. rewrite place_image_out by exact Hout.
    repeat split; auto.
    intros y x Hy Hx.
    replace (covers image ax ay y x) with false; [reflexivity |].
    symmetry. apply not_true_is_false. unfold covers.
    rewrite !andb_true_iff, !Z.leb_le, !Z.ltb_lt.
    unfold outside in Hout. lia.
  - destruct (place_image_in (scene := scene) (ax := ax) (ay := ay) Himage Hin)
      as (sy & ey & sx & ex & csy & csx & Hsy & Hey & Hsx & Hex & Hcsy & Hcsx & Hplace).
    rewrite Hplace. eexists. split; [reflexivity |].
    unfold outside, shape in Hin; cbn [fst snd] in Hin.
    assert (Hy : (sy <= ey <= length (nd_rows scene))%nat)
      by (fold (nrows scene); lia).
    assert (Hx : (sx <= ex <= ncols scene)%nat) by lia.
    assert (Hcy : (csy + (ey - sy) <= length (nd_rows image))%nat)
      by (fold (nrows image); lia).
    assert (Hcx : (csx + (ex - sx) <= ncols image)%nat) by lia.
    split; [| split; [| split]].
    + unfold shape, nrows; cbn [nd_rows ncols].
      rewrite (overwrite_length _ _ csy csx Hy Hx Hcy Hcx). reflexivity.
    + unfold well_shaped; cbn [nd_rows ncols].
      exact (overwrite_well_shaped csy csx Hscene Himage Hy Hx Hcy Hcx).
    + intros Hout. exfalso. unfold outside, shape in Hout; cbn [fst snd] in Hout.
      lia.
    + intros y x Hyb Hxb. unfold shape in Hyb, Hxb; cbn [fst snd] in Hyb, Hxb.
      rewrite <- (Z2Nat.id y), <- (Z2Nat.id x) at 1 by lia.
      rewrite pixel_at_rows_at; cbn [nd_rows].
      rewrite (overwrite_rows_at csy csx Hscene Himage Hy Hx Hcy Hcx)
        by (try fold (nrows scene); lia).
      unfold covers, shape; cbn [fst snd].
      rewrite (@leb_clamp_low ay y sy Hsy) by lia.
      rewrite (@ltb_clamp_high _ _ y ey Hey) by lia.
      rewrite (@leb_clamp_low ax x sx Hsx) by lia.
      rewrite (@ltb_clamp_high _ _ x ex Hex) by lia.
      destruct ((sy <=? Z.to_nat y)%nat && (Z.to_nat y <? ey)%nat
                && (sx <=? Z.to_nat x)%nat && (Z.to_nat x <? ex)%nat) eqn:Hc.
      * rewrite !andb_true_iff, !Nat.leb_le, !Nat.ltb_lt in Hc.
        rewrite (@crop_offset ay y sy csy Hsy Hcsy) by lia.
        rewrite (@crop_offset ax x sx csx Hsx Hcsx) by lia.
        rewrite pixel_at_rows_at. reflexivity.
      * rewrite <- (Z2Nat.id y), <- (Z2Nat.id x) at 2 by lia.
        rewrite pixel_at_rows_at. reflexivity.
Qed.

Lemma solid_well_shaped (h w : nat) (c : pixel) : well_shaped (solid h w c).
Proof.
  unfold well_shaped, solid; cbn [nd_rows ncols].
  apply Forall_forall. intros r Hr. apply repeat_spec in Hr. subst r.
  apply repeat_length.
Qed.

Lemma place_image_spec_witness :
  exists scene',
    place_image (solid 3 4 black) (solid 2 2 (1, 1, 1)) (3, -1) = Ok scene'
    /\ shape scene' = shape (solid 3 4 black)
    /\ well_shaped scene'
    /\ (outside (solid 3 4 black) (solid 2 2 (1, 1, 1)) 3 (-1) ->
        scene' = solid 3 4 black)
    /\ forall y x, 0 <= y < fst (shape (solid 3 4 black)) ->
                   0 <= x < snd (shape (solid 3 4 black)) ->
         pixel_at scene' y x
         = if covers (solid 2 2 (1, 1, 1)) 3 (-1) y x
           then pixel_at (solid 2 2 (1, 1, 1)) (y - -1) (x - 3)
           else pixel_at (solid 3 4 black) y x.
Proof.
  apply place_image_spec; apply solid_well_shaped.
Defined.

(** ** Letterbox *)

Lemma copyMakeBorder_zero (src : ndarray) (value : pixel) :
  is_empty src = false -> cv2_copyMakeBorder src 0 0 0 0 value = Ok src.
Proof.
  intros Hne. unfold cv2_copyMakeBorder. rewrite Hne. cbn [orb Z.ltb Z.compare].
  destruct src as [w rows]. cbn [ncols nd_rows Z.to_nat repeat app Nat.add].
  f_equal. f_equal; [lia |].
  rewrite app_nil_r. rewrite <- (map_id rows) at 2.
  apply map_ext. intros r. apply app_nil_r.
Qed.

(** C6. Letterboxing a raster to its own size gives the raster back,
    whatever the fill colour. *)
Theorem letterbox_image_fixed_point `{Primitives} (image : ndarray)
  (desired_size : Z * Z) (color : color_arg) :
  0 < fst (shape image) -> 0 < snd (shape image) ->
  shape image = (snd desired_size, fst desired_size) ->
  letterbox_image image desired_size color = Ok image.
Proof.
  intros Hh Hw Hshape.
  unfold letterbox_image, resize_image_keeping_aspect_ratio.
  rewrite Hshape. cbn [fst snd]. rewrite !Z.eqb_refl. cbn [andb bind].
  rewrite Hshape. rewrite !Z.sub_diag. cbn [Z.div Z.div_eucl fst Z.sub Z.opp Z.add].
  apply copyMakeBorder_zero.
  unfold is_empty. unfold shape in Hh, Hw; cbn [fst snd] in Hh, Hw.
  destruct (Nat.eqb_spec (nrows image) 0); [lia |].
  destruct (Nat.eqb_spec (ncols image) 0); [lia | reflexivity].
Qed.

Lemma letterbox_image_fixed_point_witness :
  letterbox_image (solid 2 3 (1, 2, 3)) (3, 2) (ColorObj 217 217 217)
  = Ok (solid 2 3 (1, 2, 3)).
Proof.
  apply letterbox_image_fixed_point; cbn; lia || reflexivity.
Defined.

(** ** Shapes of the numpy primitives *)

Lemma sized_shape (h w : nat) (a : ndarray) :
  sized h w a -> shape a = (Z.of_nat h, Z.of_nat w).
Proof.
  intros (Hh & Hw & _). unfold shape. rewrite Hh, Hw. reflexivity.
Qed.

Lemma np_full_sized (h w : Z) (c : pixel) :
  0 <= h -> 0 <= w ->
  exists a, np_full h w c = Ok a /\ sized (Z.to_nat h) (Z.to_nat w) a.
Proof.
  intros Hh Hw. unfold np_full.
  destruct (Z.ltb_spec h 0); [lia |]. destruct (Z.ltb_spec w 0); [lia |].
  cbn [orb]. eexists. split; [reflexivity |].
  unfold sized, nrows, well_shaped; cbn [nd_rows ncols].
  rewrite repeat_length. repeat split.
  apply Forall_forall. intros r Hr. apply repeat_spec in Hr. subst r.
  apply repeat_length.
Qed.

Lemma tabulate_sized (h w : nat) (f : nat -> nat -> pixel) :
  sized h w (tabulate h w f).
Proof.
  unfold sized, nrows, well_shaped, tabulate; cbn [nd_rows ncols].
  rewrite length_map, length_seq. repeat split.
  apply Forall_forall. intros r Hr. apply in_map_iff in Hr as (i & <- & _).
  rewrite length_map, length_seq. reflexivity.
Qed.

Lemma hstack_sized (h w1 w2 : nat) (a b : ndarray) :
  sized h w1 a -> sized h w2 b -> sized h (w1 + w2) (hstack a b).
Proof.
  intros (Ha & Hwa & Hsa) (Hb & Hwb & Hsb).
  unfold sized, nrows, well_shaped, hstack in *; cbn [nd_rows ncols].
  rewrite length_map, length_combine, Ha, Hb, Hwa, Hwb. repeat split; [lia |].
  apply Forall_forall. intros r Hr.
  apply in_map_iff in Hr as ([r1 r2] & <- & Hin). cbn [fst snd].
  rewrite length_app.
  rewrite Forall_forall in Hsa, Hsb.
  rewrite (Hsa r1), (Hsb r2), Hwa, Hwb; eauto using in_combine_l, in_combine_r.
Qed.

Lemma vstack_sized (h1 h2 w : nat) (a b : ndarray) :
  sized h1 w a -> sized h2 w b -> sized (h1 + h2) w (vstack a b).
Proof.
  intros (Ha & Hwa & Hsa) (Hb & Hwb & Hsb).
  unfold sized, nrows, well_shaped, vstack in *; cbn [nd_rows ncols].
  rewrite length_app, Ha, Hb. repeat split; [exact Hwa |].
  apply Forall_app; split; [exact Hsa |].
  rewrite Hwa, <- Hwb. exact Hsb.
Qed.

Lemma astype_uint8_sized (h w : nat) (a : ndarray) :
  sized h w a -> sized h w (astype_uint8 a).
Proof.
  intros (Ha & Hwa & Hsa).
  unfold sized, nrows, well_shaped, astype_uint8 in *; cbn [nd_rows ncols].
  rewrite length_map. repeat split; auto.
  apply Forall_forall. intros r Hr. apply in_map_iff in Hr as (r' & <- & Hin).
  rewrite length_map. rewrite Forall_forall in Hsa. auto.
Qed.

Lemma hstack_fold_sized (h w wsep : nat) (sep : ndarray) (rest : list ndarray) :
  sized h wsep sep -> Forall (sized h w) rest ->
  forall (w0 : nat) (a : ndarray), sized h w0 a ->
    sized h (w0 + length rest * (wsep + w))
      (fold_left hstack (sep_before sep rest) a).
Proof.
  intros Hsep Hrest. induction Hrest as [| b rest Hb Hrest IH]; intros w0 a Ha.
  - cbn. replace (w0 + 0)%nat with w0 by lia. exact Ha.
  - cbn [sep_before flat_map app fold_left length].
    fold (sep_before sep rest).
    replace (w0 + S (length rest) * (wsep + w))%nat
      with ((w0 + wsep + w) + length rest * (wsep + w))%nat by lia.
    apply IH. apply hstack_sized; [apply hstack_sized |]; assumption.
Qed.

Lemma vstack_fold_sized (h hsep w : nat) (sep : ndarray) (rest : list ndarray) :
  sized hsep w sep -> Forall (sized h w) rest ->
  forall (h0 : nat) (a : ndarray), sized h0 w a ->
    sized (h0 + length rest * (hsep + h)) w
      (fold_left vstack (sep_before sep rest) a).
Proof.
  intros Hsep Hrest. induction Hrest as [| b rest Hb Hrest IH]; intros h0 a Ha.
  - cbn. replace (h0 + 0)%nat with h0 by lia. exact Ha.
  - cbn [sep_before flat_map app fold_left length].
    fold (sep_before sep rest).
    replace (h0 + S (length rest) * (hsep + h))%nat
      with ((h0 + hsep + h) + length rest * (hsep + h))%nat by lia.
    apply IH. apply vstack_sized; [apply vstack_sized |]; assumption.
Qed.

Lemma forallb_sep_before (A : Type) (p : A -> bool) (sep : A) (l : list A) :
  p sep = true -> Forall (fun a => p a = true) l ->
  forallb p (sep_before sep l) = true.
Proof.
  intros Hsep Hl. induction Hl as [| a l Ha Hl IH]; cbn; [reflexivity |].
  rewrite Hsep, Ha. exact IH.
Qed.

Lemma removelast_interleaved (A : Type) (sep a : A) (l : list A) :
  removelast (flat_map (fun b => [b; sep]) (a :: l)) = a :: sep_before sep l.
Proof.
  revert a; induction l as [| b l IH]; intros a; [reflexivity |].
  change (flat_map (fun b0 => [b0; sep]) (a :: b :: l))
    with (a :: sep :: flat_map (fun b0 => [b0; sep]) (b :: l)).
  change (sep_before sep (b :: l)) with (sep :: b :: sep_before sep l).
  rewrite <- IH. reflexivity.
Qed.

Lemma interleave_cons (A : Type) (sep a : A) (l : list A) (k : Z) :
  k = len (a :: l) -> interleave (a :: l) sep k = a :: sep_before sep l.
Proof.
  intros ->. unfold interleave, len. rewrite Nat2Z.id.
  rewrite <- removelast_interleaved. f_equal.
  generalize (a :: l). intros l'. induction l' as [| b l' IH]; [reflexivity |].
  cbn. rewrite IH. reflexivity.
Qed.

Lemma np_concatenate_axis1_sized (h w wsep : nat) (sep a : ndarray)
  (rest : list ndarray) :
  sized h wsep sep -> sized h w a -> Forall (sized h w) rest ->
  exists r, np_concatenate_axis1 (a :: sep_before sep rest) = Ok r
            /\ sized h (w + length rest * (wsep + w)) r.
Proof.
  intros Hsep Ha Hrest. unfold np_concatenate_axis1.
  rewrite forallb_sep_before.
  - eexists. split; [reflexivity |]. apply hstack_fold_sized; assumption.
  - apply Nat.eqb_eq. destruct Hsep as (-> & _), Ha as (-> & _). reflexivity.
  - eapply Forall_impl; [| exact Hrest]. intros b (Hb & _).
    apply Nat.eqb_eq. destruct Ha as (-> & _). exact Hb.
Qed.

Lemma np_concatenate_axis0_sized (h w hsep : nat) (sep a : ndarray)
  (rest : list ndarray) :
  sized hsep w sep -> sized h w a -> Forall (sized h w) rest ->
  exists r, np_concatenate_axis0 (a :: sep_before sep rest) = Ok r
            /\ sized (h + length rest * (hsep + h)) w r.
Proof.
  intros Hsep Ha Hrest. unfold np_concatenate_axis0.
  rewrite forallb_sep_before.
  - eexists. split; [reflexivity |]. apply vstack_fold_sized; assumption.
  - apply Nat.eqb_eq. destruct Hsep as (_ & -> & _), Ha as (_ & -> & _). reflexivity.
  - eapply Forall_impl; [| exact Hrest]. intros b (_ & Hb & _).
    apply Nat.eqb_eq. destruct Ha as (_ & -> & _). exact Hb.
Qed.

(** ** Batches and fillers *)

Lemma chunks_spec (A : Type) (size : nat) :
  (1 <= size)%nat ->
  forall (fuel : nat) (l : list A),
    l <> [] -> (length l <= fuel)%nat ->
    exists front last_row,
      chunks fuel size l = front ++ [last_row]
      /\ Forall (fun c => length c = size) front
      /\ (1 <= length last_row <= size)%nat
      /\ length l = (length front * size + length last_row)%nat
      /\ concat (front ++ [last_row]) = l.
Proof.
  intros Hsize. induction fuel as [| fuel IH]; intros l Hne Hfuel.
  - destruct l; [congruence | cbn in Hfuel; lia].
  - destruct l as [| a l]; [congruence |].
    cbn [chunks].
    destruct (skipn size (a :: l)) as [| b rest] eqn:Hskip.
    + exists [], (firstn size (a :: l)).
      assert (Hlen : (length (a :: l) <= size)%nat)
        by (apply skipn_all_iff; exact Hskip).
      rewrite firstn_all2 by exact Hlen.
      destruct fuel; cbn [chunks app]; repeat split; auto; cbn in *; try lia;
        rewrite app_nil_r; reflexivity.
    + assert (Hlen : (length (b :: rest) = length (a :: l) - size)%nat)
        by (rewrite <- Hskip; apply length_skipn).
      destruct (IH (b :: rest) ltac:(congruence) ltac:(lia))
        as (front & last_row & Hc & Hfront & Hlast & Hsum & Hcat).
      exists (firstn size (a :: l) :: front), last_row.
      assert (Hpos : (1 <= length (b :: rest))%nat) by (cbn [length]; lia).
      assert (Hfirst : length (firstn size (a :: l)) = size)
        by (rewrite length_firstn; lia).
      rewrite Hc. repeat split; auto; try lia.
      * cbn [length] in *. lia.
      * cbn [app concat]. rewrite Hcat, <- Hskip. apply firstn_skipn.
Qed.

Lemma append_fillers_Ok (k : nat) (f : ndarray) (row : list ndarray) :
  append_fillers k (Ok f) row = Ok (row ++ repeat f k).
Proof.
  revert row; induction k as [| k IH]; intros row; cbn.
  - rewrite app_nil_r. reflexivity.
  - rewrite IH, <- app_assoc. reflexivity.
Qed.

Lemma append_filler_rows_Ok (k : nat) (f : ndarray) (columns : Z)
  (rows : list (list ndarray)) :
  append_filler_rows k (Ok f) columns rows
  = Ok (rows ++ repeat (repeat f (Z.to_nat columns)) k).
Proof.
  revert rows; induction k as [| k IH]; intros rows; cbn.
  - rewrite app_nil_r. reflexivity.
  - rewrite IH, <- app_assoc. reflexivity.
Qed.

(** ** The tile composer *)

Lemma draw_text_sized `{Primitives} (h w : nat) (st : text_style)
  (scene : ndarray) (text : string) (anchor : Point) :
  sized h w scene -> sized h w (draw_text st scene text anchor).
Proof.
  intros (Hh & Hw & _). unfold draw_text. rewrite Hh, Hw. apply tabulate_sized.
Qed.

Lemma draw_texts_sized `{Primitives} (h w : nat) (images : list ndarray)
  (titles : option (list (option string)))
  (titles_anchors : list (option Point)) (titles_color : pixel)
  (titles_scale : option float) (titles_thickness titles_padding : Z)
  (titles_text_font : Z) (titles_background_color : pixel)
  (default_title_placement : string) :
  images <> [] ->
  Forall (sized h w) images ->
  match titles with
  | None => True
  | Some ts => (length images <= length ts)%nat
               /\ (length images <= length titles_anchors)%nat
  end ->
  exists images',
    _draw_texts images titles titles_anchors titles_color titles_scale
      titles_thickness titles_padding titles_text_font titles_background_color
      default_title_placement = Ok images'
    /\ length images' = length images
    /\ Forall (sized h w) images'.
Proof.
  intros Hne Hall Htitles. unfold _draw_texts.
  destruct titles as [ts |]; [| exists images; auto].
  destruct Htitles as (Hts & Hanchors).
  assert (Hscale : exists s,
             match titles_scale with
             | Some s => Ok s
             | None =>
                 match images with
                 | [] => Raise IndexError
                 | image0 :: _ =>
                     let '(image_height, image_width) := shape image0 in
                     Ok (calculate_optimal_text_scale (image_width, image_height))
                 end
             end = Ok s).
  { destruct titles_scale; [eauto |]. destruct images; [congruence |].
    unfold shape. eauto. }
  destruct Hscale as (s & ->). cbn [bind]. eexists. split; [reflexivity |].
  split.
  - rewrite length_map, !length_combine. unfold _prepare_default_titles_anchors.
    rewrite length_map, length_combine. lia.
  - apply Forall_forall. intros img Himg.
    apply in_map_iff in Himg as ([[image text] anchor] & <- & Hin).
    apply in_combine_l, in_combine_l in Hin.
    rewrite Forall_forall in Hall. specialize (Hall image Hin).
    destruct text; [apply draw_text_sized |]; exact Hall.
Qed.

Lemma sized_of_shape (a : ndarray) (th tw : Z) :
  well_shaped a -> shape a = (th, tw) ->
  sized (Z.to_nat th) (Z.to_nat tw) a.
Proof.
  intros Hws Hshape. unfold shape in Hshape. injection Hshape as <- <-.
  rewrite !Nat2Z.id. repeat split. exact Hws.
Qed.

(** ** Where a mosaic pixel comes from *)

Lemma div_mod_small (j d : nat) : (j < d)%nat -> (j / d = 0 /\ j mod d = j)%nat.
Proof.
  intros Hj. split; [apply Nat.div_small | apply Nat.mod_small]; exact Hj.
Qed.

Lemma div_mod_step (j d : nat) :
  (0 < d)%nat -> (d <= j)%nat ->
  (j / d = S ((j - d) / d) /\ j mod d = (j - d) mod d)%nat.
Proof.
  intros Hd Hj.
  pose proof (Nat.div_mod_eq (j - d) d) as Heq.
  pose proof (Nat.mod_upper_bound (j - d) d ltac:(lia)) as Hlt.
  assert (Hj' : (j = d * S ((j - d) / d) + (j - d) mod d)%nat) by lia.
  split.
  - symmetry. apply Nat.div_unique with (r := ((j - d) mod d)%nat); assumption.
  - symmetry. apply Nat.mod_unique with (q := S ((j - d) / d)); assumption.
Qed.

(** Blocks of [w] elements with [sep] between them: element [j] lies in
    block [j / d] at offset [j mod d], or in a separator, where [d] is
    the block length plus the separator length. *)
Lemma nth_error_separated (A : Type) (sep : list A) (w : nat)
  (rest : list (list A)) :
  Forall (fun b => length b = w) rest ->
  forall (b0 : list A) (j : nat),
    length b0 = w ->
    (j < w + length rest * (w + length sep))%nat ->
    nth_error (b0 ++ concat (map (fun b => sep ++ b) rest)) j
    = if (j mod (w + length sep) <? w)%nat
      then nth_error (nth (j / (w + length sep)) (b0 :: rest) [])
             (j mod (w + length sep))
      else nth_error sep (j mod (w + length sep) - w).
Proof.
  intros Hrest. induction Hrest as [| b1 rest Hb1 Hrest IH]; intros b0 j Hb0 Hj.
  - cbn [length Nat.mul] in Hj. cbn [map concat]. rewrite app_nil_r.
    destruct (@div_mod_small j (w + length sep) ltac:(lia)) as (-> & ->).
    destruct (Nat.ltb_spec j w); [reflexivity | lia].
  - cbn [map concat]. set (d := (w + length sep)%nat) in *.
    destruct (Nat.lt_ge_cases j d) as [Hjd | Hjd].
    + destruct (div_mod_small Hjd) as (-> & ->).
      rewrite nth_error_app, Hb0.
      destruct (Nat.ltb_spec j w); [reflexivity |].
      rewrite <- app_assoc, nth_error_app.
      destruct (Nat.ltb_spec (j - w) (length sep)); [reflexivity | lia].
    + assert (Hd : (0 < d)%nat) by lia.
      destruct (div_mod_step Hd Hjd) as (-> & ->).
      rewrite nth_error_app, Hb0.
      destruct (Nat.ltb_spec j w); [lia |].
      rewrite <- app_assoc, nth_error_app.
      destruct (Nat.ltb_spec (j - w) (length sep)); [lia |].
      replace (j - w - length sep)%nat with (j - d)%nat by lia.
      rewrite IH by (try exact Hb1; cbn [length] in Hj; lia).
      reflexivity.
Qed.

Lemma concat_map_sep_before (A B : Type) (f : A -> list B) (sep : A)
  (rest : list A) :
  concat (map f (sep_before sep rest))
  = concat (map (fun b => f sep ++ f b) rest).
Proof.
  induction rest as [| b rest IH]; [reflexivity |].
  cbn [sep_before flat_map app map concat]. fold (sep_before sep rest).
  rewrite IH, app_assoc. reflexivity.
Qed.

Lemma hstack_row (h i : nat) (a b : ndarray) :
  nrows a = h -> nrows b = h -> (i < h)%nat ->
  row_of i (hstack a b) = row_of i a ++ row_of i b.
Proof.
  intros Ha Hb Hi. unfold row_of, hstack, nrows in *; cbn [nd_rows].
  destruct (nth_error (nd_rows a) i) as [ra |] eqn:Hra;
    [| apply nth_error_None in Hra; lia].
  destruct (nth_error (nd_rows b) i) as [rb |] eqn:Hrb;
    [| apply nth_error_None in Hrb; lia].
  rewrite (nth_error_nth _ _ _ Hra), (nth_error_nth _ _ _ Hrb).
  apply nth_error_nth. rewrite nth_error_map_combine, Hra, Hrb. reflexivity.
Qed.

Lemma hstack_nrows (h : nat) (a b : ndarray) :
  nrows a = h -> nrows b = h -> nrows (hstack a b) = h.
Proof.
  intros Ha Hb. unfold nrows, hstack in *; cbn [nd_rows].
  rewrite length_map, length_combine. lia.
Qed.

Lemma hstack_fold_row (h i : nat) (l : list ndarray) :
  Forall (fun b => nrows b = h) l -> (i < h)%nat ->
  forall a, nrows a = h ->
    row_of i (fold_left hstack l a) = row_of i a ++ concat (map (row_of i) l).
Proof.
  intros Hl Hi. induction Hl as [| b l Hb Hl IH]; intros a Ha.
  - cbn. rewrite app_nil_r. reflexivity.
  - cbn [fold_left map concat].
    rewrite IH by (apply hstack_nrows; assumption).
    rewrite (@hstack_row h i a b Ha Hb Hi), app_assoc. reflexivity.
Qed.

Lemma vstack_fold_rows (l : list ndarray) (a : ndarray) :
  nd_rows (fold_left vstack l a) = nd_rows a ++ concat (map nd_rows l).
Proof.
  revert a; induction l as [| b l IH]; intros a; cbn [fold_left map concat].
  - rewrite app_nil_r. reflexivity.
  - rewrite IH. unfold vstack; cbn [nd_rows]. rewrite app_assoc. reflexivity.
Qed.

Lemma rows_at_row_of (a : ndarray) (i j : nat) :
  (i < nrows a)%nat -> rows_at (nd_rows a) i j = nth_error (row_of i a) j.
Proof.
  intros Hi. unfold rows_at, row_of.
  destruct (nth_error (nd_rows a) i) as [r |] eqn:Hr.
  - rewrite (nth_error_nth _ _ _ Hr). reflexivity.
  - apply nth_error_None in Hr. unfold nrows in Hi. lia.
Qed.

Lemma row_of_length (h w i : nat) (a : ndarray) :
  sized h w a -> (i < h)%nat -> length (row_of i a) = w.
Proof.
  intros (Hh & Hw & Hws) Hi. unfold row_of.
  destruct (nth_error (nd_rows a) i) as [r |] eqn:Hr.
  - rewrite (nth_error_nth _ _ _ Hr), <- Hw.
    exact (@Forall_nth_error _ (fun r => length r = ncols a) _ _ _ Hws Hr).
  - apply nth_error_None in Hr. unfold nrows in Hh. lia.
Qed.

Lemma np_full_uniform (h w : Z) (c : pixel) (a : ndarray) :
  np_full h w c = Ok a -> uniform c a.
Proof.
  unfold np_full. destruct ((h <? 0) || (w <? 0)); [discriminate |].
  intros Ha. injection Ha as <-. unfold uniform, nrows; cbn [nd_rows ncols].
  rewrite repeat_length. reflexivity.
Qed.

Lemma uniform_row_of (color : pixel) (a : ndarray) (i : nat) :
  uniform color a -> (i < nrows a)%nat ->
  row_of i a = repeat color (ncols a).
Proof.
  intros Hu Hi. unfold row_of. rewrite Hu.
  apply nth_error_nth, nth_error_repeat, Hi.
Qed.

Lemma div_lt_blocks (j w d n : nat) :
  (w <= d)%nat -> (0 < d)%nat -> (j < w + n * d)%nat -> (j / d <= n)%nat.
Proof.
  intros Hw Hd Hj.
  pose proof (Nat.div_mod_eq j d) as Heq.
  pose proof (Nat.mod_upper_bound j d ltac:(lia)) as Hlt.
  destruct (Nat.le_gt_cases (j / d) n) as [Hle | Hgt]; [exact Hle |].
  assert (d * S n <= d * (j / d))%nat by (apply Nat.mul_le_mono_l; lia).
  nia.
Qed.

Lemma np_concatenate_axis1_joined (h w m c : nat) (color : pixel)
  (vp : ndarray) (row : list ndarray) :
  sized h m vp -> uniform color vp ->
  length row = c -> (1 <= c)%nat -> Forall (sized h w) row ->
  exists b, np_concatenate_axis1 (interleave row vp (Z.of_nat c)) = Ok b
            /\ joined_row h w m color row b.
Proof.
  intros Hvp Huni Hlen Hc Hsized.
  destruct row as [| t0 rest]; [cbn in Hlen; lia |].
  rewrite interleave_cons by (unfold len; lia).
  inversion Hsized as [| ? ? Ht0 Hrest]; subst.
  destruct (np_concatenate_axis1_sized Hvp Ht0 Hrest) as (b & Hb & Hbs).
  exists b. split; [exact Hb |].
  unfold joined_row. cbn [length].
  replace (S (length rest) - 1)%nat with (length rest) by lia.
  split; [exact Hbs |].
  intros i j dflt Hi Hj.
  unfold np_concatenate_axis1 in Hb.
  destruct (forallb _ (sep_before vp rest)); [| discriminate].
  injection Hb as <-.
  assert (Hnrows : Forall (fun b => nrows b = h) (sep_before vp rest)).
  { unfold sep_before. apply Forall_flat_map.
    eapply Forall_impl; [| exact Hrest]. intros t (Ht & _).
    constructor; [apply Hvp | constructor; [exact Ht | constructor]]. }
  rewrite rows_at_row_of by (destruct Hbs as (-> & _); exact Hi).
  rewrite (hstack_fold_row Hnrows Hi) by apply Ht0.
  rewrite concat_map_sep_before.
  rewrite <- (map_map (row_of i) (fun r => row_of i vp ++ r)).
  assert (Hsep : row_of i vp = repeat color m).
  { destruct Hvp as (Hvh & Hvw & _). rewrite <- Hvw.
    apply uniform_row_of; [exact Huni | lia]. }
  assert (Hseplen : length (row_of i vp) = m)
    by (rewrite Hsep; apply repeat_length).
  rewrite nth_error_separated with (w := w).
  - rewrite Hseplen.
    destruct (Nat.ltb_spec (j mod (w + m)) w) as [Hin | Hout].
    + assert (Hk : (j / (w + m) <= length rest)%nat).
      { apply div_lt_blocks with (w := w); lia. }
      change (row_of i t0 :: map (row_of i) rest)
        with (map (row_of i) (t0 :: rest)).
      rewrite nth_indep with (d' := row_of i dflt)
        by (rewrite length_map; cbn [length]; lia).
      rewrite map_nth.
      symmetry. apply rows_at_row_of.
      assert (Hin_row : In (nth (j / (w + m)) (t0 :: rest) dflt) (t0 :: rest))
        by (apply nth_In; cbn [length]; lia).
      rewrite Forall_forall in Hsized.
      destruct (Hsized _ Hin_row) as (-> & _). exact Hi.
    + rewrite Hsep. apply nth_error_repeat.
      pose proof (Nat.mod_upper_bound j (w + m) ltac:(lia)). lia.
  - apply Forall_forall. intros r Hr.
    apply in_map_iff in Hr as (t & <- & Ht).
    rewrite Forall_forall in Hrest.
    exact (row_of_length (Hrest t Ht) Hi).
  - exact (row_of_length Ht0 Hi).
  - rewrite length_map, Hseplen.
    replace (length rest * (w + m))%nat
      with (length rest * (m + w))%nat by lia. exact Hj.
Qed.

Lemma mapM_Forall2_ex (A B : Type) (f : A -> result B) (P : A -> Prop)
  (Q : A -> B -> Prop) (l : list A) :
  (forall a, P a -> exists b, f a = Ok b /\ Q a b) ->
  Forall P l ->
  exists bs, mapM f l = Ok bs /\ Forall2 Q l bs.
Proof.
  intros Hf Hl. induction Hl as [| a l Ha Hl IH]; cbn [mapM].
  - exists []. split; [reflexivity | constructor].
  - destruct (Hf a Ha) as (b & -> & Hb). destruct IH as (bs & -> & Hbs).
    cbn [bind]. exists (b :: bs). split; [reflexivity | constructor; assumption].
Qed.

Lemma Forall2_nth (A B : Type) (Q : A -> B -> Prop) (l : list A) (l' : list B)
  (k : nat) (d : A) (d' : B) :
  Forall2 Q l l' -> (k < length l)%nat -> Q (nth k l d) (nth k l' d').
Proof.
  intros HQ. revert k. induction HQ as [| a b l l' Hab HQ IH]; intros k Hk.
  - cbn in Hk. lia.
  - destruct k as [| k]; [exact Hab |]. cbn [nth]. apply IH. cbn in Hk. lia.
Qed.

Lemma Forall2_right (A B : Type) (Q : A -> B -> Prop) (R : B -> Prop)
  (l : list A) (l' : list B) :
  (forall a b, Q a b -> R b) -> Forall2 Q l l' -> Forall R l'.
Proof.
  intros HQR HQ. induction HQ; constructor; eauto.
Qed.

Lemma rows_at_map (f : pixel -> pixel) (R : list (list pixel)) (i j : nat) :
  rows_at (map (map f) R) i j = option_map f (rows_at R i j).
Proof.
  unfold rows_at. rewrite nth_error_map.
  destruct (nth_error R i) as [r |]; cbn [option_map]; [| reflexivity].
  apply nth_error_map.
Qed.

Lemma merge_tiles_elements_pixels (tiles_elements : list (list ndarray))
  (r c h w : nat) (tile_margin : Z) (tile_margin_color : pixel) :
  (1 <= r)%nat -> (1 <= c)%nat -> 0 <= tile_margin ->
  length tiles_elements = r ->
  Forall (fun row => length row = c /\ Forall (sized h w) row) tiles_elements ->
  let m := Z.to_nat tile_margin in
  exists mosaic,
    _merge_tiles_elements tiles_elements (Z.of_nat r, Z.of_nat c)
      (Z.of_nat w, Z.of_nat h) tile_margin tile_margin_color = Ok mosaic
    /\ sized (h + (r - 1) * (m + h)) (w + (c - 1) * (m + w)) mosaic
    /\ forall i j dflt,
         (i < h + (r - 1) * (m + h))%nat -> (j < w + (c - 1) * (m + w))%nat ->
         rows_at (nd_rows mosaic) i j
         = option_map uint8_pixel
             (if (i mod (h + m) <? h)%nat && (j mod (w + m) <? w)%nat
              then rows_at
                     (nd_rows (nth (j / (w + m))
                                 (nth (i / (h + m)) tiles_elements []) dflt))
                     (i mod (h + m)) (j mod (w + m))
              else Some tile_margin_color).
Proof.
  intros Hr Hc Hm Hlen Htiles m. unfold _merge_tiles_elements. cbn [fst snd].
  destruct (@np_full_sized (Z.of_nat h) tile_margin tile_margin_color
              ltac:(lia) Hm) as (vp & Hvp_eq & Hvp).
  pose proof (np_full_uniform _ _ _ Hvp_eq) as Hvp_uni.
  rewrite Hvp_eq. rewrite Nat2Z.id in Hvp. fold m in Hvp. cbn [bind].
  set (mw := (w + (c - 1) * (m + w))%nat).
  destruct (@mapM_Forall2_ex _ _
              (fun row => np_concatenate_axis1 (interleave row vp (Z.of_nat c)))
              (fun row => length row = c /\ Forall (sized h w) row)
              (joined_row h w m tile_margin_color) tiles_elements)
    as (merged & -> & Hmerged).
  { intros row (Hrow & Hsized).
    exact (np_concatenate_axis1_joined Hvp Hvp_uni Hrow Hc Hsized). }
  { exact Htiles. }
  cbn [bind].
  assert (Hml : length merged = r)
    by (rewrite <- Hlen; symmetry; eapply Forall2_length; exact Hmerged).
  assert (Hmsized : Forall (sized h mw) merged).
  { assert (Hboth : Forall2 (fun row b => length row = c
                                          /\ joined_row h w m tile_margin_color row b)
                      tiles_elements merged).
    { clear - Htiles Hmerged. induction Hmerged; constructor.
      - inversion Htiles as [| ? ? (Hx & _) _]. split; assumption.
      - apply IHHmerged. inversion Htiles; assumption. }
    eapply Forall2_right; [| exact Hboth].
    intros row b (Hrow & Hb & _). subst mw. rewrite <- Hrow. exact Hb. }
  destruct merged as [| row0 merged]; [cbn in Hml; lia |].
  pose proof (Forall_inv Hmsized) as Hrow0.
  pose proof (Forall_inv_tail Hmsized) as Hrest.
  cbn [bind]. rewrite (sized_shape Hrow0). cbn [snd].
  destruct (@np_full_sized tile_margin (Z.of_nat mw) tile_margin_color
              Hm ltac:(lia)) as (hp & Hhp_eq & Hhp).
  pose proof (np_full_uniform _ _ _ Hhp_eq) as Hhp_uni.
  rewrite Hhp_eq. rewrite Nat2Z.id in Hhp. fold m in Hhp. cbn [bind].
  rewrite removelast_interleaved.
  destruct (np_concatenate_axis0_sized Hhp Hrow0 Hrest) as (out & Hout_eq & Hout).
  rewrite Hout_eq. cbn [bind]. eexists. split; [reflexivity |].
  cbn [length] in Hml.
  replace (r - 1)%nat with (length merged) by lia.
  split; [apply astype_uint8_sized; exact Hout |].
  intros i j dflt Hi Hj.
  unfold astype_uint8; cbn [nd_rows]. rewrite rows_at_map. f_equal.
  unfold np_concatenate_axis0 in Hout_eq.
  destruct (forallb _ (sep_before hp merged)); [| discriminate].
  injection Hout_eq as <-.
  unfold rows_at at 1.
  rewrite vstack_fold_rows, concat_map_sep_before.
  rewrite <- (map_map nd_rows (fun rows => nd_rows hp ++ rows)).
  assert (Hhp_len : length (nd_rows hp) = m) by apply Hhp.
  rewrite nth_error_separated with (w := h).
  - rewrite Hhp_len.
    destruct (Nat.ltb_spec (i mod (h + m)) h) as [Hin | Hmargin]; cbn [andb].
    + assert (Hk : (i / (h + m) <= length merged)%nat)
        by (apply div_lt_blocks with (w := h); lia).
      change (nd_rows row0 :: map nd_rows merged)
        with (map nd_rows (row0 :: merged)).
      rewrite nth_indep with (d' := nd_rows row0)
        by (rewrite length_map; cbn [length]; lia).
      rewrite map_nth.
      pose proof (@Forall2_nth _ _ _ _ _ (i / (h + m))%nat [] row0 Hmerged
                    ltac:(rewrite Hlen; lia)) as (_ & Hpix).
      fold (rows_at (nd_rows (nth (i / (h + m)) (row0 :: merged) row0))
              (i mod (h + m)) j).
      rewrite (Hpix (i mod (h + m))%nat j dflt Hin).
      * reflexivity.
      * assert (Hrowlen : length (nth (i / (h + m)) tiles_elements []) = c).
        { rewrite Forall_forall in Htiles. apply Htiles, nth_In. rewrite Hlen. lia. }
        rewrite Hrowlen. exact Hj.
    + rewrite Hhp_uni.
      destruct Hhp as (Hhp_rows & Hhp_cols & _). rewrite Hhp_rows, Hhp_cols.
      pose proof (Nat.mod_upper_bound i (h + m) ltac:(lia)).
      rewrite nth_error_repeat by lia.
      apply nth_error_repeat. exact Hj.
  - apply Forall_forall. intros rows Hrows.
    apply in_map_iff in Hrows as (b & <- & Hb).
    rewrite Forall_forall in Hrest. apply (Hrest b Hb).
  - apply Hrow0.
  - rewrite length_map, Hhp_len.
    replace (length merged * (h + m))%nat
      with (length merged * (m + h))%nat by lia. exact Hi.
Qed.

Lemma nth_concat_uniform (A : Type) (c : nat) (T : list (list A)) (d : A) :
  Forall (fun row => length row = c) T ->
  forall k l, (k < length T)%nat -> (l < c)%nat ->
    nth l (nth k T []) d = nth (k * c + l) (concat T) d.
Proof.
  intros HT. induction HT as [| row T Hrow HT IH]; intros k l Hk Hl.
  - cbn in Hk. lia.
  - cbn [concat]. destruct k as [| k].
    + cbn [nth Nat.mul Nat.add]. rewrite app_nth1 by lia. reflexivity.
    + cbn [nth]. rewrite app_nth2 by (rewrite Hrow; lia).
      rewrite Hrow. replace (S k * c + l - c)%nat with (k * c + l)%nat by lia.
      apply IH; [cbn in Hk; lia | exact Hl].
Qed.

Lemma concat_repeat_repeat (A : Type) (a : A) (c k : nat) :
  concat (repeat (repeat a c) k) = repeat a (k * c).
Proof.
  induction k as [| k IH]; [reflexivity |].
  cbn [repeat concat Nat.mul]. rewrite IH, repeat_app. reflexivity.
Qed.

Lemma nth_app_repeat_default (A : Type) (l : list A) (a : A) (n k : nat) :
  nth k (l ++ repeat a n) a = nth k l a.
Proof.
  destruct (Nat.lt_ge_cases k (length l)) as [Hk | Hk].
  - apply app_nth1; exact Hk.
  - rewrite app_nth2 by exact Hk. rewrite (nth_overflow l) by exact Hk.
    destruct (Nat.lt_ge_cases (k - length l) n) as [Hn | Hn].
    + apply nth_repeat_lt. exact Hn.
    + apply nth_overflow. rewrite repeat_length. exact Hn.
Qed.

Lemma np_full_solid (h w : Z) (c : pixel) :
  0 <= h -> 0 <= w -> np_full h w c = Ok (solid (Z.to_nat h) (Z.to_nat w) c).
Proof.
  intros Hh Hw. unfold np_full.
  destruct (Z.ltb_spec h 0); [lia |]. destruct (Z.ltb_spec w 0); [lia |].
  reflexivity.
Qed.

Lemma ltb_of_nat (a b : nat) : (Z.of_nat a <? Z.of_nat b) = (a <? b)%nat.
Proof.
  apply eq_true_iff_eq. rewrite Z.ltb_lt, Nat.ltb_lt. lia.
Qed.

(** C7. For a grid of [rows] by [columns] with both at least one, tiles
    of size [(tw, th)] that fit the grid and a margin [m >= 0], the
    composer returns a mosaic of width [columns * tw + (columns - 1) * m]
    and height [rows * th + (rows - 1) * m].  Pixel [(y, x)] of the mosaic
    lies in cell [(y / (th + m), x / (tw + m))]: inside the tile part of
    the cell it is the cast of the pixel of that tile (tile number
    [row * columns + column] in input order, the filler tile past the
    last input tile), and in the margin part it is the margin colour; so
    the first tile starts at the origin, the last one ends at the far
    corner, and a short last row and missing rows are filler tiles. *)
Theorem generate_tiles_mosaic `{Primitives} (images : list ndarray)
  (rows columns tw th : Z) (tile_padding_color : pixel) (tile_margin : Z)
  (tile_margin_color : pixel) (titles : option (list (option string)))
  (titles_anchors : list (option Point)) (titles_color : pixel)
  (titles_scale : option float) (titles_thickness titles_padding : Z)
  (titles_text_font : Z) (titles_background_color : pixel)
  (default_title_placement : string) :
  1 <= rows -> 1 <= columns -> 0 <= tile_margin ->
  images <> [] -> len images <= rows * columns ->
  Forall (fun t => well_shaped t /\ shape t = (th, tw)) images ->
  match titles with
  | None => True
  | Some ts => len images <= len ts /\ len images <= len titles_anchors
  end ->
  exists mosaic drawn,
    _draw_texts images titles titles_anchors titles_color titles_scale
      titles_thickness titles_padding titles_text_font titles_background_color
      default_title_placement = Ok drawn
    /\ _generate_tiles images (rows, columns) (tw, th) tile_padding_color
         tile_margin tile_margin_color titles titles_anchors titles_color
         titles_scale titles_thickness titles_padding titles_text_font
         titles_background_color default_title_placement = Ok mosaic
    /\ well_shaped mosaic
    /\ shape mosaic = (rows * th + (rows - 1) * tile_margin,
                       columns * tw + (columns - 1) * tile_margin)
    /\ forall y x,
         0 <= y < rows * th + (rows - 1) * tile_margin ->
         0 <= x < columns * tw + (columns - 1) * tile_margin ->
         pixel_at mosaic y x
         = option_map uint8_pixel
             (if (y mod (th + tile_margin) <? th)
                 && (x mod (tw + tile_margin) <? tw)
              then pixel_at
                     (nth (Z.to_nat (y / (th + tile_margin) * columns
                                     + x / (tw + tile_margin)))
                          drawn
                          (solid (Z.to_nat th) (Z.to_nat tw) tile_padding_color))
                     (y mod (th + tile_margin)) (x mod (tw + tile_margin))
              else Some tile_margin_color).
Proof.
  intros Hrows Hcolumns Hm Hne Hfit Htiles Htitles.
  assert (Hth : 0 <= th /\ 0 <= tw).
  { destruct images as [| t0 images]; [congruence |].
    inversion Htiles as [| ? ? (_ & Hs) _]; subst.
    unfold shape in Hs. injection Hs as <- <-. lia. }
  set (h := Z.to_nat th). set (w := Z.to_nat tw).
  set (r := Z.to_nat rows). set (c := Z.to_nat columns).
  set (m := Z.to_nat tile_margin).
  assert (Hsized : Forall (sized h w) images).
  { eapply Forall_impl; [| exact Htiles]. intros t (Hws & Hs).
    apply sized_of_shape; assumption. }
  assert (Htitles' : match titles with
                     | None => True
                     | Some ts => (length images <= length ts)%nat
                                  /\ (length images <= length titles_anchors)%nat
                     end)
    by (destruct titles; [unfold len in Htitles; lia | exact I]).
  destruct (@draw_texts_sized _ h w images titles titles_anchors titles_color
              titles_scale titles_thickness titles_padding titles_text_font
              titles_background_color default_title_placement Hne Hsized
              Htitles') as (drawn & Hdraw & Hlen' & Hsized').
  unfold _generate_tiles. rewrite Hdraw. cbn [bind].
  unfold create_batches. rewrite Z.max_l by lia. fold c.
  assert (Hne' : drawn <> [])
    by (destruct drawn, images; cbn in Hlen'; congruence).
  destruct (@chunks_spec _ c ltac:(lia) (length drawn) drawn Hne'
              ltac:(lia))
    as (front & last_row & -> & Hfront & Hlast & Hsum & Hcat).
  rewrite rev_app_distr. cbn [rev app].
  unfold _generate_color_image. cbn [fst snd].
  rewrite np_full_solid by lia. fold h w.
  set (filler := solid h w tile_padding_color).
  assert (Hfiller : sized h w filler).
  { subst filler. unfold sized, nrows, solid; cbn [nd_rows ncols].
    rewrite repeat_length. repeat split. apply solid_well_shaped. }
  rewrite append_fillers_Ok. cbn [bind]. rewrite rev_involutive.
  rewrite append_filler_rows_Ok. cbn [bind]. fold c.
  assert (Hall : Forall (Forall (sized h w)) (front ++ [last_row])).
  { rewrite <- Hcat in Hsized'. clear - Hsized'.
    induction (front ++ [last_row]) as [| row L IH]; [constructor |].
    cbn [concat] in Hsized'. apply Forall_app in Hsized' as (Hrow & HL).
    constructor; auto. }
  apply Forall_app in Hall as (Hallfront & Halllast).
  pose proof (Forall_inv Halllast) as Hlast_sized.
  assert (Hrfront : (length front < r)%nat).
  { unfold len in Hfit. rewrite <- Hlen', Hsum in Hfit.
    assert (Z.of_nat (length front) * Z.of_nat c < rows * Z.of_nat c) by lia.
    subst r c. nia. }
  set (k1 := Z.to_nat (columns - len last_row)).
  set (k2 := Z.to_nat (rows - len (front ++ [last_row ++ repeat filler k1]))).
  set (T := (front ++ [last_row ++ repeat filler k1])
            ++ repeat (repeat filler c) k2).
  assert (Hk1 : (length last_row + k1 = c)%nat) by (subst k1 c; unfold len; lia).
  assert (Hk2 : (length front + 1 + k2 = r)%nat).
  { subst k2 r. unfold len. rewrite !length_app. cbn [length]. lia. }
  assert (HTlen : length T = r).
  { subst T. rewrite !length_app, repeat_length. cbn [length]. lia. }
  assert (HT : Forall (fun row => length row = c /\ Forall (sized h w) row) T).
  { subst T. apply Forall_app; split; [apply Forall_app; split |].
    - rewrite Forall_forall in Hfront, Hallfront |- *.
      intros row Hrow. split; auto.
    - constructor; [| constructor]. split.
      + rewrite length_app, repeat_length. exact Hk1.
      + apply Forall_app; split; [exact Hlast_sized |].
        apply Forall_forall. intros f Hf. apply repeat_spec in Hf. subst f.
        exact Hfiller.
    - apply Forall_forall. intros row Hrow. apply repeat_spec in Hrow. subst row.
      split; [apply repeat_length |].
      apply Forall_forall. intros f Hf. apply repeat_spec in Hf. subst f.
      exact Hfiller. }
  assert (HTcat : concat T = drawn ++ repeat filler (k1 + k2 * c)).
  { subst T. rewrite !concat_app. cbn [concat]. rewrite app_nil_r.
    rewrite concat_repeat_repeat, repeat_app, <- Hcat, concat_app.
    cbn [concat]. rewrite app_nil_r, <- !app_assoc. reflexivity. }
  destruct (@merge_tiles_elements_pixels T r c h w tile_margin tile_margin_color
              ltac:(lia) ltac:(lia) Hm HTlen HT)
    as (mosaic & Hmerge & Hmosaic & Hpixels).
  fold m in Hmosaic, Hpixels.
  replace (Z.of_nat r) with rows in Hmerge by lia.
  replace (Z.of_nat c) with columns in Hmerge by lia.
  replace (Z.of_nat w) with tw in Hmerge by lia.
  replace (Z.of_nat h) with th in Hmerge by lia.
  exists mosaic, drawn. split; [reflexivity |]. split; [exact Hmerge |].
  destruct Hmosaic as (Hmr & Hmc & Hmws). split; [exact Hmws |].
  assert (Hr1 : Z.of_nat (r - 1) = rows - 1) by lia.
  assert (Hc1 : Z.of_nat (c - 1) = columns - 1) by lia.
  assert (HH : Z.of_nat (h + (r - 1) * (m + h))
               = rows * th + (rows - 1) * tile_margin).
  { rewrite !Nat2Z.inj_add, !Nat2Z.inj_mul, Hr1, !Nat2Z.inj_add.
    subst h m. rewrite !Z2Nat.id by lia. ring. }
  assert (HW : Z.of_nat (w + (c - 1) * (m + w))
               = columns * tw + (columns - 1) * tile_margin).
  { rewrite !Nat2Z.inj_add, !Nat2Z.inj_mul, Hc1, !Nat2Z.inj_add.
    subst w m. rewrite !Z2Nat.id by lia. ring. }
  split; [unfold shape; rewrite Hmr, Hmc, HH, HW; reflexivity |].
  intros y x Hy Hx.
  destruct (Z_of_nat_complete y ltac:(lia)) as (i & ->).
  destruct (Z_of_nat_complete x ltac:(lia)) as (j & ->).
  assert (Hi : (i < h + (r - 1) * (m + h))%nat) by lia.
  assert (Hj : (j < w + (c - 1) * (m + w))%nat) by lia.
  rewrite pixel_at_rows_at, (Hpixels i j filler Hi Hj).
  replace (th + tile_margin) with (Z.of_nat (h + m)) by lia.
  replace (tw + tile_margin) with (Z.of_nat (w + m)) by lia.
  rewrite <- !Nat2Z.inj_mod, <- !Nat2Z.inj_div.
  replace th with (Z.of_nat h) at 1 by lia.
  replace tw with (Z.of_nat w) at 1 by lia.
  rewrite !ltb_of_nat. f_equal.
  destruct (Nat.ltb_spec (i mod (h + m)) h) as [Hin_i | Hout_i];
    [| reflexivity].
  destruct (Nat.ltb_spec (j mod (w + m)) w) as [Hin_j | Hout_j];
    [| reflexivity].
  cbn [andb]. rewrite pixel_at_rows_at.
  assert (Hk : (i / (h + m) <= r - 1)%nat)
    by (apply div_lt_blocks with (w := h); lia).
  assert (Hl : (j / (w + m) <= c - 1)%nat)
    by (apply div_lt_blocks with (w := w); lia).
  rewrite (@nth_concat_uniform _ c T filler) by
    first [lia | eapply Forall_impl; [| exact HT]; intros row (Hrow & _);
                 exact Hrow].
  rewrite HTcat, nth_app_repeat_default.
  replace columns with (Z.of_nat c) at 1 by lia.
  rewrite <- Nat2Z.inj_mul, <- Nat2Z.inj_add, Nat2Z.id. reflexivity.
Qed.

Lemma generate_tiles_mosaic_witness :
  exists mosaic drawn,
    _draw_texts
      [solid 2 3 (1, 1, 1); solid 2 3 (2, 2, 2); solid 2 3 (3, 3, 3)]
      None [None; None; None] (35, 37, 38) None 1 10 0 (217, 217, 217) "top"
    = Ok drawn
    /\ _generate_tiles
         [solid 2 3 (1, 1, 1); solid 2 3 (2, 2, 2); solid 2 3 (3, 3, 3)]
         (2, 2) (3, 2) (217, 217, 217) 1 (189, 190, 191) None
         [None; None; None] (35, 37, 38) None 1 10 0 (217, 217, 217) "top"
       = Ok mosaic
    /\ well_shaped mosaic
    /\ shape mosaic = (2 * 2 + (2 - 1) * 1, 2 * 3 + (2 - 1) * 1)
    /\ forall y x,
         0 <= y < 2 * 2 + (2 - 1) * 1 -> 0 <= x < 2 * 3 + (2 - 1) * 1 ->
         pixel_at mosaic y x
         = option_map uint8_pixel
             (if (y mod (2 + 1) <? 2) && (x mod (3 + 1) <? 3)
              then pixel_at
                     (nth (Z.to_nat (y / (2 + 1) * 2 + x / (3 + 1))) drawn
                          (solid (Z.to_nat 2) (Z.to_nat 3) (217, 217, 217)))
                     (y mod (2 + 1)) (x mod (3 + 1))
              else Some (189, 190, 191)).
Proof.
  apply generate_tiles_mosaic; try lia; try discriminate; try exact I.
  repeat constructor; apply solid_well_shaped.
Defined.

(** ** Aspect-preserving resize *)

Lemma resize_same_size `{Primitives} (image : ndarray) (desired_size : Z * Z) :
  shape image = (snd desired_size, fst desired_size) ->
  resize_image_keeping_aspect_ratio image desired_size = Ok image.
Proof.
  intros Hshape. unfold resize_image_keeping_aspect_ratio.
  rewrite Hshape. cbn [fst snd]. rewrite !Z.eqb_refl. reflexivity.
Qed.

Lemma cv2_resize_sized `{Primitives} (image : ndarray) (new_width new_height : Z) :
  is_empty image = false -> 0 < new_width -> 0 < new_height ->
  exists resized,
    cv2_resize image (new_width, new_height) = Ok resized
    /\ sized (Z.to_nat new_height) (Z.to_nat new_width) resized.
Proof.
  intros Hne Hw Hh. unfold cv2_resize. rewrite Hne.
  destruct (Z.leb_spec new_width 0); [lia |].
  destruct (Z.leb_spec new_height 0); [lia |].
  cbn [orb]. eexists. split; [reflexivity | apply tabulate_sized].
Qed.

(** Away from the same-size shortcut, the resize returns a raster of the
    size computed by lines 619 to 626, provided that size is not empty. *)
Lemma resize_by_aspect_ratio_size `{Primitives} (image : ndarray)
  (desired_size : Z * Z) (new_width new_height : Z) :
  is_empty image = false ->
  shape image <> (snd desired_size, fst desired_size) ->
  aspect_ratio_size (shape image) desired_size = Ok (new_width, new_height) ->
  0 < new_width -> 0 < new_height ->
  exists resized,
    resize_image_keeping_aspect_ratio image desired_size = Ok resized
    /\ shape resized = (new_height, new_width)
    /\ well_shaped resized.
Proof.
  intros Hne Hshape Hsize Hw Hh. unfold resize_image_keeping_aspect_ratio.
  destruct ((fst (shape image) =? snd desired_size)
            && (snd (shape image) =? fst desired_size)) eqn:Hsame.
  - apply andb_true_iff in Hsame as (H1 & H2).
    apply Z.eqb_eq in H1, H2. exfalso. apply Hshape.
    destruct (shape image). cbn [fst snd] in *. congruence.
  - rewrite Hsize. cbn [bind].
    destruct (@cv2_resize_sized _ image new_width new_height Hne Hw Hh)
      as (resized & -> & Hsized).
    exists resized. split; [reflexivity |].
    split; [rewrite (sized_shape Hsized); f_equal; lia | apply Hsized].
Qed.

(** C4, at inputs where the code leaves the claim.  A raster 20 wide and
    29 high already fits the box (20, 30): its ratio 20/29 is above
    20/30, so the claim gives width 20 and height
    [floor (20 * 29 / 20) = 29].  The code computes [int(20 / (20 / 29))]
    in binary64, where the quotient falls just below 29, and resizes the
    raster to height 28.  In the same way a raster of 640 by 476 sent to
    the box (640, 480) comes out 640 by 475.  When the truncated
    dimension is 0 (a raster 1000 wide and 1 high sent to the box
    (10, 10)) [cv2.resize] rejects the size and no raster is returned. *)
Theorem resize_truncates_below_exact_quotient :
  (exists resized,
      resize_image_keeping_aspect_ratio (solid 29 20 black) (20, 30)
      = Ok resized
      /\ shape resized = (28, 20))
  /\ 20 * 29 / 20 = 29
  /\ aspect_ratio_size (476, 640) (640, 480) = Ok (640, 475)
  /\ 640 * 476 / 640 = 476
  /\ resize_image_keeping_aspect_ratio (solid 1 1000 black) (10, 10)
     = Raise Cv2Error.
Proof.
  split; [eexists; split; vm_compute; reflexivity |].
  split; [reflexivity |].
  split; [vm_compute; reflexivity |].
  split; [reflexivity |].
  vm_compute; reflexivity.
Qed.

(** On inputs where the binary64 quotient is exact the code agrees with
    the docstring: 640 by 480 sent to (1024, 1024) gives 1024 by 768. *)
Example aspect_ratio_size_docstring :
  aspect_ratio_size (480, 640) (1024, 1024) = Ok (1024, 768).
Proof.
  vm_compute; reflexivity.
Qed.

(** ** Borders *)






(** C5, at inputs where the code leaves the claim.  For a raster 1000
    wide and 1 high and the target (10, 10) the resize computes the size
    (10, [int(10 / 1000.0)]) = (10, 0), [cv2.resize] rejects it and
    [letterbox_image] raises instead of returning a raster of 10 by 10.
    For a raster 1 wide and 49 high and the target (2, 49) the exact
    width is [floor (49 * 1 / 49) = 1], the binary64 product
    [49 * (1 / 49)] falls below 1, the computed size is (0, 49) and the
    call raises as well. *)
Theorem letterbox_image_raises_on_empty_resize :
  letterbox_image (solid 1 1000 black) (10, 10) (ColorObj 217 217 217)
  = Raise Cv2Error
  /\ aspect_ratio_size (1, 1000) (10, 10) = Ok (10, 0)
  /\ letterbox_image (solid 49 1 black) (2, 49) (ColorObj 217 217 217)
     = Raise Cv2Error
  /\ aspect_ratio_size (49, 1) (2, 49) = Ok (0, 49)
  /\ 49 * 1 / 49 = 1.
Proof.
  split; [vm_compute; reflexivity |].
  split; [vm_compute; reflexivity |].
  split; [vm_compute; reflexivity |].
  split; [vm_compute; reflexivity | reflexivity].
Qed.

(** ** Title anchors *)

Lemma fill_length (A : Type) (sequence : list A) (desired_size : Z) (content : A) :
  len (fill sequence desired_size content) = Z.max (len sequence) desired_size.
Proof.
  unfold fill, len. rewrite length_app, repeat_length. lia.
Qed.

Lemma titles_anchors_list_length (titles_anchors : anchors_arg) (n_images : Z) :
  n_images <= len (titles_anchors_list titles_anchors n_images).
Proof.
  unfold titles_anchors_list. rewrite fill_length. lia.
Qed.

(** What the code does with [titles_anchors]: one anchor per image; the
    anchor of image [i] is entry [i] of the wrapped argument when that
    entry exists and is a point, the default of the placement otherwise. *)
Lemma prepare_default_titles_anchors_spec (images : list ndarray)
  (titles_anchors : list (option Point)) (default_title_placement : string) :
  (length images <= length titles_anchors)%nat ->
  length (_prepare_default_titles_anchors images titles_anchors
            default_title_placement) = length images
  /\ forall i image,
       nth_error images i = Some image ->
       nth_error (_prepare_default_titles_anchors images titles_anchors
                    default_title_placement) i
       = Some match nth_error titles_anchors i with
              | Some (Some anchor) => anchor
              | _ => default_anchor image default_title_placement
              end.
Proof.
  intros Hlen. unfold _prepare_default_titles_anchors. split.
  - rewrite length_map, length_combine. lia.
  - intros i image Hi.
    rewrite nth_error_map_combine, Hi.
    destruct (nth_error titles_anchors i) as [[anchor |] |] eqn:Ha;
      cbn [fst snd]; try reflexivity.
    apply nth_error_None in Ha.
    assert (i < length images)%nat by (apply nth_error_Some; congruence).
    lia.
Qed.

Lemma nth_error_fill_None (A : Type) (l : list (option A)) (n : Z) (i : nat) :
  match nth_error (fill l n None) i with
  | Some (Some a) => nth_error l i = Some (Some a)
  | _ => match nth_error l i with Some (Some _) => False | _ => True end
  end.
Proof.
  unfold fill. rewrite nth_error_app.
  destruct (Nat.ltb_spec i (length l)) as [Hi | Hi].
  - destruct (nth_error l i) as [[a |] |]; auto.
  - assert (Hnone : nth_error l i = None) by (apply nth_error_None; exact Hi).
    rewrite Hnone.
    destruct (nth_error (repeat None _) (i - length l)) as [[a |] |] eqn:Hr;
      auto.
    apply nth_error_In, repeat_spec in Hr. discriminate.
Qed.

(** X18. What the code does with [titles_anchors]: one anchor per image;
    a list is used entry by entry, a missing or absent entry gets the
    default of the placement, and a single point reaches tile 0 only. *)
Lemma titles_anchors_normalised (images : list ndarray)
  (titles_anchors : anchors_arg) (default_title_placement : string) :
  let anchors :=
    _prepare_default_titles_anchors images
      (titles_anchors_list titles_anchors (len images))
      default_title_placement in
  length anchors = length images
  /\ forall i image,
       nth_error images i = Some image ->
       nth_error anchors i
       = Some (anchor_of_tile titles_anchors i image default_title_placement).
Proof.
  intros anchors.
  assert (Hlen : (length images
                  <= length (titles_anchors_list titles_anchors (len images)))%nat).
  { pose proof (titles_anchors_list_length titles_anchors (len images)) as Hl.
    unfold len in *. lia. }
  destruct (@prepare_default_titles_anchors_spec images _
              default_title_placement Hlen) as (Hlength & Hnth).
  split; [exact Hlength |].
  intros i image Hi. subst anchors. rewrite (Hnth i image Hi). f_equal.
  unfold titles_anchors_list, anchor_of_tile.
  destruct titles_anchors as [| p | l].
  - pose proof (nth_error_fill_None [@None Point] (len images) i) as Hf.
    destruct (nth_error (fill [None] (len images) None) i) as [[a |] |];
      [| reflexivity | reflexivity].
    destruct i as [| [| i]]; discriminate.
  - pose proof (nth_error_fill_None [Some p] (len images) i) as Hf.
    destruct (nth_error (fill [Some p] (len images) None) i) as [[a |] |] eqn:Hn.
    + destruct i as [| [| i]]; cbn in Hf; try discriminate.
      injection Hf as ->. reflexivity.
    + destruct i as [| i]; [cbn in Hf; contradiction | reflexivity].
    + destruct i as [| i]; [cbn in Hf; contradiction | reflexivity].
  - pose proof (nth_error_fill_None l (len images) i) as Hf.
    destruct (nth_error (fill l (len images) None) i) as [[a |] |].
    + rewrite Hf. reflexivity.
    + destruct (nth_error l i) as [[a |] |]; [contradiction | |]; reflexivity.
    + destruct (nth_error l i) as [[a |] |]; [contradiction | |]; reflexivity.
Qed.

(** C3, at the input where the code leaves the claim: two tiles of 10 by
    10 and the single anchor (5, 5).  The one point is wrapped into a
    one-element list and the list is filled with [None], so only the
    first tile keeps the anchor; the second gets the default of the
    placement, (10 / 2, 10 * 0.1) = (5, 1), and not the shared anchor. *)
Theorem single_anchor_reaches_first_tile_only :
  let tiles := [solid 10 10 black; solid 10 10 black] in
  let anchor := {| x := 5; y := 5 |} in
  titles_anchors_list (AnchorsPoint anchor) (len tiles) = [Some anchor; None]
  /\ _prepare_default_titles_anchors tiles
       (titles_anchors_list (AnchorsPoint anchor) (len tiles)) "top"
     = [anchor; {| x := 5; y := 1 |}]
  /\ _prepare_default_titles_anchors tiles
       (titles_anchors_list (AnchorsPoint anchor) (len tiles)) "top"
     <> [anchor; anchor].
Proof.
  split; [reflexivity |].
  split; [vm_compute; reflexivity |].
  intros Heq.
  apply (f_equal (fun l => match nth_error l 1 with
                           | Some p => PrimFloat.eqb (y p) 5
                           | None => true
                           end)) in Heq.
  vm_compute in Heq. discriminate.
Qed.

(** ** Which exceptions a stage can raise *)

Lemma raises_only_Ok (P : exn -> bool) (A : Type) (a : A) :
  raises_only P (Ok a).
Proof.
  intros e He. discriminate.
Qed.

Lemma raises_only_Raise (P : exn -> bool) (A : Type) (e : exn) :
  P e = true -> raises_only P (@Raise A e).
Proof.
  intros HP e' He'. injection He' as <-. exact HP.
Qed.

Lemma raises_only_bind (P : exn -> bool) (A B : Type) (r : result A)
  (k : A -> result B) :
  raises_only P r -> (forall a, raises_only P (k a)) ->
  raises_only P (bind r k).
Proof.
  intros Hr Hk e He. destruct r as [a | e']; cbn in He.
  - exact (Hk a e He).
  - injection He as <-. apply Hr. reflexivity.
Qed.

Lemma raises_only_mapM (P : exn -> bool) (A B : Type) (f : A -> result B)
  (l : list A) :
  (forall a, raises_only P (f a)) -> raises_only P (mapM f l).
Proof.
  intros Hf. induction l as [| a l IH]; cbn [mapM].
  - apply raises_only_Ok.
  - apply raises_only_bind; [apply Hf |]. intros b.
    apply raises_only_bind; [exact IH |]. intros bs. apply raises_only_Ok.
Qed.

Lemma np_full_raises (h w : Z) (c : pixel) :
  raises_only composer_error (np_full h w c).
Proof.
  unfold np_full. destruct ((h <? 0) || (w <? 0));
    [apply raises_only_Raise; reflexivity | apply raises_only_Ok].
Qed.

Lemma np_concatenate_axis1_raises (l : list ndarray) :
  raises_only composer_error (np_concatenate_axis1 l).
Proof.
  unfold np_concatenate_axis1. destruct l as [| a rest];
    [apply raises_only_Raise; reflexivity |].
  destruct (forallb _ rest);
    [apply raises_only_Ok | apply raises_only_Raise; reflexivity].
Qed.

Lemma np_concatenate_axis0_raises (l : list ndarray) :
  raises_only composer_error (np_concatenate_axis0 l).
Proof.
  unfold np_concatenate_axis0. destruct l as [| a rest];
    [apply raises_only_Raise; reflexivity |].
  destruct (forallb _ rest);
    [apply raises_only_Ok | apply raises_only_Raise; reflexivity].
Qed.

Lemma merge_tiles_elements_raises (tiles_elements : list (list ndarray))
  (grid_size single_tile_size : Z * Z) (tile_margin : Z)
  (tile_margin_color : pixel) :
  raises_only composer_error
    (_merge_tiles_elements tiles_elements grid_size single_tile_size
       tile_margin tile_margin_color).
Proof.
  unfold _merge_tiles_elements.
  apply raises_only_bind; [apply np_full_raises |]. intros vp.
  apply raises_only_bind.
  { apply raises_only_mapM. intros row. apply np_concatenate_axis1_raises. }
  intros merged. apply raises_only_bind.
  { destruct merged; [apply raises_only_Raise; reflexivity | apply raises_only_Ok]. }
  intros row_width. apply raises_only_bind; [apply np_full_raises |]. intros hp.
  apply raises_only_bind; [apply np_concatenate_axis0_raises |]. intros out.
  apply raises_only_Ok.
Qed.

Lemma append_fillers_raises (k : nat) (filler : result ndarray)
  (row : list ndarray) :
  raises_only composer_error filler ->
  raises_only composer_error (append_fillers k filler row).
Proof.
  intros Hf. revert row. induction k as [| k IH]; intros row; cbn [append_fillers].
  - apply raises_only_Ok.
  - apply raises_only_bind; [exact Hf |]. intros f. apply IH.
Qed.

Lemma append_filler_rows_raises (k : nat) (filler : result ndarray)
  (columns : Z) (rows : list (list ndarray)) :
  raises_only composer_error filler ->
  raises_only composer_error (append_filler_rows k filler columns rows).
Proof.
  intros Hf. revert rows. induction k as [| k IH]; intros rows;
    cbn [append_filler_rows].
  - apply raises_only_Ok.
  - apply raises_only_bind; [exact Hf |]. intros f. apply IH.
Qed.

Lemma draw_texts_raises `{Primitives} (images : list ndarray)
  (titles : option (list (option string)))
  (titles_anchors : list (option Point)) (titles_color : pixel)
  (titles_scale : option float) (titles_thickness titles_padding : Z)
  (titles_text_font : Z) (titles_background_color : pixel)
  (default_title_placement : string) :
  raises_only composer_error
    (_draw_texts images titles titles_anchors titles_color titles_scale
       titles_thickness titles_padding titles_text_font
       titles_background_color default_title_placement).
Proof.
  unfold _draw_texts. destruct titles as [ts |]; [| apply raises_only_Ok].
  apply raises_only_bind; [| intros s; apply raises_only_Ok].
  destruct titles_scale; [apply raises_only_Ok |].
  destruct images as [| image0 images];
    [apply raises_only_Raise; reflexivity |].
  destruct (shape image0). apply raises_only_Ok.
Qed.

Lemma generate_tiles_raises `{Primitives} (images : list ndarray)
  (grid_size single_tile_size : Z * Z) (tile_padding_color : pixel)
  (tile_margin : Z) (tile_margin_color : pixel)
  (titles : option (list (option string)))
  (titles_anchors : list (option Point)) (titles_color : pixel)
  (titles_scale : option float) (titles_thickness titles_padding : Z)
  (titles_text_font : Z) (titles_background_color : pixel)
  (default_title_placement : string) :
  raises_only composer_error
    (_generate_tiles images grid_size single_tile_size tile_padding_color
       tile_margin tile_margin_color titles titles_anchors titles_color
       titles_scale titles_thickness titles_padding titles_text_font
       titles_background_color default_title_placement).
Proof.
  unfold _generate_tiles.
  apply raises_only_bind; [apply draw_texts_raises |]. intros images'.
  destruct grid_size as [rows columns].
  assert (Hfiller : raises_only composer_error
                      (_generate_color_image single_tile_size tile_padding_color))
    by apply np_full_raises.
  apply raises_only_bind.
  { destruct (rev (create_batches images' columns)) as [| last_row front];
      [apply raises_only_Raise; reflexivity |].
    apply raises_only_bind; [apply append_fillers_raises, Hfiller |].
    intros row. apply raises_only_Ok. }
  intros tiles_elements.
  apply raises_only_bind; [apply append_filler_rows_raises, Hfiller |].
  intros tiles_elements'. apply merge_tiles_elements_raises.
Qed.

(** ** [create_tiles]: the stages and their errors *)

Lemma len_images_to_cv2 (images : list ImageType) :
  len (images_to_cv2 images) = len images.
Proof.
  unfold len, images_to_cv2. rewrite length_map. reflexivity.
Qed.

Lemma len_nonempty (A : Type) (l : list A) : l <> [] -> (len l =? 0) = false.
Proof.
  intros Hne. destruct l; [congruence |]. reflexivity.
Qed.

Lemma create_tiles_stages `{Primitives} (images : list ImageType)
  (args : tiles_args) (size : Z * Z) (tiles : list ndarray) (r c : Z) :
  images <> [] ->
  resolved_tile_size images args = Ok size ->
  letterboxed_tiles images args size = Ok tiles ->
  _establish_grid_size (images_to_cv2 images) (grid_size args) = Ok (r, c) ->
  (r * c < len images ->
   create_tiles images args = Raise (GridCapacityError (len images) (r, c)))
  /\ (len images <= r * c ->
      raises_only composer_error (create_tiles images args)).
Proof.
  intros Hne Hsize Htiles Hgrid.
  unfold resolved_tile_size in Hsize. unfold letterboxed_tiles in Htiles.
  unfold create_tiles. rewrite (len_nonempty Hne). cbv zeta.
  rewrite Hsize. cbn [bind]. rewrite Htiles. cbn [bind].
  rewrite Hgrid. cbn [bind fst snd]. rewrite len_images_to_cv2.
  split; intros Hcap.
  - destruct (Z.ltb_spec (r * c) (len images)); [reflexivity | lia].
  - destruct (Z.ltb_spec (r * c) (len images)); [lia |].
    apply raises_only_bind; [apply generate_tiles_raises |].
    intros out. destruct (String.eqb _ "pillow"); apply raises_only_Ok.
Qed.

(** C8, as amended. Once the input is not empty, the tile size is
    resolved, every image is letterboxed and the grid is resolved to
    [(rows, columns)], [create_tiles] fails with the grid-capacity error
    exactly when [rows * columns < n_images]; so it does for two images
    and the explicit grid (1, 1); and a call that fails returns no
    raster. *)
Theorem create_tiles_capacity_error `{Primitives} (images : list ImageType)
  (args : tiles_args) (size : Z * Z) (tiles : list ndarray) (rows columns : Z) :
  images <> [] ->
  resolved_tile_size images args = Ok size ->
  letterboxed_tiles images args size = Ok tiles ->
  _establish_grid_size (images_to_cv2 images) (grid_size args)
  = Ok (rows, columns) ->
  ((exists n g, create_tiles images args = Raise (GridCapacityError n g))
   <-> rows * columns < len images)
  /\ (rows * columns < len images ->
      create_tiles images args
      = Raise (GridCapacityError (len images) (rows, columns)))
  /\ (len images = 2 -> grid_size args = Some (Some 1, Some 1) ->
      create_tiles images args = Raise (GridCapacityError 2 (1, 1)))
  /\ (forall e, create_tiles images args = Raise e ->
      forall out, create_tiles images args <> Ok out).
Proof.
  intros Hne Hsize Htiles Hgrid.
  destruct (create_tiles_stages args Hne Hsize Htiles Hgrid) as (Hlt & Hge).
  split; [split |]; [| | split; [exact Hlt | split]].
  - intros (n & g & Hraise).
    destruct (Z.lt_ge_cases (rows * columns) (len images)) as [Hc | Hc];
      [exact Hc |].
    specialize (Hge Hc _ Hraise). discriminate.
  - intros Hc. eauto.
  - intros Hlen Hg. rewrite Hg in Hgrid. cbn in Hgrid.
    injection Hgrid as <- <-. rewrite <- Hlen. apply Hlt. lia.
  - intros e He out Hout. congruence.
Qed.

Lemma create_tiles_capacity_error_witness :
  let images := [NdArray (solid 2 2 black); NdArray (solid 2 2 black)] in
  let args := example_args (Some (Some 1, Some 1)) None "avg" in
  ((exists n g, create_tiles images args = Raise (GridCapacityError n g))
   <-> 1 * 1 < len images)
  /\ (1 * 1 < len images ->
      create_tiles images args = Raise (GridCapacityError (len images) (1, 1)))
  /\ (len images = 2 -> grid_size args = Some (Some 1, Some 1) ->
      create_tiles images args = Raise (GridCapacityError 2 (1, 1)))
  /\ (forall e, create_tiles images args = Raise e ->
      forall out, create_tiles images args <> Ok out).
Proof.
  apply (@create_tiles_capacity_error sample_primitives
           [NdArray (solid 2 2 black); NdArray (solid 2 2 black)]
           (example_args (Some (Some 1, Some 1)) None "avg")
           (2, 2) [solid 2 2 black; solid 2 2 black] 1 1).
  - discriminate.
  - vm_compute; reflexivity.
  - vm_compute; reflexivity.
  - reflexivity.
Defined.

(** C8 as stated fails: two images and the grid (1, 1), which cannot hold
    them, with an unknown scaling mode.  The call fails, but with the
    invalid-scaling-mode error, raised before the grid is looked at. *)
Lemma create_tiles_capacity_error_preempted :
  let images := [NdArray (solid 2 2 black); NdArray (solid 2 2 black)] in
  let args := example_args (Some (Some 1, Some 1)) None "median" in
  _establish_grid_size (images_to_cv2 images) (grid_size args) = Ok (1, 1)
  /\ 1 * 1 < len images
  /\ create_tiles images args = Raise (InvalidScalingModeError "median")
  /\ ~ (exists n g, create_tiles images args = Raise (GridCapacityError n g)).
Proof.
  cbv zeta. split; [reflexivity |]. split; [reflexivity |].
  assert (Hraise : create_tiles
                     [NdArray (solid 2 2 black); NdArray (solid 2 2 black)]
                     (example_args (Some (Some 1, Some 1)) None "median")
                   = Raise (InvalidScalingModeError "median"))
    by (vm_compute; reflexivity).
  split; [exact Hraise |].
  intros (n & g & Hcap). rewrite Hraise in Hcap. discriminate.
Qed.

(** ** Tile size *)

Lemma fold_left_min_spec (l : list Z) (a : Z) :
  is_minimum (fold_left Z.min l a) (a :: l).
Proof.
  revert a; induction l as [| b l IH]; intros a; cbn [fold_left].
  - split; [left; reflexivity |]. intros v [<- | []]. lia.
  - destruct (IH (Z.min a b)) as (Hin & Hle). split.
    + destruct Hin as [Hin | Hin]; [| right; right; exact Hin].
      rewrite <- Hin. destruct (Z.min_spec a b) as [[_ ->] | [_ ->]];
        [left | right; left]; reflexivity.
    + intros v Hv.
      pose proof (Hle (Z.min a b) (or_introl eq_refl)) as Hab.
      destruct Hv as [<- | [<- | Hv]]; [lia | lia |].
      apply Hle. right; exact Hv.
Qed.

Lemma fold_left_max_spec (l : list Z) (a : Z) :
  is_maximum (fold_left Z.max l a) (a :: l).
Proof.
  revert a; induction l as [| b l IH]; intros a; cbn [fold_left].
  - split; [left; reflexivity |]. intros v [<- | []]. lia.
  - destruct (IH (Z.max a b)) as (Hin & Hle). split.
    + destruct Hin as [Hin | Hin]; [| right; right; exact Hin].
      rewrite <- Hin. destruct (Z.max_spec a b) as [[_ ->] | [_ ->]];
        [right; left | left]; reflexivity.
    + intros v Hv.
      pose proof (Hle (Z.max a b) (or_introl eq_refl)) as Hab.
      destruct Hv as [<- | [<- | Hv]]; [lia | lia |].
      apply Hle. right; exact Hv.
Qed.

Lemma fold_left_add_Zsum (l : list Z) (a : Z) :
  fold_left Z.add l a = a + Zsum l.
Proof.
  revert a; induction l as [| b l IH]; intros a; cbn [fold_left Zsum fold_right].
  - lia.
  - rewrite IH. unfold Zsum. lia.
Qed.

Lemma py_round_div_nearest (s n : Z) :
  0 < n -> 2 * Z.abs (py_round_div s n * n - s) <= n.
Proof.
  intros Hn. unfold py_round_div.
  pose proof (Z.div_mod s n ltac:(lia)) as Hdm.
  pose proof (Z.mod_pos_bound s n Hn) as Hmod.
  destruct (Z.ltb_spec (2 * (s mod n)) n); [lia |].
  destruct (Z.ltb_spec n (2 * (s mod n))); [lia |].
  destruct (Z.even (s / n)); lia.
Qed.

Lemma aggregate_images_shape_unknown (images : list ndarray) (mode : string) :
  mode <> "min" -> mode <> "max" -> mode <> "avg" ->
  _aggregate_images_shape images mode = Raise (InvalidScalingModeError mode).
Proof.
  intros Hmin Hmax Havg. unfold _aggregate_images_shape, SHAPE_AGGREGATION_FUN.
  cbn [dict_get].
  apply String.eqb_neq in Hmin, Hmax, Havg. rewrite Hmin, Hmax, Havg.
  reflexivity.
Qed.

Lemma create_tiles_resolved_size `{Primitives} (images : list ImageType)
  (args : tiles_args) (size : Z * Z) :
  resolved_tile_size images args = Ok size ->
  create_tiles images args
  = create_tiles images (set_single_tile_size size args).
Proof.
  intros Hsize. unfold resolved_tile_size in Hsize. unfold create_tiles.
  cbn [set_single_tile_size grid_size single_tile_size tile_scaling
       tile_padding_color tile_margin tile_margin_color return_type titles
       titles_anchors titles_color titles_scale titles_thickness
       titles_padding titles_text_font titles_background_color
       default_title_placement].
  rewrite Hsize. reflexivity.
Qed.

(** C9, as amended. With a non-empty input and no explicit tile size, an
    unknown scaling mode makes [create_tiles] fail with the
    invalid-scaling-mode error; with a known mode the tile size it works
    with is (aggregate of all widths, aggregate of all heights), the
    aggregate being the minimum, the maximum, or an integer nearest to
    the mean. *)
Theorem create_tiles_scaling_mode `{Primitives} (images : list ImageType)
  (args : tiles_args) :
  images <> [] -> single_tile_size args = None ->
  let widths := map (fun i => snd (shape i)) (images_to_cv2 images) in
  let heights := map (fun i => fst (shape i)) (images_to_cv2 images) in
  (tile_scaling args <> "min" -> tile_scaling args <> "max" ->
   tile_scaling args <> "avg" ->
   create_tiles images args
   = Raise (InvalidScalingModeError (tile_scaling args)))
  /\ (tile_scaling args = "min" ->
      exists w h, is_minimum w widths /\ is_minimum h heights
                  /\ create_tiles images args
                     = create_tiles images (set_single_tile_size (w, h) args))
  /\ (tile_scaling args = "max" ->
      exists w h, is_maximum w widths /\ is_maximum h heights
                  /\ create_tiles images args
                     = create_tiles images (set_single_tile_size (w, h) args))
  /\ (tile_scaling args = "avg" ->
      exists w h, is_nearest_to_mean w widths /\ is_nearest_to_mean h heights
                  /\ create_tiles images args
                     = create_tiles images (set_single_tile_size (w, h) args)).
Proof.
  intros Hne Hnone widths heights.
  assert (Himgs : exists i0 rest, images_to_cv2 images = i0 :: rest).
  { destruct images as [| i images]; [congruence |]. cbn. eauto. }
  destruct Himgs as (i0 & rest & Himgs).
  split; [| split; [| split]].
  - intros Hmin Hmax Havg. unfold create_tiles.
    rewrite (len_nonempty Hne). cbv zeta. rewrite Hnone.
    rewrite aggregate_images_shape_unknown by assumption. reflexivity.
  - intros Hmode.
    exists (fold_left Z.min (map (fun i => snd (shape i)) rest) (snd (shape i0))),
      (fold_left Z.min (map (fun i => fst (shape i)) rest) (fst (shape i0))).
    subst widths heights. rewrite Himgs. cbn [map].
    split; [apply fold_left_min_spec |]. split; [apply fold_left_min_spec |].
    apply create_tiles_resolved_size. unfold resolved_tile_size.
    rewrite Hnone, Hmode, Himgs. reflexivity.
  - intros Hmode.
    exists (fold_left Z.max (map (fun i => snd (shape i)) rest) (snd (shape i0))),
      (fold_left Z.max (map (fun i => fst (shape i)) rest) (fst (shape i0))).
    subst widths heights. rewrite Himgs. cbn [map].
    split; [apply fold_left_max_spec |]. split; [apply fold_left_max_spec |].
    apply create_tiles_resolved_size. unfold resolved_tile_size.
    rewrite Hnone, Hmode, Himgs. reflexivity.
  - intros Hmode.
    assert (Hmean : forall l : list Z, l <> [] ->
              is_nearest_to_mean (py_round_div (fold_left Z.add l 0) (len l)) l).
    { intros l Hl. unfold is_nearest_to_mean.
      rewrite fold_left_add_Zsum, Z.add_0_l.
      apply py_round_div_nearest. destruct l; [congruence | unfold len; cbn; lia]. }
    exists (py_round_div (fold_left Z.add widths 0) (len widths)),
      (py_round_div (fold_left Z.add heights 0) (len heights)).
    split; [apply Hmean; subst widths; rewrite Himgs; discriminate |].
    split; [apply Hmean; subst heights; rewrite Himgs; discriminate |].
    apply create_tiles_resolved_size. unfold resolved_tile_size.
    subst widths heights. rewrite Hnone, Hmode, Himgs. reflexivity.
Qed.

Lemma create_tiles_scaling_mode_witness :
  let images := [NdArray (solid 2 4 black); PilImage (solid 4 2 black)] in
  let args := example_args None None "median" in
  let widths := map (fun i => snd (shape i)) (images_to_cv2 images) in
  let heights := map (fun i => fst (shape i)) (images_to_cv2 images) in
  (tile_scaling args <> "min" -> tile_scaling args <> "max" ->
   tile_scaling args <> "avg" ->
   create_tiles images args
   = Raise (InvalidScalingModeError (tile_scaling args)))
  /\ (tile_scaling args = "min" ->
      exists w h, is_minimum w widths /\ is_minimum h heights
                  /\ create_tiles images args
                     = create_tiles images (set_single_tile_size (w, h) args))
  /\ (tile_scaling args = "max" ->
      exists w h, is_maximum w widths /\ is_maximum h heights
                  /\ create_tiles images args
                     = create_tiles images (set_single_tile_size (w, h) args))
  /\ (tile_scaling args = "avg" ->
      exists w h, is_nearest_to_mean w widths /\ is_nearest_to_mean h heights
                  /\ create_tiles images args
                     = create_tiles images (set_single_tile_size (w, h) args)).
Proof.
  apply (@create_tiles_scaling_mode sample_primitives
           [NdArray (solid 2 4 black); PilImage (solid 4 2 black)]
           (example_args None None "median")).
  - discriminate.
  - reflexivity.
Defined.

(** C9 as stated fails: with an explicit tile size the scaling mode is
    never looked at, and a call with the unknown mode "median" returns
    the mosaic. *)
Lemma create_tiles_unknown_mode_ignored :
  let images := [NdArray (solid 2 2 (1, 2, 3))] in
  let args := example_args None (Some (2, 2)) "median" in
  tile_scaling args <> "min" /\ tile_scaling args <> "max"
  /\ tile_scaling args <> "avg"
  /\ create_tiles images args = Ok (NdArray (solid 2 2 (1, 2, 3))).
Proof.
  cbv zeta. split; [discriminate |]. split; [discriminate |].
  split; [discriminate |]. vm_compute; reflexivity.
Qed.

(** * Further properties *)

(** ** Pixels of two rasters *)

Lemma rows_ext (W : nat) (R R' : list (list pixel)) :
  Forall (fun r => length r = W) R -> Forall (fun r => length r = W) R' ->
  length R = length R' ->
  (forall i j, (i < length R)%nat -> (j < W)%nat ->
               rows_at R i j = rows_at R' i j) ->
  R = R'.
Proof.
  intros HR HR' Hlen Hpix. apply nth_error_ext. intros i.
  destruct (Nat.lt_ge_cases i (length R)) as [Hi | Hi].
  - destruct (nth_error R i) as [r |] eqn:Hr;
      [| apply nth_error_None in Hr; lia].
    destruct (nth_error R' i) as [r' |] eqn:Hr';
      [| apply nth_error_None in Hr'; lia].
    f_equal. apply nth_error_ext. intros j.
    pose proof (@Forall_nth_error _ _ _ _ _ HR Hr) as Hlr.
    pose proof (@Forall_nth_error _ _ _ _ _ HR' Hr') as Hlr'.
    cbn beta in Hlr, Hlr'.
    destruct (Nat.lt_ge_cases j W) as [Hj | Hj].
    + specialize (Hpix i j Hi Hj). unfold rows_at in Hpix.
      rewrite Hr, Hr' in Hpix. exact Hpix.
    + rewrite (proj2 (nth_error_None r j)), (proj2 (nth_error_None r' j)) by lia.
      reflexivity.
  - rewrite (proj2 (nth_error_None R i)), (proj2 (nth_error_None R' i)) by lia.
    reflexivity.
Qed.

(** A raster is its width and its rows. *)
Lemma ndarray_ext (a b : ndarray) :
  well_shaped a -> well_shaped b -> shape a = shape b ->
  (forall i j, (i < nrows a)%nat -> (j < ncols a)%nat ->
               rows_at (nd_rows a) i j = rows_at (nd_rows b) i j) ->
  a = b.
Proof.
  intros Ha Hb Hs Hpix. destruct a as [wa Ra], b as [wb Rb].
  unfold shape, nrows, well_shaped in *; cbn [ncols nd_rows] in *.
  injection Hs as Hr Hc. apply Nat2Z.inj in Hr, Hc. subst wb.
  f_equal. apply (@rows_ext wa); auto.
Qed.

(** ** [crop_image] *)

Lemma nth_error_py_slice (A : Type) (l : list A) (s e : Z) (k : nat) :
  0 <= s <= e ->
  nth_error (py_slice l s e) k
  = if Z.of_nat k <? e - s then nth_error l (Z.to_nat s + k) else None.
Proof.
  intros Hse. unfold py_slice, slice_index.
  destruct (Z.ltb_spec s 0); [lia |]. destruct (Z.ltb_spec e 0); [lia |].
  rewrite nth_error_firstn, nth_error_skipn.
  destruct (Nat.ltb_spec k (Z.to_nat (Z.min e (len l) - Z.min s (len l))))
    as [Hk | Hk];
    destruct (Z.ltb_spec (Z.of_nat k) (e - s)) as [Hk' | Hk'].
  - f_equal. lia.
  - lia.
  - symmetry. apply nth_error_None. unfold len in *. lia.
  - reflexivity.
Qed.

Lemma length_py_slice (A : Type) (l : list A) (s e : Z) :
  0 <= s <= e ->
  Z.of_nat (length (py_slice l s e)) = Z.min e (len l) - Z.min s (len l).
Proof.
  intros Hse. unfold py_slice, slice_index.
  destruct (Z.ltb_spec s 0); [lia |]. destruct (Z.ltb_spec e 0); [lia |].
  rewrite length_firstn, length_skipn. unfold len. lia.
Qed.

Lemma getslice_well_shaped (image : ndarray) (y1 y2 x1 x2 : Z) :
  well_shaped image -> 0 <= x1 <= x2 ->
  well_shaped (np_getslice image y1 y2 x1 x2).
Proof.
  intros Hws Hx. unfold well_shaped, np_getslice; cbn [nd_rows ncols].
  apply Forall_forall. intros r Hr. apply in_map_iff in Hr as (r0 & <- & Hr0).
  assert (Hlen : length r0 = ncols image).
  { unfold py_slice in Hr0.
    assert (Hall : Forall (fun r => length r = ncols image)
                     (firstn (Z.to_nat (slice_index (len (nd_rows image)) y2
                                        - slice_index (len (nd_rows image)) y1))
                        (skipn (Z.to_nat (slice_index (len (nd_rows image)) y1))
                           (nd_rows image))))
      by apply Forall_firstn, Forall_skipn, Hws.
    rewrite Forall_forall in Hall. apply Hall, Hr0. }
  apply Nat2Z.inj. rewrite length_py_slice by lia.
  unfold len. rewrite Hlen. unfold slice_index.
  destruct (Z.ltb_spec x1 0); [lia |]. destruct (Z.ltb_spec x2 0); lia.
Qed.

Lemma getslice_shape_clipped (image : ndarray) (y1 y2 x1 x2 : Z) :
  0 <= y1 <= y2 -> 0 <= x1 <= x2 ->
  shape (np_getslice image y1 y2 x1 x2)
  = (Z.min y2 (fst (shape image)) - Z.min y1 (fst (shape image)),
     Z.min x2 (snd (shape image)) - Z.min x1 (snd (shape image))).
Proof.
  intros Hy Hx. unfold shape at 1. unfold nrows, np_getslice; cbn [nd_rows ncols].
  rewrite length_map, length_py_slice by lia.
  unfold shape, nrows, len; cbn [fst snd]. f_equal.
  unfold slice_index.
  destruct (Z.ltb_spec x1 0); [lia |]. destruct (Z.ltb_spec x2 0); lia.
Qed.

Lemma getslice_rows_at (image : ndarray) (y1 y2 x1 x2 : Z) (i j : nat) :
  0 <= y1 <= y2 -> 0 <= x1 <= x2 ->
  Z.of_nat i < y2 - y1 -> Z.of_nat j < x2 - x1 ->
  rows_at (nd_rows (np_getslice image y1 y2 x1 x2)) i j
  = rows_at (nd_rows image) (Z.to_nat y1 + i) (Z.to_nat x1 + j).
Proof.
  intros Hy Hx Hi Hj. unfold rows_at, np_getslice; cbn [nd_rows].
  rewrite nth_error_map, nth_error_py_slice by lia.
  destruct (Z.ltb_spec (Z.of_nat i) (y2 - y1)); [| lia].
  destruct (nth_error (nd_rows image) (Z.to_nat y1 + i)) as [r |];
    cbn [option_map]; [| reflexivity].
  rewrite nth_error_py_slice by lia.
  destruct (Z.ltb_spec (Z.of_nat j) (x2 - x1)); [reflexivity | lia].
Qed.

(** X1. [crop_image] on a box whose rounded corners are not negative
    and in order: the crop is the part of the box that lies inside the
    image.  Its shape is that of the box clipped to the image, it
    satisfies the buffer invariant, and its pixel [(y, x)] is the image's
    pixel [(y1 + y, x1 + x)].  The corners are the coordinates rounded
    to the nearest integer, halves to the even one. *)
Theorem crop_image_box (image : ndarray) (fx1 fy1 fx2 fy2 : float) :
  let x1 := np_round_astype_int fx1 in
  let y1 := np_round_astype_int fy1 in
  let x2 := np_round_astype_int fx2 in
  let y2 := np_round_astype_int fy2 in
  let crop := crop_image image (fx1, fy1, fx2, fy2) in
  well_shaped image -> 0 <= x1 <= x2 -> 0 <= y1 <= y2 ->
  shape crop = (Z.min y2 (fst (shape image)) - Z.min y1 (fst (shape image)),
                Z.min x2 (snd (shape image)) - Z.min x1 (snd (shape image)))
  /\ well_shaped crop
  /\ forall y x, 0 <= y < y2 - y1 -> 0 <= x < x2 - x1 ->
       pixel_at crop y x = pixel_at image (y1 + y) (x1 + x).
Proof.
  intros x1 y1 x2 y2 crop Hws Hx Hy. subst crop. unfold crop_image.
  fold x1 y1 x2 y2.
  split; [apply getslice_shape_clipped; lia |].
  split; [apply getslice_well_shaped; [exact Hws | lia] |].
  intros y x Hyb Hxb.
  destruct (Z_of_nat_complete y ltac:(lia)) as (i & ->).
  destruct (Z_of_nat_complete x ltac:(lia)) as (j & ->).
  rewrite pixel_at_rows_at, getslice_rows_at by lia.
  replace (y1 + Z.of_nat i) with (Z.of_nat (Z.to_nat y1 + i)) by lia.
  replace (x1 + Z.of_nat j) with (Z.of_nat (Z.to_nat x1 + j)) by lia.
  rewrite pixel_at_rows_at. reflexivity.
Qed.

Lemma crop_image_box_witness :
  let image := {| ncols := 3;
                  nd_rows := [[(1, 1, 1); (2, 2, 2); (3, 3, 3)];
                              [(4, 4, 4); (5, 5, 5); (6, 6, 6)]] |} in
  let crop := crop_image image (0.5%float, 0.5%float, 2.5%float, 7%float) in
  shape crop = (Z.min 7 2 - Z.min 0 2, Z.min 2 3 - Z.min 0 3)
  /\ well_shaped crop
  /\ forall y x, 0 <= y < 7 - 0 -> 0 <= x < 2 - 0 ->
       pixel_at crop y x = pixel_at image (0 + y) (0 + x).
Proof.
  cbv zeta.
  apply (@crop_image_box
           {| ncols := 3;
              nd_rows := [[(1, 1, 1); (2, 2, 2); (3, 3, 3)];
                          [(4, 4, 4); (5, 5, 5); (6, 6, 6)]] |}
           0.5%float 0.5%float 2.5%float 7%float).
  - repeat constructor.
  - vm_compute. split; discriminate.
  - vm_compute. split; discriminate.
Defined.

Lemma getslice_negative_x (image : ndarray) (y1 y2 x1 x2 : Z) :
  well_shaped image ->
  - Z.of_nat (ncols image) <= x1 < 0 ->
  np_getslice image y1 y2 x1 x2
  = np_getslice image y1 y2 (Z.of_nat (ncols image) + x1) x2.
Proof.
  intros Hws Hx1.
  assert (Hidx : slice_index (Z.of_nat (ncols image)) x1
                 = slice_index (Z.of_nat (ncols image))
                     (Z.of_nat (ncols image) + x1)).
  { unfold slice_index.
    destruct (Z.ltb_spec x1 0); [| lia].
    destruct (Z.ltb_spec (Z.of_nat (ncols image) + x1) 0); lia. }
  unfold np_getslice. rewrite Hidx. f_equal.
  apply map_ext_in. intros r Hr.
  assert (Hlen : length r = ncols image).
  { unfold py_slice in Hr.
    assert (Hall : Forall (fun r => length r = ncols image)
                     (firstn (Z.to_nat (slice_index (len (nd_rows image)) y2
                                        - slice_index (len (nd_rows image)) y1))
                        (skipn (Z.to_nat (slice_index (len (nd_rows image)) y1))
                           (nd_rows image))))
      by apply Forall_firstn, Forall_skipn, Hws.
    rewrite Forall_forall in Hall. apply Hall, Hr. }
  unfold py_slice, len. rewrite Hlen, Hidx. reflexivity.
Qed.

(** X2. A box that starts left of the image is not clipped on that
    side.  A rounded [x1] in [-width, 0) is an index counted from the
    right edge, so the crop holds the columns [width + x1] to [x2] of
    the image, none of them when [x2 <= width + x1], and not the columns
    0 to [x2]. *)
Theorem crop_image_negative_left (image : ndarray) (fx1 fy1 fx2 fy2 : float) :
  let x1 := np_round_astype_int fx1 in
  let y1 := np_round_astype_int fy1 in
  let x2 := np_round_astype_int fx2 in
  let y2 := np_round_astype_int fy2 in
  let width := snd (shape image) in
  let crop := crop_image image (fx1, fy1, fx2, fy2) in
  well_shaped image -> - width <= x1 < 0 -> 0 <= x2 -> 0 <= y1 <= y2 ->
  snd (shape crop) = Z.max 0 (Z.min x2 width - (width + x1))
  /\ forall y x, 0 <= y < y2 - y1 -> 0 <= x < x2 - (width + x1) ->
       pixel_at crop y x = pixel_at image (y1 + y) (width + x1 + x).
Proof.
  intros x1 y1 x2 y2 width crop Hws Hx1 Hx2 Hy. subst crop. unfold crop_image.
  fold x1 y1 x2 y2. unfold shape in width; cbn [snd] in width.
  rewrite getslice_negative_x by (fold width; lia || exact Hws).
  fold width. split.
  - unfold shape, np_getslice; cbn [snd ncols]. fold width. unfold slice_index.
    destruct (Z.ltb_spec x2 0); [lia |].
    destruct (Z.ltb_spec (width + x1) 0); lia.
  - intros y x Hyb Hxb.
    destruct (Z_of_nat_complete y ltac:(lia)) as (i & ->).
    destruct (Z_of_nat_complete x ltac:(lia)) as (j & ->).
    rewrite pixel_at_rows_at, getslice_rows_at by lia.
    replace (y1 + Z.of_nat i) with (Z.of_nat (Z.to_nat y1 + i)) by lia.
    replace (width + x1 + Z.of_nat j)
      with (Z.of_nat (Z.to_nat (width + x1) + j)) by lia.
    rewrite pixel_at_rows_at. reflexivity.
Qed.

Lemma crop_image_negative_left_witness :
  let image := {| ncols := 3;
                  nd_rows := [[(1, 1, 1); (2, 2, 2); (3, 3, 3)];
                              [(4, 4, 4); (5, 5, 5); (6, 6, 6)]] |} in
  let crop := crop_image image ((-1)%float, 0%float, 2%float, 2%float) in
  snd (shape crop) = Z.max 0 (Z.min 2 3 - (3 + -1))
  /\ forall y x, 0 <= y < 2 - 0 -> 0 <= x < 2 - (3 + -1) ->
       pixel_at crop y x = pixel_at image (0 + y) (3 + -1 + x).
Proof.
  cbv zeta.
  apply (@crop_image_negative_left
           {| ncols := 3;
              nd_rows := [[(1, 1, 1); (2, 2, 2); (3, 3, 3)];
                          [(4, 4, 4); (5, 5, 5); (6, 6, 6)]] |}
           (-1)%float 0%float 2%float 2%float).
  - repeat constructor.
  - vm_compute. split; [discriminate | reflexivity].
  - vm_compute. discriminate.
  - vm_compute. split; discriminate.
Defined.

(** ** [place_image], and [crop_image] with it *)

(** What [place_image] returns, in rows: the scene itself, or the scene
    with the overlap overwritten. *)
Lemma place_image_rows (scene image : ndarray) (ax ay : Z) :
  well_shaped scene -> well_shaped image ->
  exists scene',
    place_image scene image (ax, ay) = Ok scene'
    /\ shape scene' = shape scene
    /\ well_shaped scene'
    /\ forall i j, (i < nrows scene)%nat -> (j < ncols scene)%nat ->
         rows_at (nd_rows scene') i j
         = if covers image ax ay (Z.of_nat i) (Z.of_nat j)
           then rows_at (nd_rows image) (Z.to_nat (Z.of_nat i - ay))
                  (Z.to_nat (Z.of_nat j - ax))
           else rows_at (nd_rows scene) i j.
Proof.
  intros Hscene Himage.
  assert (Hdec : outside scene image ax ay \/ ~ outside scene image ax ay)
    by (unfold outside; lia).
  destruct Hdec as [Hout | Hin].
  - exists scene. rewrite place_image_out by exact Hout.
    repeat split; auto.
    intros i j Hi Hj.
    replace (covers image ax ay (Z.of_nat i) (Z.of_nat j)) with false;
      [reflexivity |].
    symmetry. apply not_true_is_false. unfold covers.
    rewrite !andb_true_iff, !Z.leb_le, !Z.ltb_lt.
    unfold outside, shape in *; cbn [fst snd] in *. lia.
  - destruct (place_image_in (scene := scene) (ax := ax) (ay := ay) Himage Hin)
      as (sy & ey & sx & ex & csy & csx & Hsy & Hey & Hsx & Hex & Hcsy & Hcsx
          & Hplace).
    rewrite Hplace. eexists. split; [reflexivity |].
    unfold outside, shape in Hin; cbn [fst snd] in Hin.
    assert (Hy : (sy <= ey <= length (nd_rows scene))%nat)
      by (fold (nrows scene); lia).
    assert (Hx : (sx <= ex <= ncols scene)%nat) by lia.
    assert (Hcy : (csy + (ey - sy) <= length (nd_rows image))%nat)
      by (fold (nrows image); lia).
    assert (Hcx : (csx + (ex - sx) <= ncols image)%nat) by lia.
    split; [| split].
    + unfold shape, nrows; cbn [nd_rows ncols].
      rewrite (overwrite_length _ _ csy csx Hy Hx Hcy Hcx). reflexivity.
    + unfold well_shaped; cbn [nd_rows ncols].
      exact (overwrite_well_shaped csy csx Hscene Himage Hy Hx Hcy Hcx).
    + intros i j Hi Hj. cbn [nd_rows].
      rewrite (overwrite_rows_at csy csx Hscene Himage Hy Hx Hcy Hcx)
        by (try fold (nrows scene); lia).
      assert (Hcov : covers image ax ay (Z.of_nat i) (Z.of_nat j)
                     = ((sy <=? i)%nat && (i <? ey)%nat
                        && (sx <=? j)%nat && (j <? ex)%nat)).
      { apply eq_true_iff_eq. unfold covers, shape; cbn [fst snd].
        rewrite !andb_true_iff, !Z.leb_le, !Z.ltb_lt, !Nat.leb_le, !Nat.ltb_lt.
        lia. }
      rewrite Hcov.
      destruct ((sy <=? i)%nat && (i <? ey)%nat
                && (sx <=? j)%nat && (j <? ex)%nat) eqn:Hc; [| reflexivity].
      rewrite !andb_true_iff, !Nat.leb_le, !Nat.ltb_lt in Hc.
      f_equal; lia.
Qed.

(** X4. [place_image] is idempotent: placing the same image at the same
    anchor on the scene it returned returns that scene again. *)
Theorem place_image_idempotent (scene image scene' : ndarray) (anchor : Z * Z) :
  well_shaped scene -> well_shaped image ->
  place_image scene image anchor = Ok scene' ->
  place_image scene' image anchor = Ok scene'.
Proof.
  intros Hscene Himage Hplace. destruct anchor as [ax ay].
  destruct (place_image_rows ax ay Hscene Himage)
    as (s1 & H1 & Hs1 & Hws1 & Hpix1).
  rewrite H1 in Hplace. injection Hplace as <-.
  destruct (place_image_rows ax ay Hws1 Himage)
    as (s2 & H2 & Hs2 & Hws2 & Hpix2).
  rewrite H2. f_equal. apply ndarray_ext; auto.
  intros i j Hi Hj.
  assert (Heq : nrows s1 = nrows scene /\ ncols s1 = ncols scene).
  { unfold shape in Hs1. injection Hs1 as Hr Hc. lia. }
  assert (Heq2 : nrows s2 = nrows s1 /\ ncols s2 = ncols s1).
  { unfold shape in Hs2. injection Hs2 as Hr Hc. lia. }
  rewrite Hpix2 by lia. rewrite Hpix1 by lia.
  destruct (covers image ax ay (Z.of_nat i) (Z.of_nat j)); reflexivity.
Qed.

Lemma place_image_idempotent_witness :
  place_image (solid 2 2 (9, 9, 9)) (solid 2 2 black) (1, -1)
  = Ok {| ncols := 2; nd_rows := [[(9, 9, 9); black]; [(9, 9, 9); (9, 9, 9)]] |}
  /\ place_image
       {| ncols := 2; nd_rows := [[(9, 9, 9); black]; [(9, 9, 9); (9, 9, 9)]] |}
       (solid 2 2 black) (1, -1)
     = Ok {| ncols := 2;
             nd_rows := [[(9, 9, 9); black]; [(9, 9, 9); (9, 9, 9)]] |}.
Proof.
  split; [reflexivity |].
  apply (@place_image_idempotent (solid 2 2 (9, 9, 9))).
  - apply solid_well_shaped.
  - apply solid_well_shaped.
  - reflexivity.
Defined.

(** X5. An image of the scene's shape placed at the origin replaces
    the whole scene: the result is the image. *)
Theorem place_image_whole_scene (scene image : ndarray) :
  well_shaped scene -> well_shaped image -> shape image = shape scene ->
  place_image scene image (0, 0) = Ok image.
Proof.
  intros Hscene Himage Hshape.
  destruct (place_image_rows 0 0 Hscene Himage)
    as (s1 & H1 & Hs1 & Hws1 & Hpix1).
  rewrite H1. f_equal. apply ndarray_ext; auto; [congruence |].
  intros i j Hi Hj.
  assert (Heq : nrows s1 = nrows scene /\ ncols s1 = ncols scene).
  { unfold shape in Hs1. injection Hs1 as Hr Hc. lia. }
  assert (Heq' : nrows image = nrows scene /\ ncols image = ncols scene).
  { unfold shape in Hshape. injection Hshape as Hr Hc. lia. }
  rewrite Hpix1 by lia.
  replace (covers image 0 0 (Z.of_nat i) (Z.of_nat j)) with true.
  - rewrite !Z.sub_0_r, !Nat2Z.id. reflexivity.
  - symmetry. unfold covers, shape; cbn [fst snd].
    rewrite !andb_true_iff, !Z.leb_le, !Z.ltb_lt. lia.
Qed.

Lemma place_image_whole_scene_witness :
  place_image (solid 2 3 (9, 9, 9)) (solid 2 3 black) (0, 0)
  = Ok (solid 2 3 black).
Proof.
  apply place_image_whole_scene.
  - apply solid_well_shaped.
  - apply solid_well_shaped.
  - reflexivity.
Defined.

(** X3. Cut and paste: the crop of a box with non-negative rounded
    corners, placed back at the corner [(x1, y1)] it was cut from, gives
    the image again. *)
Theorem crop_image_place_image_round_trip (image : ndarray)
  (fx1 fy1 fx2 fy2 : float) :
  let x1 := np_round_astype_int fx1 in
  let y1 := np_round_astype_int fy1 in
  let x2 := np_round_astype_int fx2 in
  let y2 := np_round_astype_int fy2 in
  well_shaped image -> 0 <= x1 <= x2 -> 0 <= y1 <= y2 ->
  place_image image (crop_image image (fx1, fy1, fx2, fy2)) (x1, y1) = Ok image.
Proof.
  intros x1 y1 x2 y2 Hws Hx Hy.
  set (crop := crop_image image (fx1, fy1, fx2, fy2)).
  assert (Hcrop : crop = np_getslice image y1 y2 x1 x2) by reflexivity.
  assert (Hcws : well_shaped crop)
    by (rewrite Hcrop; apply getslice_well_shaped; [exact Hws | lia]).
  assert (Hcs : shape crop
                = (Z.min y2 (fst (shape image)) - Z.min y1 (fst (shape image)),
                   Z.min x2 (snd (shape image)) - Z.min x1 (snd (shape image))))
    by (rewrite Hcrop; apply getslice_shape_clipped; lia).
  destruct (place_image_rows x1 y1 Hws Hcws)
    as (s1 & H1 & Hs1 & Hws1 & Hpix1).
  rewrite H1. f_equal. apply ndarray_ext; auto.
  intros i j Hi Hj.
  assert (Heq : nrows s1 = nrows image /\ ncols s1 = ncols image).
  { unfold shape in Hs1. injection Hs1 as Hr Hc. lia. }
  rewrite Hpix1 by lia.
  destruct (covers crop x1 y1 (Z.of_nat i) (Z.of_nat j)) eqn:Hcov;
    [| reflexivity].
  unfold covers in Hcov. rewrite Hcs in Hcov. cbn [fst snd] in Hcov.
  rewrite !andb_true_iff, !Z.leb_le, !Z.ltb_lt in Hcov.
  rewrite Hcrop, getslice_rows_at by lia.
  f_equal; lia.
Qed.

Lemma crop_image_place_image_round_trip_witness :
  let image := {| ncols := 3;
                  nd_rows := [[(1, 1, 1); (2, 2, 2); (3, 3, 3)];
                              [(4, 4, 4); (5, 5, 5); (6, 6, 6)]] |} in
  place_image image
    (crop_image image (0.5%float, 0.5%float, 2.5%float, 7%float)) (0, 0)
  = Ok image.
Proof.
  cbv zeta.
  apply (@crop_image_place_image_round_trip
           {| ncols := 3;
              nd_rows := [[(1, 1, 1); (2, 2, 2); (3, 3, 3)];
                          [(4, 4, 4); (5, 5, 5); (6, 6, 6)]] |}
           0.5%float 0.5%float 2.5%float 7%float).
  - repeat constructor.
  - vm_compute. split; discriminate.
  - vm_compute. split; discriminate.
Defined.

(** ** The grid and the errors of [create_tiles] *)

Lemma py_ceil_div_spec (n d : Z) :
  0 < d ->
  exists k, py_ceil_div n d = Ok k /\ d * (k - 1) < n <= d * k.
Proof.
  intros Hd. unfold py_ceil_div.
  destruct (Z.eqb_spec d 0); [lia |].
  eexists. split; [reflexivity |].
  pose proof (Z.div_mod (- n) d ltac:(lia)) as Hdm.
  pose proof (Z.mod_pos_bound (- n) d Hd) as Hmod.
  nia.
Qed.

Lemma negotiate_grid_size_fits (images : list ndarray) :
  images <> [] ->
  exists rows columns,
    _negotiate_grid_size images = Some (rows, columns)
    /\ 1 <= rows /\ 1 <= columns /\ len images <= rows * columns.
Proof.
  intros Hne.
  assert (Hn : 1 <= len images)
    by (destruct images; [congruence | unfold len; cbn [length]; lia]).
  unfold _negotiate_grid_size, MAX_COLUMNS_FOR_SINGLE_ROW_GRID.
  destruct (Z.leb_spec (len images) 3) as [Hle | Hgt].
  - exists 1, (len images). repeat split; lia.
  - destruct (ceil_sqrt_spec (n := len images) ltac:(lia)) as (Hs1 & Hs2 & Hs3).
    destruct (@trim_rows_spec (Z.to_nat (ceil_sqrt (len images)))
                (ceil_sqrt (len images)) (len images) ltac:(lia) ltac:(lia)
                (ceil_sqrt (len images)) ltac:(lia) ltac:(lia) ltac:(lia))
      as (r' & Htrim & Hr1 & Hr2 & Hr3).
    rewrite Htrim. exists r', (ceil_sqrt (len images)).
    repeat split; lia.
Qed.

(** X6. A grid with one dimension given.  When that dimension is 0 the
    division by it raises; when it is positive the other dimension is
    the least one with which the grid holds all the images (the same
    number whether it counts rows or columns). *)
Theorem establish_grid_size_one_dimension (images : list ndarray) (d : Z) :
  (d = 0 ->
   _establish_grid_size images (Some (Some d, None)) = Raise ZeroDivisionError
   /\ _establish_grid_size images (Some (None, Some d))
      = Raise ZeroDivisionError)
  /\ (0 < d ->
      exists k,
        _establish_grid_size images (Some (Some d, None)) = Ok (d, k)
        /\ _establish_grid_size images (Some (None, Some d)) = Ok (k, d)
        /\ len images <= d * k
        /\ d * (k - 1) < len images).
Proof.
  split.
  - intros ->. split; reflexivity.
  - intros Hd. destruct (@py_ceil_div_spec (len images) d Hd) as (k & Hk & Hb).
    exists k. cbn [_establish_grid_size]. rewrite Hk. cbn [bind].
    repeat split; lia.
Qed.

Lemma establish_grid_size_one_dimension_witness :
  exists k,
    _establish_grid_size (repeat (solid 1 1 black) 7) (Some (Some 3, None))
    = Ok (3, k)
    /\ _establish_grid_size (repeat (solid 1 1 black) 7) (Some (None, Some 3))
       = Ok (k, 3)
    /\ len (repeat (solid 1 1 black) 7) <= 3 * k
    /\ 3 * (k - 1) < len (repeat (solid 1 1 black) 7).
Proof.
  apply (proj2 (establish_grid_size_one_dimension
                  (repeat (solid 1 1 black) 7) 3)).
  lia.
Defined.

(** *** Which exceptions the stages before the composer raise *)

Lemma aspect_ratio_size_raises (image_shape desired_size : Z * Z) :
  raises_only letterbox_error (aspect_ratio_size image_shape desired_size).
Proof.
  unfold aspect_ratio_size.
  apply raises_only_bind.
  { unfold py_truediv. destruct (_ =? 0);
      [apply raises_only_Raise; reflexivity | apply raises_only_Ok]. }
  intros img_ratio. apply raises_only_bind.
  { unfold py_truediv. destruct (_ =? 0);
      [apply raises_only_Raise; reflexivity | apply raises_only_Ok]. }
  intros desired_ratio.
  assert (Hint : forall v, raises_only letterbox_error (py_int v)).
  { intros v. unfold py_int. destruct (Prim2SF v);
      try (apply raises_only_Raise; reflexivity); apply raises_only_Ok. }
  destruct (PrimFloat.leb desired_ratio img_ratio).
  - apply raises_only_bind.
    { unfold py_div_float. destruct (PrimFloat.eqb img_ratio 0);
        [apply raises_only_Raise; reflexivity | apply raises_only_Ok]. }
    intros q. apply raises_only_bind; [apply Hint |]. intros nh.
    apply raises_only_Ok.
  - apply raises_only_bind; [apply Hint |]. intros nw. apply raises_only_Ok.
Qed.

Lemma letterbox_image_raises `{Primitives} (image : ndarray)
  (desired_size : Z * Z) (color : color_arg) :
  raises_only letterbox_error (letterbox_image image desired_size color).
Proof.
  unfold letterbox_image. apply raises_only_bind.
  - unfold resize_image_keeping_aspect_ratio.
    destruct (_ && _); [apply raises_only_Ok |].
    apply raises_only_bind; [apply aspect_ratio_size_raises |].
    intros [nw nh]. unfold cv2_resize.
    destruct (_ || _); [apply raises_only_Raise; reflexivity |
                        apply raises_only_Ok].
  - intros resized. destruct (shape resized) as [nh nw].
    unfold cv2_copyMakeBorder.
    destruct (_ || _); [apply raises_only_Raise; reflexivity |
                        apply raises_only_Ok].
Qed.

Lemma aggregated_shape_Ok (images : list ndarray)
  (aggregator : list Z -> result Z) :
  (forall l, l <> [] -> exists v, aggregator l = Ok v) ->
  images <> [] ->
  exists s, _calculate_aggregated_images_shape images aggregator = Ok s.
Proof.
  intros Hagg Hne. unfold _calculate_aggregated_images_shape.
  destruct (Hagg (map (fun i => fst (shape i)) images)) as (h & ->);
    [destruct images; [congruence | discriminate] |].
  destruct (Hagg (map (fun i => snd (shape i)) images)) as (w & ->);
    [destruct images; [congruence | discriminate] |].
  cbn [bind]. eauto.
Qed.

Lemma aggregate_images_shape_raises (images : list ndarray) (mode : string)
  (e : exn) :
  images <> [] ->
  _aggregate_images_shape images mode = Raise e ->
  e = InvalidScalingModeError mode
  /\ mode <> "min" /\ mode <> "max" /\ mode <> "avg".
Proof.
  intros Hne. unfold _aggregate_images_shape, SHAPE_AGGREGATION_FUN.
  cbn [dict_get].
  destruct (String.eqb_spec mode "min") as [-> | Hmin].
  { destruct (@aggregated_shape_Ok images np_min) as (s & ->);
      [| exact Hne | discriminate].
    intros [| a l] Hl; [congruence | cbn; eauto]. }
  destruct (String.eqb_spec mode "max") as [-> | Hmax].
  { destruct (@aggregated_shape_Ok images np_max) as (s & ->);
      [| exact Hne | discriminate].
    intros [| a l] Hl; [congruence | cbn; eauto]. }
  destruct (String.eqb_spec mode "avg") as [-> | Havg].
  { destruct (@aggregated_shape_Ok images round_np_average) as (s & ->);
      [| exact Hne | discriminate].
    intros [| a l] Hl; [congruence | cbn; eauto]. }
  intros Hr. injection Hr as <-. auto.
Qed.

Lemma establish_grid_size_cases (images : list ndarray)
  (grid : option (option Z * option Z)) :
  images <> [] ->
  (_establish_grid_size images grid = Raise ZeroDivisionError)
  \/ exists rows columns,
       _establish_grid_size images grid = Ok (rows, columns)
       /\ (rows * columns < len images ->
           grid = Some (Some rows, Some columns)
           \/ (rows < 0 /\ grid = Some (Some rows, None))
           \/ (columns < 0 /\ grid = Some (None, Some columns))).
Proof.
  intros Hne.
  assert (Hauto : exists rows columns,
             match _negotiate_grid_size images with
             | Some g => Ok g
             | None => Raise FuelExhausted
             end = Ok (rows, columns)
             /\ len images <= rows * columns).
  { destruct (negotiate_grid_size_fits Hne) as (r & c & -> & _ & _ & Hfit).
    eauto. }
  assert (Hone : forall d,
             py_ceil_div (len images) d = Raise ZeroDivisionError
             \/ exists k, py_ceil_div (len images) d = Ok k
                          /\ (d * k < len images -> d < 0)).
  { intros d. destruct (Z.eq_dec d 0) as [-> | Hd0]; [left; reflexivity |].
    right. destruct (Z.lt_ge_cases d 0) as [Hneg | Hpos].
    - unfold py_ceil_div. destruct (Z.eqb_spec d 0); [lia |]. eauto.
    - destruct (@py_ceil_div_spec (len images) d ltac:(lia)) as (k & Hk & Hb).
      exists k. split; [exact Hk | lia]. }
  destruct grid as [[[rows |] [columns |]] |]; cbn [_establish_grid_size].
  - right. exists rows, columns. auto.
  - destruct (Hone rows) as [-> | (k & -> & Hk)]; [left; reflexivity |].
    right. exists rows, k. cbn [bind]. split; [reflexivity |]. intros Hlt.
    right; left. split; [apply Hk; lia | reflexivity].
  - destruct (Hone columns) as [-> | (k & -> & Hk)]; [left; reflexivity |].
    right. exists k, columns. cbn [bind]. split; [reflexivity |]. intros Hlt.
    right; right. split; [apply Hk; lia | reflexivity].
  - right. destruct Hauto as (r & c & Hg & Hfit). exists r, c.
    split; [exact Hg | lia].
  - right. destruct Hauto as (r & c & Hg & Hfit). exists r, c.
    split; [exact Hg | lia].
Qed.

(** Every way a call of [create_tiles] can end, stage by stage. *)
Lemma create_tiles_cases `{Primitives} (images : list ImageType)
  (args : tiles_args) :
  (images = [] /\ create_tiles images args = Raise EmptyInputError)
  \/ (images <> []
      /\ ((single_tile_size args = None
           /\ tile_scaling args <> "min" /\ tile_scaling args <> "max"
           /\ tile_scaling args <> "avg"
           /\ create_tiles images args
              = Raise (InvalidScalingModeError (tile_scaling args)))
          \/ (exists e, letterbox_error e = true
                        /\ create_tiles images args = Raise e)
          \/ (exists rows columns,
                 _establish_grid_size (images_to_cv2 images) (grid_size args)
                 = Ok (rows, columns)
                 /\ rows * columns < len images
                 /\ create_tiles images args
                    = Raise (GridCapacityError (len images) (rows, columns)))
          \/ (exists rows columns,
                 _establish_grid_size (images_to_cv2 images) (grid_size args)
                 = Ok (rows, columns)
                 /\ len images <= rows * columns
                 /\ raises_only composer_error (create_tiles images args)))).
Proof.
  destruct images as [| image0 images']; [left; split; reflexivity |].
  right. split; [discriminate |].
  set (images := image0 :: images').
  assert (Hne : images <> []) by discriminate.
  assert (Hne' : images_to_cv2 images <> []) by discriminate.
  destruct (resolved_tile_size images args) as [size | e] eqn:Hsize.
  2: { left. unfold resolved_tile_size in Hsize.
       destruct (single_tile_size args) as [s |] eqn:Hs; [discriminate |].
       destruct (@aggregate_images_shape_raises _ _ _ Hne' Hsize)
         as (-> & Hmin & Hmax & Havg).
       repeat split; auto.
       unfold create_tiles. rewrite (len_nonempty Hne). cbv zeta.
       rewrite Hs, Hsize. reflexivity. }
  right.
  destruct (letterboxed_tiles images args size) as [tiles | e] eqn:Htiles.
  2: { left. exists e. split.
       - unfold letterboxed_tiles in Htiles.
         eapply raises_only_mapM; [| exact Htiles].
         intros a. apply letterbox_image_raises.
       - unfold resolved_tile_size in Hsize.
         unfold letterboxed_tiles in Htiles.
         unfold create_tiles. rewrite (len_nonempty Hne). cbv zeta.
         rewrite Hsize. cbn [bind]. rewrite Htiles. reflexivity. }
  destruct (@establish_grid_size_cases (images_to_cv2 images) (grid_size args)
              Hne') as [Hz | (rows & columns & Hgrid & _)].
  { left. exists ZeroDivisionError. split; [reflexivity |].
    unfold resolved_tile_size in Hsize. unfold letterboxed_tiles in Htiles.
    unfold create_tiles. rewrite (len_nonempty Hne). cbv zeta.
    rewrite Hsize. cbn [bind]. rewrite Htiles. cbn [bind]. rewrite Hz.
    reflexivity. }
  right.
  destruct (create_tiles_stages args Hne Hsize Htiles Hgrid) as (Hlt & Hge).
  destruct (Z.lt_ge_cases (rows * columns) (len images)) as [Hc | Hc].
  - left. exists rows, columns. auto.
  - right. exists rows, columns. auto.
Qed.

(** X7. [create_tiles] raises the empty-input error for the empty list
    of images whatever the other arguments are, and for no other
    input. *)
Theorem create_tiles_empty_input `{Primitives} (images : list ImageType)
  (args : tiles_args) :
  create_tiles images args = Raise EmptyInputError <-> images = [].
Proof.
  split; [| intros ->; reflexivity].
  intros Hraise.
  destruct (create_tiles_cases images args)
    as [(Hnil & _) | (Hne & [(_ & _ & _ & _ & Hr) |
                             [(e & He & Hr) |
                              [(r & c & _ & _ & Hr) | (r & c & _ & _ & Hr)]]])];
    [exact Hnil | | | |].
  - rewrite Hr in Hraise. discriminate.
  - rewrite Hr in Hraise. injection Hraise as ->. discriminate.
  - rewrite Hr in Hraise. discriminate.
  - specialize (Hr _ Hraise). discriminate.
Qed.

(** X8. [create_tiles] raises the invalid-scaling-mode error exactly
    when the list of images is not empty, no tile size is given and the
    mode is none of "min", "max" and "avg"; the error names the mode that
    was passed. *)
Theorem create_tiles_invalid_mode_iff `{Primitives} (images : list ImageType)
  (args : tiles_args) (mode : string) :
  create_tiles images args = Raise (InvalidScalingModeError mode)
  <-> images <> [] /\ single_tile_size args = None
      /\ mode = tile_scaling args
      /\ mode <> "min" /\ mode <> "max" /\ mode <> "avg".
Proof.
  split.
  - intros Hraise.
    destruct (create_tiles_cases images args)
      as [(Hnil & Hr) | (Hne & [(Hs & Hmin & Hmax & Havg & Hr) |
                               [(e & He & Hr) |
                                [(r & c & _ & _ & Hr) | (r & c & _ & _ & Hr)]]])].
    + rewrite Hr in Hraise. discriminate.
    + rewrite Hr in Hraise. injection Hraise as <-. repeat split; assumption || reflexivity.
    + rewrite Hr in Hraise. injection Hraise as ->. discriminate.
    + rewrite Hr in Hraise. discriminate.
    + specialize (Hr _ Hraise). discriminate.
  - intros (Hne & Hs & -> & Hmin & Hmax & Havg).
    unfold create_tiles. rewrite (len_nonempty Hne). cbv zeta.
    rewrite Hs, (aggregate_images_shape_unknown _ Hmin Hmax Havg).
    reflexivity.
Qed.

(** X9. Where a grid-capacity error comes from.  The error reports the
    number of images and the resolved grid, whose product is below that
    number, and the grid was either given in full by the caller or
    derived from one negative dimension: the automatic grid, and a grid
    with one positive dimension given, always hold all the images. *)
Theorem create_tiles_capacity_error_origin `{Primitives}
  (images : list ImageType) (args : tiles_args) (n : Z) (grid : Z * Z) :
  create_tiles images args = Raise (GridCapacityError n grid) ->
  n = len images
  /\ fst grid * snd grid < len images
  /\ (grid_size args = Some (Some (fst grid), Some (snd grid))
      \/ (fst grid < 0 /\ grid_size args = Some (Some (fst grid), None))
      \/ (snd grid < 0 /\ grid_size args = Some (None, Some (snd grid)))).
Proof.
  intros Hraise.
  destruct (create_tiles_cases images args)
    as [(Hnil & Hr) | (Hne & [(Hs & Hmin & Hmax & Havg & Hr) |
                             [(e & He & Hr) |
                              [(r & c & Hg & Hlt & Hr) | (r & c & _ & _ & Hr)]]])].
  - rewrite Hr in Hraise. discriminate.
  - rewrite Hr in Hraise. discriminate.
  - rewrite Hr in Hraise. injection Hraise as ->. discriminate.
  - rewrite Hr in Hraise. injection Hraise as <- <-. cbn [fst snd].
    split; [reflexivity |]. split; [exact Hlt |].
    assert (Hne' : images_to_cv2 images <> [])
      by (destruct images; [congruence | discriminate]).
    destruct (@establish_grid_size_cases (images_to_cv2 images)
                (grid_size args) Hne') as [Hz | (r' & c' & Hg' & Hcase)].
    + rewrite Hz in Hg. discriminate.
    + rewrite Hg in Hg'. injection Hg' as <- <-.
      apply Hcase. rewrite len_images_to_cv2. exact Hlt.
  - specialize (Hr _ Hraise). discriminate.
Qed.

Lemma create_tiles_capacity_error_origin_witness :
  let images := [NdArray (solid 2 2 black); NdArray (solid 2 2 black);
                 NdArray (solid 2 2 black)] in
  let args := example_args (Some (Some (-2), None)) None "avg" in
  3 = len images
  /\ fst (-2, -1) * snd (-2, -1) < len images
  /\ (grid_size args = Some (Some (fst (-2, -1)), Some (snd (-2, -1)))
      \/ (fst (-2, -1) < 0 /\ grid_size args = Some (Some (fst (-2, -1)), None))
      \/ (snd (-2, -1) < 0
          /\ grid_size args = Some (None, Some (snd (-2, -1))))).
Proof.
  cbv zeta.
  apply (@create_tiles_capacity_error_origin sample_primitives
           [NdArray (solid 2 2 black); NdArray (solid 2 2 black);
            NdArray (solid 2 2 black)]
           (example_args (Some (Some (-2), None)) None "avg") 3 (-2, -1)).
  vm_compute. reflexivity.
Defined.

(** ** The three tile sizes *)

Lemma Zsum_bounds (l : list Z) (a b : Z) :
  (forall v, In v l -> a <= v <= b) ->
  len l * a <= Zsum l <= len l * b.
Proof.
  unfold len. induction l as [| v l IH]; intros Hall.
  - cbn. lia.
  - cbn [Zsum fold_right length]. fold (Zsum l).
    pose proof (Hall v (or_introl eq_refl)) as Hv.
    specialize (IH (fun u Hu => Hall u (or_intror Hu))).
    rewrite Nat2Z.inj_succ. nia.
Qed.

Lemma aggregators_ordered (l : list Z) :
  l <> [] ->
  exists mn av mx,
    np_min l = Ok mn /\ round_np_average l = Ok av /\ np_max l = Ok mx
    /\ is_minimum mn l /\ is_maximum mx l /\ mn <= av <= mx.
Proof.
  intros Hne. destruct l as [| a l]; [congruence |].
  cbn [np_min np_max round_np_average].
  pose proof (fold_left_min_spec l a) as Hmin.
  pose proof (fold_left_max_spec l a) as Hmax.
  set (mn := fold_left Z.min l a) in *. set (mx := fold_left Z.max l a) in *.
  exists mn, (py_round_div (fold_left Z.add (a :: l) 0) (len (a :: l))), mx.
  repeat (split; [reflexivity || assumption |]).
  rewrite fold_left_add_Zsum, Z.add_0_l.
  assert (Hn : 0 < len (a :: l)) by (unfold len; cbn [length]; lia).
  pose proof (py_round_div_nearest (Zsum (a :: l)) Hn) as Hnear.
  assert (Hb : len (a :: l) * mn <= Zsum (a :: l) <= len (a :: l) * mx).
  { apply Zsum_bounds. intros v Hv. split; [apply Hmin | apply Hmax]; exact Hv. }
  set (n := len (a :: l)) in *. set (s := Zsum (a :: l)) in *.
  set (av := py_round_div s n) in *. clearbody n s av mn mx.
  clear - Hn Hnear Hb. split.
  - destruct (Z.lt_ge_cases av mn) as [Hlt | Hge]; [| lia].
    exfalso. assert (av * n <= (mn - 1) * n) by nia. nia.
  - destruct (Z.lt_ge_cases mx av) as [Hlt | Hge]; [| lia].
    exfalso. assert ((mx + 1) * n <= av * n) by nia. nia.
Qed.

(** X10. On a non-empty list the three scaling modes all give a tile
    size, and the sizes are ordered: width and height for "min" are at
    most those for "avg", which are at most those for "max". *)
Theorem aggregate_images_shape_ordered (images : list ndarray) :
  images <> [] ->
  exists smin savg smax,
    _aggregate_images_shape images "min" = Ok smin
    /\ _aggregate_images_shape images "avg" = Ok savg
    /\ _aggregate_images_shape images "max" = Ok smax
    /\ fst smin <= fst savg <= fst smax
    /\ snd smin <= snd savg <= snd smax.
Proof.
  intros Hne.
  assert (Hh : map (fun i => fst (shape i)) images <> [])
    by (destruct images; [congruence | discriminate]).
  assert (Hw : map (fun i => snd (shape i)) images <> [])
    by (destruct images; [congruence | discriminate]).
  destruct (aggregators_ordered Hh)
    as (hmn & hav & hmx & Hh1 & Hh2 & Hh3 & _ & _ & Hho).
  destruct (aggregators_ordered Hw)
    as (wmn & wav & wmx & Hw1 & Hw2 & Hw3 & _ & _ & Hwo).
  exists (wmn, hmn), (wav, hav), (wmx, hmx).
  unfold _aggregate_images_shape, SHAPE_AGGREGATION_FUN.
  cbn [dict_get String.eqb Ascii.eqb Bool.eqb].
  unfold _calculate_aggregated_images_shape.
  rewrite Hh1, Hh2, Hh3, Hw1, Hw2, Hw3. cbn [bind fst snd].
  repeat split; lia.
Qed.

Lemma aggregate_images_shape_ordered_witness :
  exists smin savg smax,
    _aggregate_images_shape [solid 2 6 black; solid 3 4 black; solid 8 5 black]
      "min" = Ok smin
    /\ _aggregate_images_shape
         [solid 2 6 black; solid 3 4 black; solid 8 5 black] "avg" = Ok savg
    /\ _aggregate_images_shape
         [solid 2 6 black; solid 3 4 black; solid 8 5 black] "max" = Ok smax
    /\ fst smin <= fst savg <= fst smax
    /\ snd smin <= snd savg <= snd smax.
Proof.
  apply aggregate_images_shape_ordered. discriminate.
Defined.

(** ** [create_tiles] on images of one size *)

(** The composer on tiles of one size: the mosaic and where each of its
    pixels comes from. *)
Lemma generate_tiles_pixels `{Primitives} (images : list ndarray)
  (rows columns tw th : Z) (tile_padding_color : pixel) (tile_margin : Z)
  (tile_margin_color : pixel) (titles : option (list (option string)))
  (titles_anchors : list (option Point)) (titles_color : pixel)
  (titles_scale : option float) (titles_thickness titles_padding : Z)
  (titles_text_font : Z) (titles_background_color : pixel)
  (default_title_placement : string) :
  1 <= rows -> 1 <= columns -> 0 <= tile_margin ->
  images <> [] -> len images <= rows * columns ->
  Forall (fun t => well_shaped t /\ shape t = (th, tw)) images ->
  match titles with
  | None => True
  | Some ts => len images <= len ts /\ len images <= len titles_anchors
  end ->
  exists mosaic drawn,
    _draw_texts images titles titles_anchors titles_color titles_scale
      titles_thickness titles_padding titles_text_font titles_background_color
      default_title_placement = Ok drawn
    /\ _generate_tiles images (rows, columns) (tw, th) tile_padding_color
         tile_margin tile_margin_color titles titles_anchors titles_color
         titles_scale titles_thickness titles_padding titles_text_font
         titles_background_color default_title_placement = Ok mosaic
    /\ well_shaped mosaic
    /\ shape mosaic = (rows * th + (rows - 1) * tile_margin,
                       columns * tw + (columns - 1) * tile_margin)
    /\ forall y x,
         0 <= y < rows * th + (rows - 1) * tile_margin ->
         0 <= x < columns * tw + (columns - 1) * tile_margin ->
         pixel_at mosaic y x
         = option_map uint8_pixel
             (if (y mod (th + tile_margin) <? th)
                 && (x mod (tw + tile_margin) <? tw)
              then pixel_at
                     (nth (Z.to_nat (y / (th + tile_margin) * columns
                                     + x / (tw + tile_margin)))
                          drawn
                          (solid (Z.to_nat th) (Z.to_nat tw) tile_padding_color))
                     (y mod (th + tile_margin)) (x mod (tw + tile_margin))
              else Some tile_margin_color).
Proof.
  intros Hrows Hcolumns Hm Hne Hfit Htiles Htitles.
  assert (Hth : 0 <= th /\ 0 <= tw).
  { destruct images as [| t0 images]; [congruence |].
    inversion Htiles as [| ? ? (_ & Hs) _]; subst.
    unfold shape in Hs. injection Hs as <- <-. lia. }
  set (h := Z.to_nat th). set (w := Z.to_nat tw).
  set (r := Z.to_nat rows). set (c := Z.to_nat columns).
  set (m := Z.to_nat tile_margin).
  assert (Hsized : Forall (sized h w) images).
  { eapply Forall_impl; [| exact Htiles]. intros t (Hws & Hs).
    apply sized_of_shape; assumption. }
  assert (Htitles' : match titles with
                     | None => True
                     | Some ts => (length images <= length ts)%nat
                                  /\ (length images <= length titles_anchors)%nat
                     end)
    by (destruct titles; [unfold len in Htitles; lia | exact I]).
  destruct (@draw_texts_sized _ h w images titles titles_anchors titles_color
              titles_scale titles_thickness titles_padding titles_text_font
              titles_background_color default_title_placement Hne Hsized
              Htitles') as (drawn & Hdraw & Hlen' & Hsized').
  unfold _generate_tiles. rewrite Hdraw. cbn [bind].
  unfold create_batches. rewrite Z.max_l by lia. fold c.
  assert (Hne' : drawn <> [])
    by (destruct drawn, images; cbn in Hlen'; congruence).
  destruct (@chunks_spec _ c ltac:(lia) (length drawn) drawn Hne'
              ltac:(lia))
    as (front & last_row & -> & Hfront & Hlast & Hsum & Hcat).
  rewrite rev_app_distr. cbn [rev app].
  unfold _generate_color_image. cbn [fst snd].
  rewrite np_full_solid by lia. fold h w.
  set (filler := solid h w tile_padding_color).
  assert (Hfiller : sized h w filler).
  { subst filler. unfold sized, nrows, solid; cbn [nd_rows ncols].
    rewrite repeat_length. repeat split. apply solid_well_shaped. }
  rewrite append_fillers_Ok. cbn [bind]. rewrite rev_involutive.
  rewrite append_filler_rows_Ok. cbn [bind]. fold c.
  assert (Hall : Forall (Forall (sized h w)) (front ++ [last_row])).
  { rewrite <- Hcat in Hsized'. clear - Hsized'.
    induction (front ++ [last_row]) as [| row L IH]; [constructor |].
    cbn [concat] in Hsized'. apply Forall_app in Hsized' as (Hrow & HL).
    constructor; auto. }
  apply Forall_app in Hall as (Hallfront & Halllast).
  pose proof (Forall_inv Halllast) as Hlast_sized.
  assert (Hrfront : (length front < r)%nat).
  { unfold len in Hfit. rewrite <- Hlen', Hsum in Hfit.
    assert (Z.of_nat (length front) * Z.of_nat c < rows * Z.of_nat c) by lia.
    subst r c. nia. }
  set (k1 := Z.to_nat (columns - len last_row)).
  set (k2 := Z.to_nat (rows - len (front ++ [last_row ++ repeat filler k1]))).
  set (T := (front ++ [last_row ++ repeat filler k1])
            ++ repeat (repeat filler c) k2).
  assert (Hk1 : (length last_row + k1 = c)%nat) by (subst k1 c; unfold len; lia).
  assert (Hk2 : (length front + 1 + k2 = r)%nat).
  { subst k2 r. unfold len. rewrite !length_app. cbn [length]. lia. }
  assert (HTlen : length T = r).
  { subst T. rewrite !length_app, repeat_length. cbn [length]. lia. }
  assert (HT : Forall (fun row => length row = c /\ Forall (sized h w) row) T).
  { subst T. apply Forall_app; split; [apply Forall_app; split |].
    - rewrite Forall_forall in Hfront, Hallfront |- *.
      intros row Hrow. split; auto.
    - constructor; [| constructor]. split.
      + rewrite length_app, repeat_length. exact Hk1.
      + apply Forall_app; split; [exact Hlast_sized |].
        apply Forall_forall. intros f Hf. apply repeat_spec in Hf. subst f.
        exact Hfiller.
    - apply Forall_forall. intros row Hrow. apply repeat_spec in Hrow. subst row.
      split; [apply repeat_length |].
      apply Forall_forall. intros f Hf. apply repeat_spec in Hf. subst f.
      exact Hfiller. }
  assert (HTcat : concat T = drawn ++ repeat filler (k1 + k2 * c)).
  { subst T. rewrite !concat_app. cbn [concat]. rewrite app_nil_r.
    rewrite concat_repeat_repeat, repeat_app, <- Hcat, concat_app.
    cbn [concat]. rewrite app_nil_r, <- !app_assoc. reflexivity. }
  destruct (@merge_tiles_elements_pixels T r c h w tile_margin tile_margin_color
              ltac:(lia) ltac:(lia) Hm HTlen HT)
    as (mosaic & Hmerge & Hmosaic & Hpixels).
  fold m in Hmosaic, Hpixels.
  replace (Z.of_nat r) with rows in Hmerge by lia.
  replace (Z.of_nat c) with columns in Hmerge by lia.
  replace (Z.of_nat w) with tw in Hmerge by lia.
  replace (Z.of_nat h) with th in Hmerge by lia.
  exists mosaic, drawn. split; [reflexivity |]. split; [exact Hmerge |].
  destruct Hmosaic as (Hmr & Hmc & Hmws). split; [exact Hmws |].
  assert (Hr1 : Z.of_nat (r - 1) = rows - 1) by lia.
  assert (Hc1 : Z.of_nat (c - 1) = columns - 1) by lia.
  assert (HH : Z.of_nat (h + (r - 1) * (m + h))
               = rows * th + (rows - 1) * tile_margin).
  { rewrite !Nat2Z.inj_add, !Nat2Z.inj_mul, Hr1, !Nat2Z.inj_add.
    subst h m. rewrite !Z2Nat.id by lia. ring. }
  assert (HW : Z.of_nat (w + (c - 1) * (m + w))
               = columns * tw + (columns - 1) * tile_margin).
  { rewrite !Nat2Z.inj_add, !Nat2Z.inj_mul, Hc1, !Nat2Z.inj_add.
    subst w m. rewrite !Z2Nat.id by lia. ring. }
  split; [unfold shape; rewrite Hmr, Hmc, HH, HW; reflexivity |].
  intros y x Hy Hx.
  destruct (Z_of_nat_complete y ltac:(lia)) as (i & ->).
  destruct (Z_of_nat_complete x ltac:(lia)) as (j & ->).
  assert (Hi : (i < h + (r - 1) * (m + h))%nat) by lia.
  assert (Hj : (j < w + (c - 1) * (m + w))%nat) by lia.
  rewrite pixel_at_rows_at, (Hpixels i j filler Hi Hj).
  replace (th + tile_margin) with (Z.of_nat (h + m)) by lia.
  replace (tw + tile_margin) with (Z.of_nat (w + m)) by lia.
  rewrite <- !Nat2Z.inj_mod, <- !Nat2Z.inj_div.
  replace th with (Z.of_nat h) at 1 by lia.
  replace tw with (Z.of_nat w) at 1 by lia.
  rewrite !ltb_of_nat. f_equal.
  destruct (Nat.ltb_spec (i mod (h + m)) h) as [Hin_i | Hout_i];
    [| reflexivity].
  destruct (Nat.ltb_spec (j mod (w + m)) w) as [Hin_j | Hout_j];
    [| reflexivity].
  cbn [andb]. rewrite pixel_at_rows_at.
  assert (Hk : (i / (h + m) <= r - 1)%nat)
    by (apply div_lt_blocks with (w := h); lia).
  assert (Hl : (j / (w + m) <= c - 1)%nat)
    by (apply div_lt_blocks with (w := w); lia).
  rewrite (@nth_concat_uniform _ c T filler) by
    first [lia | eapply Forall_impl; [| exact HT]; intros row (Hrow & _);
                 exact Hrow].
  rewrite HTcat, nth_app_repeat_default.
  replace columns with (Z.of_nat c) at 1 by lia.
  rewrite <- Nat2Z.inj_mul, <- Nat2Z.inj_add, Nat2Z.id. reflexivity.
Qed.

Lemma swap_channels_shape (a : ndarray) :
  shape (swap_channels a) = shape a /\ (well_shaped a -> well_shaped (swap_channels a)).
Proof.
  split.
  - unfold shape, nrows, swap_channels; cbn [nd_rows ncols].
    rewrite length_map. reflexivity.
  - unfold well_shaped, swap_channels; cbn [nd_rows ncols]. intros Hws.
    apply Forall_forall. intros r Hr. apply in_map_iff in Hr as (r0 & <- & Hr0).
    rewrite length_map. rewrite Forall_forall in Hws. apply Hws, Hr0.
Qed.

Lemma letterbox_same_size `{Primitives} (image : ndarray) (w h : Z)
  (color : color_arg) :
  0 < h -> 0 < w -> shape image = (h, w) ->
  letterbox_image image (w, h) color = Ok image.
Proof.
  intros Hh Hw Hshape.
  unfold letterbox_image.
  rewrite (@resize_same_size _ image (w, h)) by exact Hshape.
  cbn [bind]. rewrite Hshape. cbn [fst snd].
  rewrite !Z.sub_diag. cbn [Z.div Z.div_eucl fst Z.sub Z.opp Z.add].
  apply copyMakeBorder_zero.
  unfold is_empty. unfold shape in Hshape. injection Hshape as Hr Hc.
  destruct (Nat.eqb_spec (nrows image) 0); [lia |].
  destruct (Nat.eqb_spec (ncols image) 0); [lia | reflexivity].
Qed.

Lemma mapM_id (A : Type) (f : A -> result A) (l : list A) :
  Forall (fun a => f a = Ok a) l -> mapM f l = Ok l.
Proof.
  induction 1 as [| a l Ha _ IH]; cbn [mapM]; [reflexivity |].
  rewrite Ha, IH. reflexivity.
Qed.

(** X11. [create_tiles] on images of one size.  For a non-empty list of
    images that all have [h] rows and [w] columns (both positive), a tile
    size that is left to a known scaling mode or given as [(w, h)], a
    margin [m >= 0] and a resolved grid of [rows] by [columns] (both at
    least one) that holds the images, the call succeeds.  It returns a
    mosaic of [rows * h + (rows - 1) * m] rows and
    [columns * w + (columns - 1) * m] columns, as a PIL image when the
    resolved format is "pillow" and as an array otherwise.  Without
    titles, the pixel [(y, x)] of the mosaic is, inside the tile part of
    its cell, the cast of the pixel of the input image of that cell (in
    BGR order; the filler tile past the last image), and the margin
    colour elsewhere. *)
Theorem create_tiles_equal_sizes `{Primitives} (images : list ImageType)
  (args : tiles_args) (h w rows columns : Z) :
  images <> [] -> 0 < h -> 0 < w ->
  Forall (fun i => well_shaped (raster_of i) /\ shape (raster_of i) = (h, w))
         images ->
  (single_tile_size args = Some (w, h)
   \/ (single_tile_size args = None
       /\ (tile_scaling args = "min" \/ tile_scaling args = "max"
           \/ tile_scaling args = "avg"))) ->
  0 <= tile_margin args ->
  _establish_grid_size (images_to_cv2 images) (grid_size args)
  = Ok (rows, columns) ->
  1 <= rows -> 1 <= columns -> len images <= rows * columns ->
  let m := tile_margin args in
  let format :=
    if String.eqb (return_type args) "auto"
    then _negotiate_tiles_format images
    else return_type args in
  exists mosaic,
    create_tiles images args
    = Ok (if String.eqb format "pillow"
          then cv2_to_pillow mosaic
          else NdArray mosaic)
    /\ well_shaped mosaic
    /\ shape mosaic = (rows * h + (rows - 1) * m, columns * w + (columns - 1) * m)
    /\ (titles args = None ->
        forall y x,
          0 <= y < rows * h + (rows - 1) * m ->
          0 <= x < columns * w + (columns - 1) * m ->
          pixel_at mosaic y x
          = option_map uint8_pixel
              (if (y mod (h + m) <? h) && (x mod (w + m) <? w)
               then pixel_at
                      (nth (Z.to_nat (y / (h + m) * columns + x / (w + m)))
                           (images_to_cv2 images)
                           (solid (Z.to_nat h) (Z.to_nat w)
                              (_color_to_bgr (tile_padding_color args))))
                      (y mod (h + m)) (x mod (w + m))
               else Some (_color_to_bgr (tile_margin_color args)))).
Proof.
  intros Hne Hh Hw Hall Hsize Hm Hgrid Hrows Hcolumns Hfit m format.
  assert (Hcv : Forall (fun t => well_shaped t /\ shape t = (h, w))
                  (images_to_cv2 images)).
  { unfold images_to_cv2. apply Forall_forall. intros t Ht.
    apply in_map_iff in Ht as (i & <- & Hi).
    rewrite Forall_forall in Hall. destruct (Hall i Hi) as (Hws & Hs).
    destruct i as [a | a]; cbn [raster_of] in *; [auto |].
    destruct (swap_channels_shape a) as (Hss & Hsw).
    split; [auto | congruence]. }
  assert (Hne' : images_to_cv2 images <> [])
    by (destruct images; [congruence | discriminate]).
  assert (Hres : resolved_tile_size images args = Ok (w, h)).
  { unfold resolved_tile_size.
    destruct Hsize as [-> | (-> & Hmode)]; [reflexivity |].
    assert (Hhs : map (fun i => fst (shape i)) (images_to_cv2 images) <> [])
      by (destruct (images_to_cv2 images); [congruence | discriminate]).
    assert (Hws : map (fun i => snd (shape i)) (images_to_cv2 images) <> [])
      by (destruct (images_to_cv2 images); [congruence | discriminate]).
    destruct (aggregators_ordered Hhs)
      as (hmn & hav & hmx & Hh1 & Hh2 & Hh3 & (Hhin & _) & (Hhax & _) & Hho).
    destruct (aggregators_ordered Hws)
      as (wmn & wav & wmx & Hw1 & Hw2 & Hw3 & (Hwin & _) & (Hwax & _) & Hwo).
    assert (Hhall : forall v, In v (map (fun i => fst (shape i))
                                      (images_to_cv2 images)) -> v = h).
    { intros v Hv. apply in_map_iff in Hv as (t & <- & Ht).
      rewrite Forall_forall in Hcv. destruct (Hcv t Ht) as (_ & ->).
      reflexivity. }
    assert (Hwall : forall v, In v (map (fun i => snd (shape i))
                                      (images_to_cv2 images)) -> v = w).
    { intros v Hv. apply in_map_iff in Hv as (t & <- & Ht).
      rewrite Forall_forall in Hcv. destruct (Hcv t Ht) as (_ & ->).
      reflexivity. }
    apply Hhall in Hhin, Hhax. apply Hwall in Hwin, Hwax.
    assert (hav = h) by lia. assert (wav = w) by lia. subst.
    unfold _aggregate_images_shape, SHAPE_AGGREGATION_FUN.
    destruct Hmode as [-> | [-> | ->]];
      cbn [dict_get String.eqb Ascii.eqb Bool.eqb];
      unfold _calculate_aggregated_images_shape;
      rewrite ?Hh1, ?Hh2, ?Hh3, ?Hw1, ?Hw2, ?Hw3; reflexivity. }
  assert (Hlb : letterboxed_tiles images args (w, h)
                = Ok (images_to_cv2 images)).
  { unfold letterboxed_tiles. apply mapM_id.
    eapply Forall_impl; [| exact Hcv]. intros t (_ & Hs).
    apply letterbox_same_size; assumption. }
  unfold resolved_tile_size in Hres. unfold letterboxed_tiles in Hlb.
  unfold create_tiles. rewrite (len_nonempty Hne). cbv zeta.
  rewrite Hres. cbn [bind]. rewrite Hlb. cbn [bind].
  rewrite Hgrid. cbn [bind fst snd]. rewrite len_images_to_cv2.
  destruct (Z.ltb_spec (rows * columns) (len images)); [lia |].
  destruct (@generate_tiles_pixels _ (images_to_cv2 images) rows columns w h
              (_color_to_bgr (tile_padding_color args)) (tile_margin args)
              (_color_to_bgr (tile_margin_color args))
              (option_map (fun t => fill t (len images) None) (titles args))
              (titles_anchors_list (titles_anchors args) (len images))
              (_color_to_bgr (titles_color args)) (titles_scale args)
              (titles_thickness args) (titles_padding args)
              (titles_text_font args)
              (_color_to_bgr (titles_background_color args))
              (default_title_placement args))
    as (mosaic & drawn & Hdraw & Hgen & Hmws & Hms & Hpix); try assumption.
  - rewrite len_images_to_cv2. exact Hfit.
  - rewrite len_images_to_cv2. destruct (titles args) as [ts |]; cbn [option_map];
      [| exact I].
    split; [rewrite fill_length; lia | apply titles_anchors_list_length].
  - rewrite Hgen. cbn [bind]. exists mosaic. fold format.
    split; [destruct (String.eqb format "pillow"); reflexivity |].
    split; [exact Hmws |]. split; [exact Hms |].
    intros Hnone. rewrite Hnone in Hdraw. cbn [option_map _draw_texts] in Hdraw.
    injection Hdraw as <-. exact Hpix.
Qed.

Lemma create_tiles_equal_sizes_witness :
  let images := [NdArray (solid 2 3 black); PilImage (solid 2 3 (1, 2, 3));
                 NdArray (solid 2 3 black); NdArray (solid 2 3 black)] in
  let args := default_args in
  let m := tile_margin args in
  let format :=
    if String.eqb (return_type args) "auto"
    then _negotiate_tiles_format images
    else return_type args in
  exists mosaic,
    create_tiles images args
    = Ok (if String.eqb format "pillow"
          then cv2_to_pillow mosaic
          else NdArray mosaic)
    /\ well_shaped mosaic
    /\ shape mosaic = (2 * 2 + (2 - 1) * m, 2 * 3 + (2 - 1) * m)
    /\ (titles args = None ->
        forall y x,
          0 <= y < 2 * 2 + (2 - 1) * m ->
          0 <= x < 2 * 3 + (2 - 1) * m ->
          pixel_at mosaic y x
          = option_map uint8_pixel
              (if (y mod (2 + m) <? 2) && (x mod (3 + m) <? 3)
               then pixel_at
                      (nth (Z.to_nat (y / (2 + m) * 2 + x / (3 + m)))
                           (images_to_cv2 images)
                           (solid (Z.to_nat 2) (Z.to_nat 3)
                              (_color_to_bgr (tile_padding_color args))))
                      (y mod (2 + m)) (x mod (3 + m))
               else Some (_color_to_bgr (tile_margin_color args)))).
Proof.
  cbv zeta.
  apply (@create_tiles_equal_sizes sample_primitives
           [NdArray (solid 2 3 black); PilImage (solid 2 3 (1, 2, 3));
            NdArray (solid 2 3 black); NdArray (solid 2 3 black)]
           default_args 2 3 2 2); try lia; try discriminate.
  - repeat constructor; apply solid_well_shaped.
  - right. split; [reflexivity |]. right; right; reflexivity.
  - reflexivity.
Defined.

(** ** The output format *)

Lemma len_filter_partition (A : Type) (f : A -> bool) (l : list A) :
  len l = len (filter f l) + len (filter (fun a => negb (f a)) l).
Proof.
  unfold len. induction l as [| a l IH]; [reflexivity |].
  cbn [filter length]. destruct (f a); cbn [negb length]; lia.
Qed.

Lemma negotiate_tiles_format_rule_aux (images : list ImageType) :
  (_negotiate_tiles_format images = "pillow"
   <-> len (filter is_ndarray images) + 2 <= number_of_pil_images images)
  /\ (_negotiate_tiles_format images = "cv2"
      <-> number_of_pil_images images <= len (filter is_ndarray images) + 1).
Proof.
  pose proof (len_filter_partition is_ndarray images) as Hsum.
  fold (number_of_pil_images images) in Hsum.
  set (arrays := len (filter is_ndarray images)) in *.
  set (pils := number_of_pil_images images) in *.
  assert (Hrule : (len images / 2 <=? arrays) = (pils <=? arrays + 1)).
  { apply eq_true_iff_eq. rewrite !Z.leb_le. split; intros Hle.
    - destruct (Z.le_gt_cases pils (arrays + 1)) as [Hok | Hgt]; [exact Hok |].
      exfalso.
      assert (arrays + 1 <= len images / 2)
        by (apply Z.div_le_lower_bound; lia).
      lia.
    - assert (len images / 2 < arrays + 1)
        by (apply Z.div_lt_upper_bound; lia).
      lia. }
  unfold _negotiate_tiles_format. fold arrays. rewrite Hrule.
  destruct (Z.leb_spec pils (arrays + 1)) as [Hle | Hgt].
  - split; [split; [discriminate | lia] | split; [lia | reflexivity]].
  - split; [split; [lia | reflexivity] | split; [discriminate | lia]].
Qed.

(** X12. The rule [_negotiate_tiles_format] follows.  The format is
    "pillow" exactly when the PIL images outnumber the numpy arrays by
    two or more, and "cv2" exactly when they outnumber them by at most
    one.  So a non-empty list of numpy arrays alone gives "cv2", and a
    list of two or more PIL images alone gives "pillow". *)
Theorem negotiate_tiles_format_rule (images : list ImageType) :
  let arrays := len (filter is_ndarray images) in
  let pils := number_of_pil_images images in
  (_negotiate_tiles_format images = "pillow" <-> arrays + 2 <= pils)
  /\ (_negotiate_tiles_format images = "cv2" <-> pils <= arrays + 1)
  /\ (images <> [] -> pils = 0 -> _negotiate_tiles_format images = "cv2")
  /\ (2 <= len images -> arrays = 0 ->
      _negotiate_tiles_format images = "pillow").
Proof.
  intros arrays pils.
  pose proof (len_filter_partition is_ndarray images) as Hsum.
  fold arrays in Hsum. fold (number_of_pil_images images) in Hsum.
  fold pils in Hsum.
  destruct (negotiate_tiles_format_rule_aux images) as (Hpil & Hcv).
  fold arrays pils in Hpil, Hcv.
  split; [exact Hpil |]. split; [exact Hcv |]. split.
  - intros _ Hp. apply Hcv.
    assert (0 <= arrays) by (subst arrays; unfold len; lia). lia.
  - intros Hn Ha. apply Hpil. lia.
Qed.

Lemma bind_Ok_inv (A B : Type) (r : result A) (k : A -> result B) (b : B) :
  bind r k = Ok b -> exists a, r = Ok a /\ k a = Ok b.
Proof.
  destruct r as [a | e]; cbn [bind]; [eauto | discriminate].
Qed.

(** X13. The kind of value a successful [create_tiles] returns.  With
    [return_type] "auto" it is a numpy array exactly when the PIL images
    among the inputs outnumber the arrays by at most one; with "pillow"
    it is a PIL image; with any other value it is a numpy array. *)
Theorem create_tiles_return_type `{Primitives} (images : list ImageType)
  (args : tiles_args) (out : ImageType) :
  create_tiles images args = Ok out ->
  (return_type args = "auto" ->
   (is_ndarray out = true
    <-> number_of_pil_images images <= len (filter is_ndarray images) + 1))
  /\ (return_type args = "pillow" -> is_ndarray out = false)
  /\ (return_type args <> "auto" -> return_type args <> "pillow" ->
      is_ndarray out = true).
Proof.
  intros Hout. unfold create_tiles in Hout.
  destruct (len images =? 0); [discriminate |]. cbv zeta in Hout.
  apply bind_Ok_inv in Hout as (size & _ & Hout).
  apply bind_Ok_inv in Hout as (tiles & _ & Hout).
  apply bind_Ok_inv in Hout as (grid & _ & Hout).
  destruct (fst grid * snd grid <? _); [discriminate |].
  apply bind_Ok_inv in Hout as (mosaic & _ & Hout).
  assert (Hkind : is_ndarray out
                  = negb (String.eqb
                            (if String.eqb (return_type args) "auto"
                             then _negotiate_tiles_format images
                             else return_type args) "pillow")).
  { set (b := String.eqb _ "pillow") in *.
    destruct b; injection Hout as <-; reflexivity. }
  clear Hout. rewrite Hkind.
  destruct (negotiate_tiles_format_rule_aux images) as (Hpil & Hcv).
  split; [| split].
  - intros ->. cbn [String.eqb Ascii.eqb Bool.eqb].
    rewrite <- Hcv.
    destruct (String.eqb_spec (_negotiate_tiles_format images) "pillow")
      as [-> | Hne]; cbn [negb].
    + split; discriminate.
    + split; [intros _ | reflexivity].
      unfold _negotiate_tiles_format in *.
      destruct (_ <=? _); [reflexivity | congruence].
  - intros ->. reflexivity.
  - intros Hauto Hpillow.
    apply String.eqb_neq in Hauto, Hpillow. rewrite Hauto, Hpillow.
    reflexivity.
Qed.

Lemma create_tiles_return_type_witness :
  let images := [PilImage (solid 2 2 black); NdArray (solid 2 2 black);
                 PilImage (solid 2 2 black)] in
  exists out,
    create_tiles images default_args = Ok out
    /\ (return_type default_args = "auto" ->
        (is_ndarray out = true
         <-> number_of_pil_images images
             <= len (filter is_ndarray images) + 1))
    /\ (return_type default_args = "pillow" -> is_ndarray out = false)
    /\ (return_type default_args <> "auto" ->
        return_type default_args <> "pillow" -> is_ndarray out = true).
Proof.
  cbv zeta. eexists. split; [vm_compute; reflexivity |].
  apply (@create_tiles_return_type sample_primitives
           [PilImage (solid 2 2 black); NdArray (solid 2 2 black);
            PilImage (solid 2 2 black)] default_args).
  vm_compute. reflexivity.
Defined.

(** ** Titles *)

Lemma mapM_length (A B : Type) (f : A -> result B) (l : list A) (l' : list B) :
  mapM f l = Ok l' -> length l' = length l.
Proof.
  revert l'. induction l as [| a l IH]; intros l' Hm; cbn [mapM] in Hm.
  - injection Hm as <-. reflexivity.
  - apply bind_Ok_inv in Hm as (b & _ & Hm).
    apply bind_Ok_inv in Hm as (bs & Hbs & Hm).
    injection Hm as <-. cbn [length]. f_equal. apply IH, Hbs.
Qed.

Lemma combine_firstn_r (A B : Type) (l : list A) (l' : list B) :
  combine l (firstn (length l) l') = combine l l'.
Proof.
  revert l'. induction l as [| a l IH]; intros [| b l']; cbn; try reflexivity.
  f_equal. apply IH.
Qed.

Lemma untitled_tiles_unchanged (f : ndarray * option string * Point -> ndarray)
  (images : list ndarray) (ts : list (option string)) (anchors : list Point) :
  (forall image anchor, f (image, None, anchor) = image) ->
  Forall (fun t => t = None) ts ->
  (length images <= length ts)%nat -> (length images <= length anchors)%nat ->
  map f (combine (combine images ts) anchors) = images.
Proof.
  intros Hf. revert ts anchors.
  induction images as [| image images IH]; intros ts anchors Hts Hl Ha;
    [reflexivity |].
  destruct ts as [| t ts]; [cbn in Hl; lia |].
  destruct anchors as [| a anchors]; [cbn in Ha; lia |].
  cbn [combine map]. cbn [length] in Hl, Ha.
  rewrite (Forall_inv Hts), Hf. f_equal.
  apply IH; [exact (Forall_inv_tail Hts) | lia | lia].
Qed.

Lemma draw_texts_untitled `{Primitives} (images : list ndarray)
  (ts : list (option string))
  (titles_anchors : list (option Point)) (titles_color : pixel)
  (titles_scale : option float) (titles_thickness titles_padding : Z)
  (titles_text_font : Z) (titles_background_color : pixel)
  (default_title_placement : string) :
  images <> [] ->
  Forall (fun t => t = None) ts ->
  (length images <= length ts)%nat ->
  (length images <= length titles_anchors)%nat ->
  _draw_texts images (Some ts) titles_anchors titles_color titles_scale
    titles_thickness titles_padding titles_text_font titles_background_color
    default_title_placement = Ok images.
Proof.
  intros Hne Hts Hl Ha. unfold _draw_texts.
  assert (Hscale : exists s,
             match titles_scale with
             | Some s => Ok s
             | None =>
                 match images with
                 | [] => Raise IndexError
                 | image0 :: _ =>
                     let '(image_height, image_width) := shape image0 in
                     Ok (calculate_optimal_text_scale (image_width, image_height))
                 end
             end = Ok s).
  { destruct titles_scale; [eauto |]. destruct images; [congruence |].
    unfold shape. eauto. }
  destruct Hscale as (s & ->). cbn [bind]. f_equal.
  apply untitled_tiles_unchanged; auto.
  unfold _prepare_default_titles_anchors.
  rewrite length_map, length_combine. lia.
Qed.

Lemma fill_all_None (A : Type) (l : list (option A)) (n : Z) :
  Forall (fun t => t = None) l -> Forall (fun t => t = None) (fill l n None).
Proof.
  intros Hl. unfold fill. apply Forall_app. split; [exact Hl |].
  apply Forall_forall. intros t Ht. apply repeat_spec in Ht. exact Ht.
Qed.

Ltac tiles_args_projections :=
  cbn [set_titles grid_size single_tile_size tile_scaling
       tile_padding_color tile_margin tile_margin_color return_type titles
       titles_anchors titles_color titles_scale titles_thickness
       titles_padding titles_text_font titles_background_color
       default_title_placement].

(** X14. A list of titles that holds no title (every entry [None],
    or no entry) gives the same result as no list of titles: tiles
    without a title are left as they are. *)
Theorem create_tiles_empty_titles `{Primitives} (images : list ImageType)
  (args : tiles_args) (ts : list (option string)) :
  titles args = Some ts -> Forall (fun t => t = None) ts ->
  create_tiles images args = create_tiles images (set_titles None args).
Proof.
  intros Htitles Hall. unfold create_tiles. tiles_args_projections.
  rewrite Htitles. cbn [option_map].
  destruct (len images =? 0) eqn:Hlen; [reflexivity |]. cbv zeta.
  destruct (match single_tile_size args with
            | Some s => Ok s
            | None => _aggregate_images_shape (images_to_cv2 images)
                        (tile_scaling args)
            end) as [size | e]; [cbn [bind] | reflexivity].
  destruct (mapM _ (images_to_cv2 images)) as [tiles | e] eqn:Htiles;
    [cbn [bind] | reflexivity].
  destruct (_establish_grid_size _ _) as [grid | e]; [cbn [bind] | reflexivity].
  destruct (_ <? _); [reflexivity |].
  apply mapM_length in Htiles.
  assert (Hn : Z.of_nat (length tiles) = len images)
    by (rewrite Htiles; fold (len (images_to_cv2 images));
        apply len_images_to_cv2).
  assert (Hne : tiles <> []).
  { apply Z.eqb_neq in Hlen. destruct tiles; [cbn in Hn; lia | discriminate]. }
  unfold _generate_tiles.
  rewrite draw_texts_untitled; [reflexivity | exact Hne | | |].
  - apply fill_all_None, Hall.
  - pose proof (fill_length ts (len (images_to_cv2 images)) None) as Hf.
    rewrite len_images_to_cv2 in *. unfold len in *. lia.
  - pose proof (titles_anchors_list_length (titles_anchors args)
                  (len (images_to_cv2 images))) as Hf.
    rewrite len_images_to_cv2 in *. unfold len in *. lia.
Qed.

Lemma create_tiles_empty_titles_witness :
  create_tiles [NdArray (solid 2 2 black); NdArray (solid 2 2 (1, 2, 3))]
    (set_titles (Some [None]) default_args)
  = create_tiles [NdArray (solid 2 2 black); NdArray (solid 2 2 (1, 2, 3))]
      (set_titles None (set_titles (Some [None]) default_args)).
Proof.
  apply (@create_tiles_empty_titles sample_primitives _ _ [None]).
  - reflexivity.
  - repeat constructor.
Defined.

Lemma draw_texts_firstn `{Primitives} (images : list ndarray)
  (ts : list (option string))
  (titles_anchors : list (option Point)) (titles_color : pixel)
  (titles_scale : option float) (titles_thickness titles_padding : Z)
  (titles_text_font : Z) (titles_background_color : pixel)
  (default_title_placement : string) :
  _draw_texts images (Some (firstn (length images) ts)) titles_anchors
    titles_color titles_scale titles_thickness titles_padding titles_text_font
    titles_background_color default_title_placement
  = _draw_texts images (Some ts) titles_anchors titles_color titles_scale
      titles_thickness titles_padding titles_text_font titles_background_color
      default_title_placement.
Proof.
  unfold _draw_texts. rewrite combine_firstn_r. reflexivity.
Qed.

Lemma fill_exact (A : Type) (l : list A) (n : nat) (content : A) :
  (n <= length l)%nat ->
  fill (firstn n l) (Z.of_nat n) content = firstn n l.
Proof.
  intros Hn. unfold fill, len. rewrite length_firstn, Nat.min_l by exact Hn.
  rewrite Z.sub_diag. cbn [Z.to_nat repeat]. apply app_nil_r.
Qed.

(** X15. Only one title per image counts.  A list of titles gives the
    same result as that list cut or padded with [None] to exactly one
    entry per image: a shorter list leaves the remaining tiles without a
    title, and the entries past the last image are ignored. *)
Theorem create_tiles_titles_normalised `{Primitives} (images : list ImageType)
  (args : tiles_args) (ts : list (option string)) :
  titles args = Some ts ->
  let normalised := firstn (length images) (fill ts (len images) None) in
  length normalised = length images
  /\ create_tiles images args
     = create_tiles images (set_titles (Some normalised) args).
Proof.
  intros Htitles normalised.
  assert (Hfl : (length images <= length (fill ts (len images) None))%nat).
  { pose proof (fill_length ts (len images) None) as Hf. unfold len in *. lia. }
  split; [subst normalised; rewrite length_firstn; lia |].
  unfold create_tiles. tiles_args_projections.
  rewrite Htitles. cbn [option_map].
  destruct (len images =? 0) eqn:Hlen; [reflexivity |]. cbv zeta.
  destruct (match single_tile_size args with
            | Some s => Ok s
            | None => _aggregate_images_shape (images_to_cv2 images)
                        (tile_scaling args)
            end) as [size | e]; [cbn [bind] | reflexivity].
  destruct (mapM _ (images_to_cv2 images)) as [tiles | e] eqn:Htiles;
    [cbn [bind] | reflexivity].
  destruct (_establish_grid_size _ _) as [grid | e]; [cbn [bind] | reflexivity].
  destruct (_ <? _); [reflexivity |].
  apply mapM_length in Htiles.
  assert (Hn : length tiles = length images)
    by (rewrite Htiles; unfold images_to_cv2; apply length_map).
  rewrite len_images_to_cv2. subst normalised. unfold len at 3.
  rewrite fill_exact by exact Hfl.
  unfold _generate_tiles. fold (len images). rewrite <- Hn.
  rewrite draw_texts_firstn. reflexivity.
Qed.

Lemma create_tiles_titles_normalised_witness :
  let images := [NdArray (solid 2 2 black); NdArray (solid 2 2 (1, 2, 3))] in
  let args := set_titles (Some [Some "a"]) default_args in
  let normalised := firstn (length images) (fill [Some "a"] (len images) None) in
  length normalised = length images
  /\ create_tiles images args
     = create_tiles images (set_titles (Some normalised) args).
Proof.
  cbv zeta.
  apply (@create_tiles_titles_normalised sample_primitives
           [NdArray (solid 2 2 black); NdArray (solid 2 2 (1, 2, 3))]
           (set_titles (Some [Some "a"]) default_args) [Some "a"]).
  reflexivity.
Defined.

(** ** Degenerate sizes *)

(** X16. Degenerate sizes, away from the same-size shortcut.  An image
    without rows, or a desired height of 0, makes the ratio computation
    divide by zero; an image without pixels is never resized, the call
    raises; and whatever the resize raises, [letterbox_image] raises
    too. *)
Theorem resize_degenerate_sizes `{Primitives} (image : ndarray)
  (desired_size : Z * Z) :
  shape image <> (snd desired_size, fst desired_size) ->
  (fst (shape image) = 0 \/ snd desired_size = 0 ->
   resize_image_keeping_aspect_ratio image desired_size
   = Raise ZeroDivisionError)
  /\ (is_empty image = true ->
      exists e,
        resize_image_keeping_aspect_ratio image desired_size = Raise e
        /\ letterbox_error e = true)
  /\ forall color e,
       resize_image_keeping_aspect_ratio image desired_size = Raise e ->
       letterbox_image image desired_size color = Raise e.
Proof.
  intros Hshape.
  assert (Hsame : (fst (shape image) =? snd desired_size)
                  && (snd (shape image) =? fst desired_size) = false).
  { apply not_true_is_false. intros Hs.
    apply andb_true_iff in Hs as (H1 & H2). apply Z.eqb_eq in H1, H2.
    apply Hshape. destruct (shape image). cbn [fst snd] in *. congruence. }
  unfold resize_image_keeping_aspect_ratio. rewrite Hsame.
  split; [| split].
  - intros Hz. unfold aspect_ratio_size, py_truediv.
    destruct (Z.eqb_spec (fst (shape image)) 0) as [H0 | H0];
      [reflexivity |].
    destruct Hz as [Hz | Hz]; [contradiction |].
    rewrite Hz. reflexivity.
  - intros Hempty.
    destruct (aspect_ratio_size (shape image) desired_size) as [[nw nh] | e]
      eqn:Hsize; cbn [bind].
    + exists Cv2Error. unfold cv2_resize. rewrite Hempty. split; reflexivity.
    + exists e. split; [reflexivity |].
      exact (@aspect_ratio_size_raises _ _ e Hsize).
  - intros color e Hraise. unfold letterbox_image.
    unfold resize_image_keeping_aspect_ratio. rewrite Hsame, Hraise.
    reflexivity.
Qed.

Lemma resize_degenerate_sizes_witness :
  (fst (shape (solid 0 5 black)) = 0 \/ snd (4, 4) = 0 ->
   resize_image_keeping_aspect_ratio (solid 0 5 black) (4, 4)
   = Raise ZeroDivisionError)
  /\ (is_empty (solid 0 5 black) = true ->
      exists e,
        resize_image_keeping_aspect_ratio (solid 0 5 black) (4, 4) = Raise e
        /\ letterbox_error e = true)
  /\ forall color e,
       resize_image_keeping_aspect_ratio (solid 0 5 black) (4, 4) = Raise e ->
       letterbox_image (solid 0 5 black) (4, 4) color = Raise e.
Proof.
  apply (@resize_degenerate_sizes sample_primitives (solid 0 5 black) (4, 4)).
  discriminate.
Defined.

(** ** [ImageSink] *)

Lemma save_images_from `{Formatter} (calls : list (ndarray * option string)) :
  forall (self : ImageSink.t) (k : nat),
    let '(self', events) := save_images self calls in
    ImageSink.target_dir_path self' = ImageSink.target_dir_path self
    /\ ImageSink.overwrite self' = ImageSink.overwrite self
    /\ ImageSink.image_name_pattern self' = ImageSink.image_name_pattern self
    /\ ImageSink.image_count self' = ImageSink.image_count self + len calls
    /\ events
       = map (fun p : nat * (ndarray * option string) =>
                Imwrite (written_path self
                           (ImageSink.image_count self - Z.of_nat k)
                           (fst p) (snd (snd p)))
                        (fst (snd p)))
             (combine (seq k (length calls)) calls).
Proof.
  induction calls as [| [image image_name] rest IH]; intros self k.
  - cbn. repeat split. unfold len. cbn. lia.
  - cbn [save_images ImageSink.save_image].
    set (self1 := {| ImageSink.target_dir_path := ImageSink.target_dir_path self;
                     ImageSink.overwrite := ImageSink.overwrite self;
                     ImageSink.image_name_pattern :=
                       ImageSink.image_name_pattern self;
                     ImageSink.image_count := ImageSink.image_count self + 1 |}).
    specialize (IH self1 (S k)).
    destruct (save_images self1 rest) as [self' others].
    destruct IH as (Ht & Ho & Hp & Hc & He).
    subst self1. cbn [ImageSink.target_dir_path ImageSink.overwrite
                      ImageSink.image_name_pattern ImageSink.image_count] in *.
    repeat (split; [assumption |]). split.
    + rewrite Hc. unfold len. cbn [length]. lia.
    + cbn [length seq combine map app fst snd]. f_equal.
      * unfold written_path.
        replace (ImageSink.image_count self - Z.of_nat k + Z.of_nat k)
          with (ImageSink.image_count self) by lia.
        reflexivity.
      * rewrite He. apply map_ext. intros [i [img name]]. cbn [fst snd].
        unfold written_path.
        cbn [ImageSink.target_dir_path ImageSink.image_name_pattern].
        replace (ImageSink.image_count self + 1 - Z.of_nat (S k) + Z.of_nat i)
          with (ImageSink.image_count self - Z.of_nat k + Z.of_nat i) by lia.
        reflexivity.
Qed.

(** X19. The numbering of a sink.  A run of [save_image] calls leaves the
    target directory and the name pattern as they were and advances the
    counter by the number of calls, whether a call names its image or
    not.  Call number [i] of the run writes its image, and nothing else,
    to the target directory joined with the name it was given or, without
    one, with the pattern formatted with the counter at that call: the
    counter at the start of the run plus [i]. *)
Theorem image_sink_numbering `{Formatter} (self : ImageSink.t)
  (calls : list (ndarray * option string)) :
  let '(self', events) := save_images self calls in
  ImageSink.image_count self' = ImageSink.image_count self + len calls
  /\ ImageSink.target_dir_path self' = ImageSink.target_dir_path self
  /\ ImageSink.image_name_pattern self' = ImageSink.image_name_pattern self
  /\ length events = length calls
  /\ forall i image image_name,
       nth_error calls i = Some (image, image_name) ->
       nth_error events i
       = Some (Imwrite (written_path self (ImageSink.image_count self) i
                          image_name) image).
Proof.
  pose proof (save_images_from calls self 0) as Hrun.
  destruct (save_images self calls) as [self' events].
  destruct Hrun as (Ht & _ & Hp & Hc & He).
  split; [exact Hc |]. split; [exact Ht |]. split; [exact Hp |].
  rewrite Z.sub_0_r in He. subst events. split.
  - rewrite length_map, length_combine, length_seq. lia.
  - intros i image image_name Hi.
    rewrite nth_error_map_combine, Hi.
    assert (Hlt : (i < length calls)%nat)
      by (apply nth_error_Some; congruence).
    rewrite (nth_error_nth' _ 0%nat) by (rewrite length_seq; exact Hlt).
    rewrite seq_nth by exact Hlt. reflexivity.
Qed.

(** X20. A [with] block on a fresh sink whose body is a run of
    [save_image] calls.  A directory is removed only when the sink was
    built with [overwrite] and the target directory exists, and then it
    is the target directory; a directory is created only when [overwrite]
    is set or the target directory does not exist, and it is the target
    directory; the images written are those of the calls in their order,
    an unnamed image of call [i] under the pattern formatted with [i];
    and every write comes after the directory operations. *)
Theorem image_sink_session `{Formatter} (target_dir_path : string)
  (overwrite : bool) (image_name_pattern : string) (path_exists : bool)
  (calls : list (ndarray * option string)) :
  let events :=
    with_image_sink target_dir_path overwrite image_name_pattern path_exists
      calls in
  (forall path,
      In (Rmtree path) events
      <-> overwrite = true /\ path_exists = true /\ path = target_dir_path)
  /\ (forall path,
         In (Makedirs path) events
         <-> (overwrite = true \/ path_exists = false)
             /\ path = target_dir_path)
  /\ filter is_imwrite events
     = map (fun p : nat * (ndarray * option string) =>
              Imwrite (os_path_join target_dir_path
                         match snd (snd p) with
                         | None => str_format image_name_pattern
                                     (Z.of_nat (fst p))
                         | Some name => name
                         end)
                      (fst (snd p)))
           (combine (seq 0 (length calls)) calls)
  /\ exists writes,
       events = filter (fun e => negb (is_imwrite e)) events ++ writes
       /\ forallb is_imwrite writes = true.
Proof.
  intros events. subst events. unfold with_image_sink.
  set (sink := ImageSink.__init__ target_dir_path overwrite image_name_pattern).
  pose proof (save_images_from calls sink 0) as Hrun.
  assert (Henter : ImageSink.__enter__ sink path_exists
                   = (sink,
                      if path_exists
                      then if overwrite
                           then [Rmtree target_dir_path; Makedirs target_dir_path]
                           else []
                      else [Makedirs target_dir_path])).
  { unfold ImageSink.__enter__. subst sink.
    destruct path_exists, overwrite; reflexivity. }
  rewrite Henter.
  destruct (save_images sink calls) as [sink' saved].
  destruct Hrun as (_ & _ & _ & _ & Hsaved).
  cbn [ImageSink.__exit__]. rewrite app_nil_r.
  assert (Hev : saved
                = map (fun p : nat * (ndarray * option string) =>
                         Imwrite (os_path_join target_dir_path
                                    match snd (snd p) with
                                    | None => str_format image_name_pattern
                                                (Z.of_nat (fst p))
                                    | Some name => name
                                    end)
                                 (fst (snd p)))
                    (combine (seq 0 (length calls)) calls)).
  { rewrite Hsaved. apply map_ext. intros [i [image name]]. reflexivity. }
  clear Hsaved.
  assert (Hall : forallb is_imwrite saved = true).
  { rewrite Hev. apply forallb_forall. intros e He.
    apply in_map_iff in He as (p & <- & _). reflexivity. }
  assert (Hkeep : filter is_imwrite saved = saved).
  { clear - Hall. induction saved as [| e l IH]; [reflexivity |].
    cbn [forallb] in Hall. apply andb_true_iff in Hall as (He & Hl).
    cbn [filter]. rewrite He, IH by exact Hl. reflexivity. }
  assert (Hdrop : filter (fun e => negb (is_imwrite e)) saved = []).
  { clear - Hall. induction saved as [| e l IH]; [reflexivity |].
    cbn [forallb] in Hall. apply andb_true_iff in Hall as (He & Hl).
    cbn [filter]. rewrite He, IH by exact Hl. reflexivity. }
  assert (Hno : forall e, In e saved -> is_imwrite e = true)
    by (apply forallb_forall; exact Hall).
  rewrite <- Hev. clear Hev.
  split; [| split; [| split]].
  - intros path. rewrite in_app_iff. split.
    + intros [Hin | Hin]; [| apply Hno in Hin; discriminate].
      destruct path_exists, overwrite; cbn in Hin; try contradiction;
        repeat (destruct Hin as [Hin | Hin]; try discriminate; try contradiction).
      injection Hin as <-. repeat split.
    + intros (-> & -> & ->). left. left. reflexivity.
  - intros path. rewrite in_app_iff. split.
    + intros [Hin | Hin]; [| apply Hno in Hin; discriminate].
      destruct path_exists, overwrite; cbn in Hin; try contradiction;
        repeat (destruct Hin as [Hin | Hin]; try discriminate; try contradiction);
        injection Hin as <-; (split; [| reflexivity]);
        first [left; reflexivity | right; reflexivity].
    + intros ([-> | ->] & ->); left.
      * destruct path_exists; [right |]; left; reflexivity.
      * left. reflexivity.
  - rewrite filter_app, Hkeep.
    destruct path_exists, overwrite; reflexivity.
  - exists saved. rewrite filter_app, Hdrop, app_nil_r. split; [| exact Hall].
    destruct path_exists, overwrite; reflexivity.
Qed.
